(** * Debate-transcript and article segmentation: a shallow embedding

    The Python sources embedded here are

      - [src/text_to_utterances.py]   (caps and title-newline segmenters)
      - [src/utterances.py]           (honorific segmenter)
      - [src/normalize_utterances.py] (speaker role resolution)
      - [src/media_parse_factiva.py]  (article chunk splitting and validation)
      - [src/media_final_adjustments.py] (article body normalisation)
      - [src/extract_debates.py], [src/merge_cleaned_utterances.py],
        [src/rhetoric_api_annotation.py], [src/word_drift.py],
        [src/ideology_api_annotation.py], [src/media_dataset_cleaning.py]
        (their string and table helpers)

    Text is a list of 8-bit characters read as the code points U+0000..U+00FF;
    on that range the string methods and the regular-expression classes below
    are those of CPython 3 ([str.isspace], [str.lower], [\s], [\d], [\w], ...).
    Regular expressions are kept as syntax trees and run by a backtracking
    matcher that lists its successes in the order in which [re] tries them, so
    the first element of the list is the match [re] reports. *)

From Stdlib Require Import List Ascii String Arith Lia Bool NArith Permutation DecimalString.
From stdpp Require Import gmap strings.
Import ListNotations.
Open Scope string_scope.
Open Scope list_scope.

(** ** Python strings *)

Module Py.

Definition str := list ascii.

Definition code (c : ascii) : N := N_of_ascii c.

Definition between (lo hi : N) (c : ascii) : bool :=
  ((lo <=? code c) && (code c <=? hi))%N.

(** [str.isspace] for one character; also the class [\s] of [re]. *)
Definition isspace (c : ascii) : bool :=
  between 9 13 c || between 28 32 c || (code c =? 133)%N || (code c =? 160)%N.

(** The line boundaries of [str.splitlines]. *)
Definition islinebreak (c : ascii) : bool :=
  between 10 13 c || between 28 30 c || (code c =? 133)%N.

(** [\d]: decimal digits. *)
Definition isdecimal (c : ascii) : bool := between 48 57 c.

(** [\w]: alphanumeric characters and the underscore. *)
Definition isword (c : ascii) : bool :=
  between 48 57 c || between 65 90 c || between 97 122 c || (code c =? 95)%N
  || (code c =? 170)%N || between 178 179 c || (code c =? 181)%N
  || between 185 186 c || between 188 190 c
  || between 192 214 c || between 216 246 c || between 248 255 c.

(** [str.lower] for one character. *)
Definition lower_char (c : ascii) : ascii :=
  if between 65 90 c || (between 192 222 c && negb (code c =? 215)%N)
  then ascii_of_N (code c + 32) else c.

Definition lower (s : str) : str := List.map lower_char s.

Definition eqb (a b : str) : bool := bool_decide (a = b).

Fixpoint lstrip_by (p : ascii -> bool) (s : str) : str :=
  match s with
  | c :: t => if p c then lstrip_by p t else s
  | [] => []
  end.

Definition rstrip_by (p : ascii -> bool) (s : str) : str :=
  rev (lstrip_by p (rev s)).

(** [s.strip()], [s.rstrip()], [s.rstrip(chars)]. *)
Definition strip (s : str) : str := rstrip_by isspace (lstrip_by isspace s).
Definition rstrip (s : str) : str := rstrip_by isspace s.
Definition rstrip_chars (chars s : str) : str :=
  rstrip_by (fun c => existsb (Ascii.eqb c) chars) s.

Fixpoint startswith (p s : str) : bool :=
  match p, s with
  | [], _ => true
  | a :: p', b :: s' => Ascii.eqb a b && startswith p' s'
  | _ :: _, [] => false
  end.

Definition endswith (p s : str) : bool := startswith (rev p) (rev s).

(** [p in s] for strings. *)
Fixpoint contains (p s : str) : bool :=
  startswith p s || match s with [] => false | _ :: t => contains p t end.

(** [s.replace(old, new)] for a non-empty [old]: occurrences are replaced
    from the left and do not overlap. [skip] counts the characters of the
    occurrence just replaced that are still to be passed over. *)
Fixpoint replace_from (old new : str) (skip : nat) (s : str) : str :=
  match s with
  | [] => []
  | c :: t =>
      match skip with
      | S k => replace_from old new k t
      | O => if startswith old s
             then new ++ replace_from old new (length old - 1) t
             else c :: replace_from old new 0 t
      end
  end.

Definition replace (old new s : str) : str := replace_from old new 0 s.

(** [sep.join(parts)]. *)
Fixpoint join (sep : str) (parts : list str) : str :=
  match parts with
  | [] => []
  | [p] => p
  | p :: rest => p ++ sep ++ join sep rest
  end.

(** [s.splitlines()]: [cur] is the current line, reversed; [after_cr] tells
    that the previous character was a carriage return, so that a line feed
    now belongs to the same boundary. *)
Fixpoint splitlines_from (cur : str) (after_cr : bool) (s : str) : list str :=
  match s with
  | [] => match cur with [] => [] | _ => [rev cur] end
  | c :: t =>
      if after_cr && Ascii.eqb c "010" then splitlines_from cur false t
      else if islinebreak c
           then rev cur :: splitlines_from [] (Ascii.eqb c "013") t
           else splitlines_from (c :: cur) false t
  end.

Definition splitlines (s : str) : list str := splitlines_from [] false s.

(** [s.split()]: the maximal runs of non-whitespace characters. *)
Fixpoint split_from (cur : str) (s : str) : list str :=
  match s with
  | [] => match cur with [] => [] | _ => [rev cur] end
  | c :: t =>
      if isspace c
      then match cur with [] => split_from [] t | _ => rev cur :: split_from [] t end
      else split_from (c :: cur) t
  end.

Definition split (s : str) : list str := split_from [] s.

(** [s.split(sep)] for a one-character separator. *)
Fixpoint split_on_from (sep : ascii) (cur : str) (s : str) : list str :=
  match s with
  | [] => [rev cur]
  | c :: t =>
      if Ascii.eqb c sep then rev cur :: split_on_from sep [] t
      else split_on_from sep (c :: cur) t
  end.

Definition split_on (sep : ascii) (s : str) : list str := split_on_from sep [] s.

(** [text[a:b]] for [0 <= a], [0 <= b]. *)
Definition slice (s : str) (a b : nat) : str := firstn (b - a) (skipn a s).

(** [str(n)] for a natural number. *)
Definition str_of_nat (n : nat) : str :=
  list_ascii_of_string (NilEmpty.string_of_uint (Nat.to_uint n)).

End Py.

Import Py.

Coercion list_ascii_of_string : string >-> list.

Definition nl : ascii := "010"%char.
Definition cr : ascii := "013"%char.
Definition ff : ascii := "012"%char.

(** ** Regular expressions ([re]) *)

Module Re.

(** Members of a bracketed set; [\s], [\d] and [\w] also occur alone. *)
Inductive citem :=
| CChr (c : ascii)
| CRng (lo hi : ascii)
| CSpace
| CDigit
| CWord.

Definition in_item (c : ascii) (i : citem) : bool :=
  match i with
  | CChr d => Ascii.eqb c d
  | CRng lo hi => between (code lo) (code hi) c
  | CSpace => isspace c
  | CDigit => isdecimal c
  | CWord => isword c
  end.

(** What consumes exactly one character. *)
Inductive cclass :=
| Lit (c : ascii)
| Dot (dotall : bool)
| Set_ (neg : bool) (items : list citem).

Definition accepts (k : cclass) (c : ascii) : bool :=
  match k with
  | Lit d => Ascii.eqb c d
  | Dot dotall => dotall || negb (Ascii.eqb c nl)
  | Set_ neg items => xorb neg (existsb (in_item c) items)
  end.

Inductive regex :=
| Eps
| One (k : cclass)
| Seq (a b : regex)
| Alt (a b : regex)
| Rep (greedy : bool) (lo : nat) (hi : option nat) (a : regex)
| Grp (n : nat) (a : regex)
| Ahead (a : regex)
| Bol (multiline : bool)
| Eol (multiline : bool)
| EndZ
| WordB.

(** A position in the subject: the character before it and the text from it on. *)
Record cursor := { prev : option ascii; rest : str }.

Definition caps := list (nat * str).
Definition mstate := (cursor * caps)%type.

Definition at_bol (multiline : bool) (c : cursor) : bool :=
  match prev c with
  | None => true
  | Some p => multiline && Ascii.eqb p nl
  end.

Definition at_eol (multiline : bool) (c : cursor) : bool :=
  match rest c with
  | [] => true
  | a :: t => Ascii.eqb a nl && (multiline || match t with [] => true | _ => false end)
  end.

Definition at_end (c : cursor) : bool :=
  match rest c with [] => true | _ => false end.

Definition at_word_boundary (c : cursor) : bool :=
  xorb (match prev c with Some p => isword p | None => false end)
       (match rest c with a :: _ => isword a | [] => false end).

Definition step (k : cclass) (st : mstate) : list mstate :=
  match rest (fst st) with
  | a :: t => if accepts k a then [({| prev := Some a; rest := t |}, snd st)] else []
  | [] => []
  end.

(** The text consumed between two positions of one subject. *)
Definition consumed (from to : cursor) : str :=
  firstn (length (rest from) - length (rest to)) (rest from).

(** Repetition [a{lo,hi}], greedy or lazy; [lo] and [hi] count what is still
    to be matched. The bodies repeated in this program always consume a
    character, so [fuel], the length of the remaining text plus one, is never
    exhausted. *)
Fixpoint rep_loop (body : mstate -> list mstate) (greedy : bool) (fuel : nat)
    (lo : nat) (hi : option nat) (st : mstate) : list mstate :=
  let stop := match lo with O => [st] | S _ => [] end in
  match fuel with
  | O => stop
  | S f =>
      let more :=
        match hi with
        | Some O => []
        | _ => flat_map (rep_loop body greedy f (Nat.pred lo) (option_map Nat.pred hi)) (body st)
        end in
      if greedy then more ++ stop else stop ++ more
  end.

(** All ways in which [r] matches from [st], in the order of [re]'s backtracking. *)
Fixpoint run (r : regex) (st : mstate) : list mstate :=
  match r with
  | Eps => [st]
  | One k => step k st
  | Seq a b => flat_map (run b) (run a st)
  | Alt a b => run a st ++ run b st
  | Rep greedy lo hi a => rep_loop (run a) greedy (S (length (rest (fst st)))) lo hi st
  | Grp n a => List.map (fun st' => (fst st', (n, consumed (fst st) (fst st')) :: snd st')) (run a st)
  | Ahead a => match run a st with [] => [] | _ :: _ => [st] end
  | Bol ml => if at_bol ml (fst st) then [st] else []
  | Eol ml => if at_eol ml (fst st) then [st] else []
  | EndZ => if at_end (fst st) then [st] else []
  | WordB => if at_word_boundary (fst st) then [st] else []
  end.

(** A match object: [m.start()], [m.end()], [m.group(0)] and the groups. *)
Record pymatch := { m_start : nat; m_end : nat; m_text : str; m_caps : caps }.

(** [m.group(n)]; [None] when the group took no part in the match. *)
Fixpoint group (n : nat) (cs : caps) : option str :=
  match cs with
  | [] => None
  | (k, s) :: t => if Nat.eqb k n then Some s else group n t
  end.

(** One attempt at a position. With [must_advance] a match that ends where
    it starts is refused and the matcher backtracks into the next one. *)
Definition attempt (r : regex) (must_advance : bool) (c : cursor) : option mstate :=
  List.find (fun e => negb must_advance || (length (rest (fst e)) <? length (rest c))%nat)
            (run r (c, [])).

(** [search]: the first position from the cursor on at which an attempt
    succeeds; [skipped] is the text passed over, reversed. Only the attempt
    at the starting position is subject to [must_advance]. *)
Fixpoint search (r : regex) (must_advance : bool) (p : option ascii)
    (skipped : str) (s : str) : option (str * cursor * mstate) :=
  match attempt r must_advance {| prev := p; rest := s |} with
  | Some e => Some (rev skipped, {| prev := p; rest := s |}, e)
  | None =>
      match s with
      | [] => None
      | a :: t => search r false (Some a) (a :: skipped) t
      end
  end.

(** A match together with the text between it and the match before. *)
Record seg := { gap : str; mt : pymatch }.

(** The successive matches of the scanner behind [finditer], [sub], [split]
    and [findall], and the text after the last one. After an empty match the
    next search must advance. *)
Fixpoint scan_from (r : regex) (fuel : nat) (off : nat) (must_advance : bool)
    (c : cursor) : list seg * str :=
  match fuel with
  | O => ([], rest c)
  | S f =>
      match search r must_advance (prev c) [] (rest c) with
      | None => ([], rest c)
      | Some (g, b, e) =>
          let start := off + length g in
          let text := consumed b (fst e) in
          let stop := start + length text in
          let '(more, tail) :=
            scan_from r f stop (match text with [] => true | _ => false end) (fst e) in
          ({| gap := g;
              mt := {| m_start := start; m_end := stop; m_text := text; m_caps := snd e |} |}
             :: more, tail)
      end
  end.

Definition scan (r : regex) (text : str) : list seg * str :=
  scan_from r (2 * length text + 2) 0 false {| prev := None; rest := text |}.

Definition finditer (r : regex) (text : str) : list pymatch :=
  List.map mt (fst (scan r text)).

(** [re.sub(r, repl, text)] for a replacement without group references. *)
Definition sub (r : regex) (repl text : str) : str :=
  concat (List.map (fun sg => gap sg ++ repl) (fst (scan r text))) ++ snd (scan r text).

(** [re.split(r, text)] for a pattern without capturing groups. *)
Definition split (r : regex) (text : str) : list str :=
  List.map gap (fst (scan r text)) ++ [snd (scan r text)].

(** [re.findall(r, text)] for a pattern without capturing groups. *)
Definition findall (r : regex) (text : str) : list str :=
  List.map m_text (finditer r text).

(** [re.search(r, text) is not None]. *)
Definition search_ok (r : regex) (text : str) : bool :=
  match search r false None [] text with Some _ => true | None => false end.

(** [re.match(r, text)]: the captures of the match at the start, if any. *)
Definition match_ (r : regex) (text : str) : option caps :=
  option_map snd (attempt r false {| prev := None; rest := text |}).

(** Pattern syntax. *)
Definition lit (s : str) : regex := fold_right (fun c r => Seq (One (Lit c)) r) Eps s.
Definition seqs (rs : list regex) : regex := fold_right Seq Eps rs.
Fixpoint alts (rs : list regex) : regex :=
  match rs with
  | [] => Eps
  | [r] => r
  | r :: t => Alt r (alts t)
  end.
Definition opt (a : regex) : regex := Rep true 0 (Some 1) a.
Definition star (a : regex) : regex := Rep true 0 None a.
Definition plus (a : regex) : regex := Rep true 1 None a.
Definition star_lazy (a : regex) : regex := Rep false 0 None a.
Definition at_least (n : nat) (a : regex) : regex := Rep true n None a.
Definition exactly (n : nat) (a : regex) : regex := Rep true n (Some n) a.
Definition space : regex := One (Set_ false [CSpace]).
Definition nonspace : regex := One (Set_ true [CSpace]).
Definition digit : regex := One (Set_ false [CDigit]).
Definition word : regex := One (Set_ false [CWord]).
Definition chr (c : ascii) : regex := One (Lit c).
Definition any : regex := One (Dot false).
Definition any_dotall : regex := One (Dot true).
Definition upper : citem := CRng "A" "Z".
Definition lowercase : citem := CRng "a" "z".

End Re.

Import Re.

(** ** [src/text_to_utterances.py] *)

Module TextToUtterances.

(** [utterance_id] is the string [f"{debate_id}_{i+1}"] in the caps formats
    and an integer of [range(1, len(df) + 1)] in the title format. *)
Inductive uid :=
| UidStr (s : str)
| UidInt (n : nat).

Record utterance := {
  utterance_id : uid;
  debate_id : str;
  speaker : str;
  text : str
}.

(** [[A-Z ]{2,}] *)
Definition caps_label : regex := at_least 2 (One (Set_ false [upper; CChr " "])).

(** [(?=\n[A-Z ]{2,}:|\Z)] *)
Definition next_label : regex := Ahead (Alt (seqs [chr nl; caps_label; chr ":"]) EndZ).

(** [PATTERNS["all_caps_inline"]]:
    [\n?([A-Z ]{2,}):\s?(.*?)(?=\n[A-Z ]{2,}:|\Z)] with [re.DOTALL]. *)
Definition all_caps_inline : regex :=
  seqs [opt (chr nl); Grp 1 caps_label; chr ":"; opt space;
        Grp 2 (star_lazy any_dotall); next_label].

(** [PATTERNS["all_caps_newline"]]:
    [\n?([A-Z ]{2,}):\n(.*?)(?=\n[A-Z ]{2,}:|\Z)] with [re.DOTALL]. *)
Definition all_caps_newline : regex :=
  seqs [opt (chr nl); Grp 1 caps_label; chr ":"; chr nl;
        Grp 2 (star_lazy any_dotall); next_label].

Definition prefixes : list str :=
  ["Mr." : str; "Ms." : str; "Mrs." : str; "President" : str; "The President" : str;
   "Governor" : str; "Gov." : str; "Senator" : str; "Sen." : str; "Question" : str;
   "Q" : str; "Moderator" : str].

(** [^(Mr\.|...|Moderator)(?:\s+[A-Z][a-z]+)?\.$] *)
Definition speaker_line_pattern : regex :=
  seqs [Bol false; Grp 1 (alts (List.map lit prefixes));
        opt (seqs [plus space; One (Set_ false [upper]); plus (One (Set_ false [lowercase]))]);
        chr "."; Eol false].

Definition is_speaker_line_len (line : str) (max_len : nat) : bool :=
  let line := strip line in
  (length line <=? max_len)%nat && endswith "." line
  && match match_ speaker_line_pattern line with Some _ => true | None => false end.

Definition is_speaker_line (line : str) : bool := is_speaker_line_len line 30.

(** [m.group(n)] of a group that the pattern always matches. *)
Definition group_text (n : nat) (m : pymatch) : str :=
  match group n (m_caps m) with Some s => s | None => [] end.

(** [enumerate(xs)], counting from [i]. *)
Fixpoint enumerate_from {A} (i : nat) (xs : list A) : list (nat * A) :=
  match xs with
  | [] => []
  | x :: t => (i, x) :: enumerate_from (S i) t
  end.

Definition parse_regex_format (file_text : str) (pattern : regex) (debate : str)
  : list utterance :=
  List.map (fun im : nat * pymatch =>
         let speaker := strip (group_text 1 (snd im)) in
         let content := replace [nl] " " (strip (group_text 2 (snd im))) in
         {| utterance_id := UidStr (debate ++ "_" ++ str_of_nat (fst im + 1));
            debate_id := debate;
            speaker := speaker;
            text := content |})
      (enumerate_from 0 (finditer pattern file_text)).

(** The loop state of [parse_title_newline_format]. *)
Record title_state := {
  utterances : list (str * str * str);   (* debate_id, speaker, text; in order *)
  current_speaker : option str;
  current_utterance : list str
}.

(** [current_speaker and current_utterance] *)
Definition has_pending (st : title_state) : bool :=
  match current_speaker st, current_utterance st with
  | Some (_ :: _), _ :: _ => true
  | _, _ => false
  end.

Definition pending_row (debate : str) (st : title_state) : str * str * str :=
  (debate,
   rstrip_chars "." (match current_speaker st with Some s => s | None => [] end),
   strip (join " " (current_utterance st))).

Definition title_step (debate : str) (st : title_state) (line : str) : title_state :=
  if is_speaker_line line then
    let st' :=
      if has_pending st
      then {| utterances := utterances st ++ [pending_row debate st];
              current_speaker := current_speaker st;
              current_utterance := [] |}
      else st in
    {| utterances := utterances st';
       current_speaker := Some (strip line);
       current_utterance := current_utterance st' |}
  else
    {| utterances := utterances st;
       current_speaker := current_speaker st;
       current_utterance := current_utterance st ++ [strip line] |}.

Definition title_rows (debate : str) (lines : list str) : list (str * str * str) :=
  let st := fold_left (title_step debate) lines
              {| utterances := []; current_speaker := None; current_utterance := [] |} in
  if has_pending st then utterances st ++ [pending_row debate st] else utterances st.

Definition parse_title_newline_format (file_text : str) (debate : str) : list utterance :=
  let rows := title_rows debate (splitlines file_text) in
  List.map (fun ir : nat * (str * str * str) =>
         {| utterance_id := UidInt (fst ir);
            debate_id := fst (fst (snd ir));
            speaker := snd (fst (snd ir));
            text := snd (snd ir) |})
      (combine (seq 1 (length rows)) rows).

End TextToUtterances.

(** ** [src/utterances.py] *)

Module Utterances.

Import TextToUtterances.

(** [normalize] *)
Definition normalize (t : str) : str := replace [cr; nl] [nl] t.

Definition honorifics : list str :=
  ["Mr." : str; "Ms." : str; "Mrs." : str; "The President" : str; "Senator" : str;
   "Governor" : str; "Moderator" : str].

Definition capitalized : regex :=
  Seq (One (Set_ false [upper])) (plus (One (Set_ false [lowercase]))).

(** [SPEAKER_PATTERN]:
    [(?:^|\n)(Mr\.|...|Moderator)? ?([A-Z][a-z]+(?: [A-Z][a-z]+)*?)\.\n]
    with [re.MULTILINE]. *)
Definition SPEAKER_PATTERN : regex :=
  seqs [Alt (Bol true) (chr nl);
        opt (Grp 1 (alts (List.map lit honorifics)));
        opt (chr " ");
        Grp 2 (Seq capitalized (star_lazy (Seq (chr " ") capitalized)));
        chr "."; chr nl].

(** [matches[i + 1].start() if i + 1 < len(matches) else len(text)], for each [i]. *)
Fixpoint span_ends (len : nat) (ms : list pymatch) : list nat :=
  match ms with
  | [] => []
  | _ :: t => match t with [] => len | m' :: _ => m_start m' end :: span_ends len t
  end.

Definition honorific_speaker (m : pymatch) : str :=
  strip ((match group 1 (m_caps m) with Some s => s | None => [] end)
         ++ " " ++ group_text 2 m).

Definition parse_honorific_format (debate : str) (file_text : str) : list utterance :=
  let text := normalize file_text in
  let matches := finditer SPEAKER_PATTERN text in
  flat_map (fun ime : nat * (pymatch * nat) =>
         let m := fst (snd ime) in
         let utterance := replace [nl] " " (strip (slice text (m_end m) (snd (snd ime)))) in
         match utterance with
         | [] => []
         | _ :: _ =>
             [{| utterance_id := UidStr (debate ++ "_" ++ str_of_nat (fst ime + 1));
                 debate_id := debate;
                 speaker := honorific_speaker m;
                 text := utterance |}]
         end)
      (enumerate_from 0 (combine matches (span_ends (length text) matches))).

End Utterances.

(** ** [src/normalize_utterances.py] *)

Module NormalizeUtterances.

Inductive role := Candidate_R | Candidate_D | Candidate_I | Moderator.

(** [str.upper] for one character. The three characters of the range whose
    upper case lies outside it or is two letters long (U+00B5, U+00DF,
    U+00FF) are left as they are; none of them is, or becomes, an answer
    that the prompt accepts. *)
Definition upper_char (c : ascii) : ascii :=
  if between 97 122 c || (between 224 254 c && negb (code c =? 247)%N)
  then ascii_of_N (code c - 32) else c.

Definition upper (s : str) : str := List.map upper_char s.

(** [clean_for_matching] *)
Definition clean_for_matching (name : str) : str :=
  let name := strip (lower name) in
  let name := sub (seqs [chr "("; star_lazy any; chr ")"]) "" name in   (* \(.*?\) *)
  let name := sub (One (Set_ true [lowercase; CSpace])) "" name in      (* [^a-z\s] *)
  sub (plus space) " " name.                                            (* \s+ *)

Definition tokens (clean : str) : gset str := list_to_set (Py.split clean).

(** [name_tokens & candidate_tokens] as a truth value. *)
Definition overlap (a b : gset str) : bool := bool_decide (a ∩ b ≠ ∅).

(** The loop over [canonical_map.items()], in the order of insertion. *)
Fixpoint roster_match (name_tokens : gset str) (items : list (str * role)) : option role :=
  match items with
  | [] => None
  | (full_name, r) :: t =>
      match full_name with
      | [] => roster_match name_tokens t
      | _ :: _ =>
          if overlap name_tokens (tokens (clean_for_matching full_name))
          then Some r
          else roster_match name_tokens t
      end
  end.

Definition generic_labels : list str :=
  ["moderator" : str; "question" : str; "q" : str; "audience" : str].

Definition is_generic (name_clean : str) : bool :=
  existsb (fun k => contains k name_clean) generic_labels.

(** What the resolver does to the outside: it announces an ambiguous label,
    reads a line of input, writes the cache. *)
Inductive event :=
| Announce (debate name : str)
| ReadLine (line : str)
| CacheWrite (debate : str) (r : role).

(** [ambiguous_resolution_cache], the lines still to come on standard input,
    and what has happened so far. *)
Record world := {
  cache : gmap str role;
  stdin : list str;
  trace : list event
}.

Definition choice_role (choice : str) : option role :=
  if eqb choice "R" then Some Candidate_R
  else if eqb choice "D" then Some Candidate_D
  else if eqb choice "I" then Some Candidate_I
  else if eqb choice "M" then Some Moderator
  else None.

(** The [while True] loop around [input]; [None] is the [EOFError] that
    [input] raises when standard input is exhausted. *)
Fixpoint ask (debate : str) (c : gmap str role) (lines : list str) (tr : list event)
  : option role * world :=
  match lines with
  | [] => (None, {| cache := c; stdin := []; trace := tr |})
  | line :: more =>
      match choice_role (upper (strip line)) with
      | Some r =>
          (Some r, {| cache := <[debate := r]> c; stdin := more;
                      trace := tr ++ [ReadLine line; CacheWrite debate r] |})
      | None => ask debate c more (tr ++ [ReadLine line])
      end
  end.

Definition match_role (name : str) (canonical_map : list (str * role)) (debate : str)
    (w : world) : option role * world :=
  let name_clean := clean_for_matching name in
  let name_tokens := tokens name_clean in
  match roster_match name_tokens canonical_map with
  | Some r => (Some r, w)
  | None =>
      if is_generic name_clean then (Some Moderator, w)
      else if contains "president" name_clean then
        match cache w !! debate with
        | Some r => (Some r, w)
        | None => ask debate (cache w) (stdin w) (trace w ++ [Announce debate name])
        end
      else (Some Moderator, w)
  end.

(** A Python dict as the list of its items in insertion order: assigning to
    a key that is present keeps its place. *)
Fixpoint dict_set {V} (k : str) (v : V) (d : list (str * V)) : list (str * V) :=
  match d with
  | [] => [(k, v)]
  | (k', v') :: t => if eqb k' k then (k, v) :: t else (k', v') :: dict_set k v t
  end.

(** The [canonical_map] that [normalize_all_speakers] builds from a metadata row. *)
Definition canonical_map_of (candidate_R candidate_D candidate_I moderator : str)
  : list (str * role) :=
  dict_set moderator Moderator
    (dict_set candidate_I Candidate_I
       (dict_set candidate_D Candidate_D
          (dict_set candidate_R Candidate_R []))).

(** Successive calls of [match_role]: what each returns ([None] where
    [input] raised) and the world after the last. *)
Definition call := (str * list (str * role) * str)%type.

Fixpoint run_calls (calls : list call) (w : world) : list (option role) * world :=
  match calls with
  | [] => ([], w)
  | c :: more =>
      let r := match_role (fst (fst c)) (snd (fst c)) (snd c) w in
      let rest := run_calls more (snd r) in
      (fst r :: fst rest, snd rest)
  end.

End NormalizeUtterances.

(** ** [src/media_parse_factiva.py] *)

Module MediaParseFactiva.

(** [clean_block] *)
Definition clean_block (text : str) : str :=
  let t := replace [ff] [nl] (replace [cr] [nl] (replace [cr; nl] [nl] text)) in
  strip (sub (at_least 3 (chr nl)) [nl; nl] t).

(** [(?m)^\s*TAG\s*$] *)
Definition tag_line (tag : str) : regex :=
  seqs [Bol true; star space; lit tag; star space; Eol true].

(** [HD_SPLIT]: [(?m)(?=^\s*HD\s*$)] *)
Definition HD_SPLIT : regex := Ahead (tag_line "HD").

Definition is_real_article (block : str) : bool :=
  let has_pd := search_ok (tag_line "PD") block in
  let has_sn := search_ok (tag_line "SN") block in
  let has_lp := search_ok (tag_line "LP") block in
  has_pd && has_sn && has_lp.

(** The chunks of a dump after the preamble is dropped and the blank ones
    are removed: [blocks] in [split_factiva_file]. *)
Definition blocks_of (raw : str) : list str :=
  let raw := clean_block raw in
  let chunks := Re.split HD_SPLIT raw in
  let chunks :=
    match chunks with
    | [] => []
    | first :: others =>
        let first_line := match splitlines first with l :: _ => l | [] => [] end in
        match match_ (tag_line "HD") first_line with
        | Some _ => chunks
        | None => others
        end
    end in
  List.map clean_block (List.filter (fun c => negb (eqb (strip c) [])) chunks).

Definition split_factiva_file (raw : str) : list str :=
  List.filter is_real_article (blocks_of raw).

End MediaParseFactiva.

(** ** [src/media_final_adjustments.py] *)

Module MediaFinalAdjustments.

Definition MIN_WORDS : nat := 100.

Definition line_of (body : list regex) : regex := seqs ([Bol false] ++ body ++ [Eol false]).

Definition code_line (tag : str) : regex := seqs [Bol false; lit tag; Eol false].

(** [BOILERPLATE_LINE_PATTERNS], in the order of the source. *)
Definition BOILERPLATE_LINE_PATTERNS : list regex :=
  [ line_of [lit "Appeared in the "; star any];
    line_of [lit "Write to "; plus any; chr "@"; plus any; chr "."; plus any];
    line_of [lit "Copyright "; exactly 4 digit; plus any; lit "All Rights Reserved";
             opt (chr ".")];
    line_of [lit "All Rights Reserved"; opt (chr ".")];
    line_of [lit "Dow Jones & Company, Inc."];
    line_of [lit "N.Y.P. Holdings, Inc."];
    line_of [lit "The New York Times Company"];
    line_of [lit "Document "; plus (One (Set_ false [upper; CRng "0" "9"]))];
    alts (List.map code_line
            ["SC" : str; "ED" : str; "PG" : str; "LA" : str; "CY" : str; "NS" : str;
             "RE" : str; "PUB" : str; "AN" : str; "IPD" : str; "SE" : str; "IN" : str]);
    line_of [lit "English"];
    seqs [star any; lit "@nypost.com"; Eol false];
    lit "@nypost.com";
    line_of [star space; lit "--"; plus (chr "-"); star space];
    line_of [lit "Subscribe to WSJ"; star any] ].

(** [TAIL_TRIM_PATTERNS]; [(?s)] makes the dot match line feeds too. *)
Definition TAIL_TRIM_PATTERNS : list regex :=
  [ seqs [Grp 1 (star_lazy any_dotall); plus (chr nl); lit "Copyright "; exactly 4 digit;
          plus any_dotall; lit "All Rights Reserved."; star space; Eol false];
    seqs [Grp 1 (star_lazy any_dotall); plus (chr nl); lit "Write to "; plus any_dotall;
          chr "@"; plus any_dotall; chr "."; plus any_dotall; star space; Eol false];
    seqs [Grp 1 (star_lazy any_dotall); plus (chr nl); lit "Subscribe to WSJ";
          star any_dotall; star space; Eol false] ].

(** The text that [hash_body] hashes. *)
Definition hash_norm (text : str) : str :=
  lower (strip (sub (plus space) " " text)).

Definition is_boilerplate (line : str) : bool :=
  existsb (fun p => match match_ p line with Some _ => true | None => false end)
          BOILERPLATE_LINE_PATTERNS.

(** One step of the loop over [TAIL_TRIM_PATTERNS]. *)
Definition tail_trim (t : str) (pat : regex) : str :=
  match match_ pat t with
  | Some cs => rstrip (match group 1 cs with Some g => g | None => [] end)
  | None => t
  end.

(** [strip_boilerplate_lines] *)
Definition strip_boilerplate_lines (text : str) : str :=
  match strip text with
  | [] => text
  | _ :: _ =>
      let cleaned :=
        List.filter (fun ln => match strip ln with
                               | [] => true
                               | _ :: _ => negb (is_boilerplate (strip ln))
                               end)
                    (splitlines text) in
      fold_left tail_trim TAIL_TRIM_PATTERNS (join [nl] cleaned)
  end.

(** [normalize_nyp_bullets], with [NORMALIZE_NYP_NS = True]:
    [re.sub(r"(?m)^\s*ns\s*(?=\S)", "", text)]. *)
Definition normalize_nyp_bullets (text : str) : str :=
  sub (seqs [Bol true; star space; lit "ns"; star space; Ahead nonspace]) "" text.

(** [word_count]: [len(re.findall(r"\b\w+\b", text))]. *)
Definition word_count (text : str) : nat :=
  length (findall (seqs [WordB; plus word; WordB]) text).

(** A row of the table. [body_words] and [body_len] are columns that [main]
    (re)computes; the other columns pass through. *)
Record article := {
  year : nat;
  theme : str;
  outlet : str;
  outlet_leaning : str;
  article_number : nat;
  headline : str;
  body : str;
  source_file : str;
  body_words : nat;
  body_len : nat
}.

(** [_clean_body] *)
Definition clean_body (row : article) : str :=
  let txt := strip_boilerplate_lines (body row) in
  if eqb (lower (outlet row)) "nyp" then normalize_nyp_bullets txt else txt.

Section Fingerprint.

(** [hashlib.md5(s.encode("utf-8")).hexdigest()] *)
Variable md5_hexdigest : str -> str.

(** [hash_body] *)
Definition hash_body (text : str) : str := md5_hexdigest (hash_norm text).

(** [df.drop_duplicates(subset=["body_fp"], keep="first")]; [seen] holds the
    fingerprints of the rows kept so far. *)
Fixpoint drop_duplicates (seen : list str) (rows : list article) : list article :=
  match rows with
  | [] => []
  | r :: t =>
      if existsb (eqb (hash_body (body r))) seen
      then drop_duplicates seen t
      else r :: drop_duplicates (hash_body (body r) :: seen) t
  end.

(** The rows that [main] writes, from the rows it reads. *)
Definition recompute (row : article) : article :=
  let b := clean_body row in
  {| year := year row; theme := theme row; outlet := outlet row;
     outlet_leaning := outlet_leaning row; article_number := article_number row;
     headline := headline row; body := b; source_file := source_file row;
     body_words := word_count b; body_len := length b |}.

Definition main (rows : list article) : list article :=
  let df := List.map recompute rows in
  let df := drop_duplicates [] df in
  List.filter (fun r => (MIN_WORDS <=? body_words r)%nat) df.

End Fingerprint.

End MediaFinalAdjustments.

(** ** [src/extract_debates.py] *)

Module ExtractDebates.

(** [sanitize] *)
Definition sanitize (text : str) : str :=
  replace "/" "_" (replace "," "" (replace "." "" (replace " " "" text))).




End ExtractDebates.

(** ** [src/merge_cleaned_utterances.py] *)

Module MergeCleanedUtterances.

(** The columns of a metadata row that the two functions read, each as the
    string [str(meta_row.get(key, ""))]. *)
Record meta_row := {
  candidate_R : str;
  candidate_D : str;
  candidate_I : str;
  winner : str
}.


(** The loop of [get_winner_party] over the three candidate columns, in the
    order of the dict literal. *)
Fixpoint winner_loop (winner_name : str) (items : list (str * str)) : str :=
  match items with
  | [] => []
  | (candidate, party) :: more =>
      let candidate_name := lower (strip candidate) in
      if negb (eqb candidate_name []) && contains winner_name candidate_name
      then party
      else winner_loop winner_name more
  end.

(** [get_winner_party] *)
Definition get_winner_party (row : meta_row) : str :=
  winner_loop (lower (strip (winner row)))
    [(candidate_R row, "Republican" : str); (candidate_D row, "Democrat" : str);
     (candidate_I row, "Independent" : str)].

End MergeCleanedUtterances.

(** ** [src/rhetoric_api_annotation.py] *)

Module RhetoricApiAnnotation.

(** [valid_labels] is a set of strings: the order in which [clean_label]
    meets its members is not fixed by the program. *)
Definition valid_labels : list str := ["attack" : str; "acclaim" : str; "defense" : str].

(** [clean_label], the members of [valid_labels] being met in [order]. *)
Definition clean_label (order : list str) (raw_label : str) : str :=
  let raw_label := lower (strip raw_label) in
  match List.find (fun lbl => contains lbl raw_label) order with
  | Some lbl => lbl
  | None => "unspecified"
  end.

End RhetoricApiAnnotation.

(** ** [src/word_drift.py] *)

Module WordDrift.

Definition ANCHORS : list (str * list str) :=
  [("freedom" : str,
    ["freedom" : str; "freedoms" : str; "liberty" : str; "liberties" : str; "free" : str]);
   ("america" : str, ["america" : str; "american" : str; "americans" : str]);
   ("taxes" : str,
    ["tax" : str; "taxes" : str; "taxation" : str; "taxpayer" : str; "taxpayers" : str])].

(** [ALIAS2ANCHOR], filled by the two nested loops. *)
Definition ALIAS2ANCHOR : list (str * str) :=
  fold_left (fun d (item : str * list str) =>
               fold_left (fun d alias => NormalizeUtterances.dict_set alias (fst item) d)
                         (snd item) d)
            ANCHORS [].

(** [d.get(key, default)] *)
Fixpoint dict_get (d : list (str * str)) (key default : str) : str :=
  match d with
  | [] => default
  | (k, v) :: t => if eqb k key then v else dict_get t key default
  end.

(** The second step of [preprocess_and_canonicalize], on the tokens that
    [simple_preprocess] returns. *)
Definition canonicalize (tokens : list str) : list str :=
  List.map (fun tok => dict_get ALIAS2ANCHOR tok tok) tokens.

End WordDrift.

(** ** [src/ideology_api_annotation.py] *)

Module IdeologyApiAnnotation.

Definition MIN_WORDS : nat := 10.

(** [BRACKETED]: [\s*[\[\(].*?[\]\)]\s*] *)
Definition BRACKETED : regex :=
  seqs [star space; One (Set_ false [CChr "["; CChr "("]); star_lazy any;
        One (Set_ false [CChr "]"; CChr ")"]); star space].

(** [SPACES]: [\s+] *)
Definition SPACES : regex := plus space.

(** [clean_text] *)
Definition clean_text (t : str) : str :=
  strip (sub SPACES " " (sub BRACKETED " " t)).

(** [too_short] *)
Definition too_short (text : str) : bool :=
  (length (Py.split text) <? MIN_WORDS)%nat.

End IdeologyApiAnnotation.

(** ** [src/media_dataset_cleaning.py] *)

Module MediaDatasetCleaning.

Definition TAG_TOKENS : list str :=
  ["HD" : str; "BY" : str; "WC" : str; "PD" : str; "SN" : str; "SC" : str; "PG" : str;
   "LA" : str; "CY" : str; "LP" : str; "TD" : str; "NS" : str; "RE" : str; "IPC" : str;
   "IPD" : str; "PUB" : str; "AN" : str; "ART" : str; "SE" : str; "ED" : str; "CO" : str;
   "NOTE" : str].

(** [has_tag_line]: the search for [(?m)^\s*TAG\s*$], the tag being escaped
    and so matched as it is written. *)
Definition has_tag_line (chunk tag : str) : bool :=
  search_ok (MediaParseFactiva.tag_line tag) chunk.

(** [_is_tag_line] *)
Definition _is_tag_line (s : str) : bool :=
  existsb (eqb (strip s)) TAG_TOKENS.

(** The loop of [extract_headline]: the lines collected in [col]. *)
Fixpoint headline_loop (seen_hd : bool) (lines : list str) : list str :=
  match lines with
  | [] => []
  | ln :: more =>
      let s := strip ln in
      if negb seen_hd then headline_loop (eqb s "HD") more
      else if eqb s "BY" || _is_tag_line s then []
      else ln :: headline_loop true more
  end.

(** [extract_headline] *)
Definition extract_headline (chunk fallback : str) : str :=
  let col := headline_loop false (splitlines chunk) in
  let joined :=
    join " " (List.map strip (List.filter (fun c => negb (eqb (strip c) [])) col)) in
  let headline := match joined with [] => fallback | _ :: _ => joined end in
  strip (sub (plus space) " " headline).

End MediaDatasetCleaning.
Import TextToUtterances Utterances NormalizeUtterances MediaParseFactiva MediaFinalAdjustments.

(** ** Notions used to state the properties *)

(** The label [name] and the roster name [full] share a token. *)
Definition shares_token (name full : str) : Prop :=
  exists t, In t (Py.split (clean_for_matching name))
            /\ In t (Py.split (clean_for_matching full)).

Definition announces (d : str) (ev : event) : bool :=
  match ev with Announce d' _ => eqb d' d | _ => false end.

Definition writes (d : str) (ev : event) : bool :=
  match ev with CacheWrite d' _ => eqb d' d | _ => false end.

Definition count {A} (p : A -> bool) (l : list A) : nat := length (List.filter p l).

Definition returned (r : option role) : Prop := r <> None.

(** Every speaker line of a title-format transcript is directly followed by
    a line that is not a speaker line. *)
Fixpoint title_well_formed (lines : list str) : bool :=
  match lines with
  | [] => true
  | l :: rest =>
      (if is_speaker_line l
       then match rest with l' :: _ => negb (is_speaker_line l') | [] => false end
       else true)
      && title_well_formed rest
  end.

(** The speaker stored for a speaker line of the title format. *)
Definition title_speaker (line : str) : str := rstrip_chars "." (strip line).

(** The identifier [f"{debate_id}_{i}"]. *)
Definition caps_id (debate : str) (i : nat) : uid :=
  UidStr (debate ++ "_" ++ str_of_nat i).

Definition two_presidents : list call :=
  [("President" : str, [], "d1" : str); ("The President" : str, [], "d1" : str)].

Definition fresh_world : world :=
  {| cache := ∅; stdin := ["x" : str; "r" : str]; trace := [] |}.

(** The rows of the title format, from a state of the loop onwards. *)
Definition title_finish (debate : str) (st : title_state) : list (str * str * str) :=
  if has_pending st then utterances st ++ [pending_row debate st] else utterances st.

Definition row_speaker (r : str * str * str) : str := snd (fst r).

Definition title_state_ok (st : title_state) (lines : list str) : Prop :=
  match current_speaker st with
  | None => True
  | Some s =>
      s <> [] /\ (current_utterance st <> []
                  \/ exists l rest, lines = l :: rest /\ is_speaker_line l = false)
  end.

Definition sample_title_text : str :=
  "Mr. Smith." ++ [nl] ++ "I agree with that." ++ [nl]
  ++ "Moderator." ++ [nl] ++ "Next question." ++ [nl].

(** Two bodies are equal up to letter case and runs of whitespace: they
    have the same words once lowered. *)
Definition same_modulo_case_and_space (a b : str) : Prop :=
  List.map lower (Py.split a) = List.map lower (Py.split b).

(** [n] copies of a text. *)
Fixpoint copies (n : nat) (s : str) : str :=
  match n with
  | O => []
  | S k => s ++ copies k s
  end.

Definition row_with (o b : str) : article :=
  {| year := 2020; theme := "economy"; outlet := o; outlet_leaning := "";
     article_number := 1; headline := "Headline"; body := b; source_file := "f.txt";
     body_words := 0; body_len := 0 |}.

(** A long body that ends with a copyright tail followed by a contact tail,
    each broken over two lines. *)
Definition two_tails : str :=
  copies 100 "word " ++ [nl] ++ "Copyright 2020 x" ++ [nl] ++ "y All Rights Reserved."
  ++ [nl] ++ "Write to a" ++ [nl] ++ "b@c.d".

Definition plain_body : str := copies 100 "word ".

(** The column [body_fp] of a row. *)
Definition body_fp (md5_hexdigest : str -> str) (r : article) : str :=
  hash_body md5_hexdigest (body r).

(** *** Positions and runs, to describe what the matcher does *)

(** The cursor [n] characters further on. *)
Fixpoint adv (n : nat) (c : cursor) : cursor :=
  match n, rest c with
  | S k, a :: t => adv k {| prev := Some a; rest := t |}
  | _, _ => c
  end.

(** The length of the longest prefix made of characters that [k] accepts. *)
Fixpoint runlen (k : cclass) (s : str) : nat :=
  match s with
  | a :: t => if accepts k a then S (runlen k t) else 0
  | [] => 0
  end.

(** The counts a greedy repetition of at least [lo] tries, from [n] down. *)
Fixpoint countdown (lo n : nat) : list nat :=
  match n with
  | O => match lo with O => [0] | S _ => [] end
  | S m => List.map S (countdown (Nat.pred lo) m) ++ match lo with O => [0] | S _ => [] end
  end.

(** The counts a lazy repetition of at least [lo] tries, up to [n]. *)
Fixpoint countup (lo n : nat) : list nat :=
  match n with
  | O => match lo with O => [0] | S _ => [] end
  | S m => match lo with O => [0] | S _ => [] end ++ List.map S (countup (Nat.pred lo) m)
  end.

(** The first success of [F] at the cursor or at a later position. *)
Fixpoint first_from {A} (F : cursor -> list A) (p : option ascii) (s : str) : option A :=
  match F {| prev := p; rest := s |} with
  | y :: _ => Some y
  | [] =>
      match s with
      | a :: t => first_from F (Some a) t
      | [] => None
      end
  end.

(** The text up to the first character that [k] accepts, and the text from it on. *)
Fixpoint break_at (k : cclass) (s : str) : str * str :=
  match s with
  | [] => ([], [])
  | a :: t => if accepts k a then ([], s) else (a :: fst (break_at k t), snd (break_at k t))
  end.

(** Each maximal run of whitespace replaced by one space; [in_ws] tells that
    the character before was whitespace. *)
Fixpoint squeeze (in_ws : bool) (s : str) : str :=
  match s with
  | [] => []
  | a :: t =>
      if isspace a then (if in_ws then squeeze true t else " "%char :: squeeze true t)
      else a :: squeeze false t
  end.

(** What [sub] builds from the matches of the scanner. *)
Definition sub_of (repl : str) (x : list seg * str) : str :=
  concat (List.map (fun sg => gap sg ++ repl) (fst x)) ++ snd x.

Definition ws_class : cclass := Set_ false [CSpace].

(** A word: not empty and without whitespace. *)
Definition is_word (w : str) : Prop :=
  w <> [] /\ forallb (fun c => negb (isspace c)) w = true.

Definition shouted_body : str := copies 100 ("WORD" ++ [nl] ++ "  ").

Definition short_row : article := row_with "wsj" "Same short text".

(** The first and the last character, if any, are not whitespace. *)
Definition tight (x : str) : Prop :=
  lstrip_by isspace x = x /\ lstrip_by isspace (rev x) = rev x.


(** The character before the position reached after the text [u]. *)
Definition prev_after (p : option ascii) (u : str) : option ascii :=
  fold_left (fun _ a => Some a) u p.

(** The block has a line, between line feeds, that is [tag] once stripped. *)
Definition has_tag_line (tag block : str) : bool :=
  existsb (fun l => eqb (strip l) tag) (split_on nl block).

(** [tag], alone on its line, can be matched from the cursor on. *)
Definition tag_at (tag : str) (c : cursor) : Prop :=
  at_bol true c = true
  /\ exists i j,
       i <= runlen ws_class (rest c)
       /\ startswith tag (skipn i (rest c)) = true
       /\ j <= runlen ws_class (skipn (i + length tag) (rest c))
       /\ at_eol true (adv (i + length tag + j) c) = true.

(** A text that ends where a line starts, and one that starts where a line ends. *)
Definition starts_line (pre : str) : Prop := pre = [] \/ exists pre', pre = pre' ++ [nl].
Definition ends_line (post : str) : Prop := post = [] \/ exists post', post = nl :: post'.


(** *** The caps patterns, read directly *)

Definition caps_class : cclass := Set_ false [Re.upper; CChr " "].

(** Both [PATTERNS], which differ in what follows the colon. *)
Definition caps_pattern (inline : bool) : regex :=
  seqs [opt (chr nl); Grp 1 caps_label; chr ":"; if inline then opt space else chr nl;
        Grp 2 (star_lazy any_dotall); next_label].

(** The text starts with [[A-Z ]{2,}] and a colon. *)
Definition label_colon (s : str) : bool :=
  (2 <=? runlen caps_class s)%nat && startswith ":" (skipn (runlen caps_class s) s).

(** The lookahead [(?=\n[A-Z ]{2,}:|\Z)] holds before the text. *)
Definition label_ahead (s : str) : bool :=
  match s with
  | [] => true
  | a :: t => Ascii.eqb a nl && label_colon t
  end.

(** The length of the shortest prefix after which the lookahead holds. *)
Fixpoint content_len (s : str) : nat :=
  if label_ahead s then 0
  else match s with
       | [] => 0
       | _ :: t => S (content_len t)
       end.

(** What stands between the colon and the body: in the inline format one
    whitespace character if there is one, in the newline format a line feed. *)
Definition sep_len (inline : bool) (s : str) : option nat :=
  match s with
  | a :: _ =>
      if inline then Some (if isspace a then 1 else 0)
      else if Ascii.eqb a nl then Some 1 else None
  | [] => if inline then Some 0 else None
  end.

(** The first match of a caps pattern at the start of [s]: the lengths of
    the optional line feed, of the label, of the separator and of the body. *)
Definition caps_match (inline : bool) (s : str) : option (nat * nat * nat * nat) :=
  let o := match s with a :: _ => if Ascii.eqb a nl then 1 else 0 | [] => 0 end in
  if label_colon (skipn o s) then
    let n := runlen caps_class (skipn o s) in
    match sep_len inline (skipn (o + n + 1) s) with
    | Some sp => Some (o, n, sp, content_len (skipn (o + n + 1 + sp) s))
    | None => None
    end
  else None.

(** The state in which the matcher leaves such a match. *)
Definition caps_state (c : cursor) (m : nat * nat * nat * nat) : mstate :=
  let '(o, n, sp, k) := m in
  (adv (o + n + 1 + sp + k) c,
   [(2, firstn k (skipn (o + n + 1 + sp) (rest c))); (1, firstn n (skipn o (rest c)))]).

(** The length of such a match and the groups it leaves, read off the text
    [s] at which it starts. *)
Definition caps_total (m : nat * nat * nat * nat) : nat :=
  let '(o, n, sp, k) := m in o + n + 1 + sp + k.

Definition caps_groups (s : str) (m : nat * nat * nat * nat) : caps :=
  let '(o, n, sp, k) := m in
  [(2, firstn k (skipn (o + n + 1 + sp) s)); (1, firstn n (skipn o s))].

(** The first position of [s] at which a caps pattern matches. *)
Fixpoint caps_find (inline : bool) (s : str) : option (nat * (nat * nat * nat * nat)) :=
  match caps_match inline s with
  | Some m => Some (0, m)
  | None =>
      match s with
      | [] => None
      | _ :: t =>
          match caps_find inline t with
          | Some (i, m) => Some (S i, m)
          | None => None
          end
      end
  end.

(** The successive matches of a caps pattern in [s], which stands at offset
    [off] of the file text. *)
Fixpoint caps_scan (inline : bool) (fuel off : nat) (s : str) : list pymatch :=
  match fuel with
  | O => []
  | S f =>
      match caps_find inline s with
      | None => []
      | Some (i, m) =>
          {| m_start := off + i;
             m_end := off + i + caps_total m;
             m_text := firstn (caps_total m) (skipn i s);
             m_caps := caps_groups (skipn i s) m |}
            :: caps_scan inline f (off + i + caps_total m) (skipn (i + caps_total m) s)
      end
  end.

(** A transcript as a list of (label, body) entries, and its two layouts:
    [LABEL: body] on one line, or [LABEL:] on a line of its own with the body
    from the next line on. Entries are separated by a line feed. *)
Definition layout_entry (inline : bool) (e : str * str) : str :=
  fst e ++ ":"%char :: (if inline then " "%char else nl) :: snd e.

Fixpoint layout (inline : bool) (t : list (str * str)) : str :=
  match t with
  | [] => []
  | e :: t' =>
      layout_entry inline e ++ match t' with [] => [] | _ :: _ => nl :: layout inline t' end
  end.

(** No line of the body after its first starts with a label and a colon. *)
Fixpoint body_ok (x : str) : bool :=
  match x with
  | [] => true
  | a :: t => negb (Ascii.eqb a nl && label_colon t) && body_ok t
  end.

(** The label is made of at least two capitals or spaces; the body holds no
    label line. *)
Definition entry_ok (e : str * str) : Prop :=
  forallb (accepts caps_class) (fst e) = true /\ 2 <= length (fst e) /\ body_ok (snd e) = true.

(** [line] is a whole line of [text], between [pre] and [post]. *)
Definition line_in (text pre line post : str) : Prop :=
  text = pre ++ line ++ post
  /\ (pre = [] \/ exists u, pre = u ++ [nl])
  /\ ~ In nl line
  /\ (post = [] \/ exists v, post = nl :: v).

(** The (speaker, text) pair that [parse_regex_format] makes of a match. *)
Definition caps_row (m : pymatch) : str * str :=
  (strip (group_text 1 m), replace [nl] " " (strip (group_text 2 m))).

(** The pattern of a caps format. *)
Definition caps_format (inline : bool) : regex :=
  if inline then all_caps_inline else all_caps_newline.

Definition sample_entries : list (str * str) :=
  [("MODERATOR" : str, "Welcome to the debate." : str);
   ("SMITH" : str, "Thank you." ++ [nl] ++ "It is good to be here.");
   ("THE PRESIDENT" : str, "Q: who asked?" : str)].

(** An inline-caps text with the line ["Q: y"] after the first label. *)
Definition kept_line_pre : str := "AB: hello" ++ [nl].

Definition kept_line_text : str := kept_line_pre ++ "Q: y" ++ [nl] ++ "CD: z".

(** ** Notions used to state further properties *)

(** What [sanitize] makes of one character. *)
Definition sanitize_char (c : ascii) : str :=
  if Ascii.eqb c " " || Ascii.eqb c "." || Ascii.eqb c "," then []
  else if Ascii.eqb c "/" then "_" else [c].



(** The numbers of [l] increase strictly and are all above [lo]. *)
Fixpoint increasing_from (lo : nat) (l : list nat) : Prop :=
  match l with
  | [] => True
  | n :: t => lo < n /\ increasing_from n t
  end.

(** What [re.sub] makes of a text when an attempt of the pattern at a
    position depends on the text from there on only and takes [alen] of it:
    the matches, met from the left, are replaced by [repl]; [skip] counts the
    characters of the match just replaced that are still to be passed over. *)
Fixpoint replace_matches (alen : str -> option nat) (repl : str) (skip : nat) (s : str) : str :=
  match s with
  | [] => []
  | a :: t =>
      match skip with
      | S j => replace_matches alen repl j t
      | O =>
          match alen s with
          | Some n => repl ++ replace_matches alen repl (n - 1) t
          | None => a :: replace_matches alen repl 0 t
          end
      end
  end.

(** The length matched by a class, and by a greedy run of at least [lo]
    characters of a class. *)
Definition class_len (k : cclass) (s : str) : option nat :=
  match s with
  | a :: _ => if accepts k a then Some 1 else None
  | [] => None
  end.

Definition run_len (k : cclass) (lo : nat) (s : str) : option nat :=
  if (lo <=? runlen k s)%nat then Some (runlen k s) else None.

(** * Properties *)

(** ** Title-newline segmentation and empty bodies: the code at the failing inputs *)

(** C1. Text before the first speaker line is not discarded: the lines
    before ["Mr. Smith."] are kept in [current_utterance] and become the
    beginning of the body of the first utterance. *)
Theorem title_preamble_joins_first_utterance :
  parse_title_newline_format
    ("Opening remarks" ++ [nl] ++ "Mr. Smith." ++ [nl] ++ "I agree." ++ [nl]) "d"
  = [ {| utterance_id := UidInt 1; debate_id := "d"; speaker := "Mr. Smith";
         text := "Opening remarks I agree." |} ].
Proof. vm_compute. reflexivity. Qed.

(** C2. A label with an empty span is emitted with a blank body by both
    caps formats and by the title format; only the honorific segmenter
    tests the body before it appends. *)
Theorem blank_bodies_are_emitted :
  parse_regex_format ("AB: " ++ [nl] ++ "CD: x") all_caps_inline "d"
  = [ {| utterance_id := UidStr "d_1"; debate_id := "d"; speaker := "AB"; text := "" |};
      {| utterance_id := UidStr "d_2"; debate_id := "d"; speaker := "CD"; text := "x" |} ]
  /\ parse_regex_format ("AB:" ++ [nl; nl] ++ "CD:" ++ [nl] ++ "x") all_caps_newline "d"
  = [ {| utterance_id := UidStr "d_1"; debate_id := "d"; speaker := "AB"; text := "" |};
      {| utterance_id := UidStr "d_2"; debate_id := "d"; speaker := "CD"; text := "x" |} ]
  /\ parse_title_newline_format
       ("Mr. Smith." ++ [nl; nl] ++ "Mr. Jones." ++ [nl] ++ "Hi there." ++ [nl]) "d"
  = [ {| utterance_id := UidInt 1; debate_id := "d"; speaker := "Mr. Smith"; text := "" |};
      {| utterance_id := UidInt 2; debate_id := "d"; speaker := "Mr. Jones"; text := "Hi there." |} ]
  /\ parse_honorific_format "d"
       ("Mr. Smith." ++ [nl; nl] ++ "Mr. Jones." ++ [nl] ++ "Hi there." ++ [nl])
  = [ {| utterance_id := UidStr "d_2"; debate_id := "d"; speaker := "Mr. Jones"; text := "Hi there." |} ].
Proof. vm_compute. repeat split; reflexivity. Qed.

(** ** Role resolution *)

Lemma overlap_shares (a b : str) :
  overlap (tokens a) (tokens b) = true <->
  exists t, In t (Py.split a) /\ In t (Py.split b).
Proof.
  unfold overlap, tokens. rewrite bool_decide_eq_true. split.
  - intros H. apply set_choose_L in H as [x Hx].
    apply elem_of_intersection in Hx as [H1 H2].
    rewrite elem_of_list_to_set in H1. rewrite elem_of_list_to_set in H2.
    exists x. split; apply list_elem_of_In; assumption.
  - intros (t & H1 & H2) Hempty.
    assert (Hin : t ∈ (list_to_set (Py.split a) : gset str) ∩ list_to_set (Py.split b)).
    { apply elem_of_intersection. split; apply elem_of_list_to_set, list_elem_of_In; assumption. }
    rewrite Hempty in Hin. set_solver.
Qed.

Lemma clean_for_matching_empty : clean_for_matching [] = [].
Proof. vm_compute. reflexivity. Qed.

Lemma shares_token_empty (name : str) : ~ shares_token name [].
Proof. intros (t & _ & H). rewrite clean_for_matching_empty in H. exact H. Qed.

Lemma roster_entry_hit (name full : str) (r : role) (t : list (str * role)) :
  shares_token name full ->
  roster_match (tokens (clean_for_matching name)) ((full, r) :: t) = Some r.
Proof.
  intros H. destruct full as [|c full']; cbn [roster_match].
  - exfalso. exact (shares_token_empty name H).
  - apply overlap_shares in H. rewrite H. reflexivity.
Qed.

Lemma roster_entry_miss (name full : str) (r : role) (t : list (str * role)) :
  ~ shares_token name full ->
  roster_match (tokens (clean_for_matching name)) ((full, r) :: t)
  = roster_match (tokens (clean_for_matching name)) t.
Proof.
  intros H. destruct full as [|c full']; cbn [roster_match]; [reflexivity|].
  destruct (overlap _ _) eqn:E; [|reflexivity].
  exfalso. apply H. apply overlap_shares. exact E.
Qed.

Lemma roster_match_first (name : str) (cmap : list (str * role)) :
  forall i full r,
    cmap !! i = Some (full, r) ->
    shares_token name full ->
    (forall j e, j < i -> cmap !! j = Some e -> ~ shares_token name (fst e)) ->
    roster_match (tokens (clean_for_matching name)) cmap = Some r.
Proof.
  induction cmap as [|[f0 r0] t IH]; intros i full r Hi Hhit Hbefore.
  - discriminate.
  - destruct i as [|i].
    + cbn in Hi. injection Hi as -> ->. apply roster_entry_hit. exact Hhit.
    + rewrite roster_entry_miss.
      * apply (IH i full r); [exact Hi | exact Hhit |].
        intros j e Hj He. apply (Hbefore (S j) e); [lia | exact He].
      * apply (Hbefore 0 (f0, r0)); [lia | reflexivity].
Qed.

Lemma roster_match_none (name : str) (cmap : list (str * role)) :
  (forall e, In e cmap -> ~ shares_token name (fst e)) ->
  roster_match (tokens (clean_for_matching name)) cmap = None.
Proof.
  induction cmap as [|[f0 r0] t IH]; intros H; [reflexivity|].
  rewrite roster_entry_miss.
  - apply IH. intros e He. apply H. right. exact He.
  - apply (H (f0, r0)). left. reflexivity.
Qed.

(** C4. The first roster entry, in the order of the roster, that shares a
    token with the label gives the role, whatever comes later in the
    roster; when no entry shares a token the generic labels, then the
    "president" rule with its cache, then Moderator apply in that order. *)
Theorem role_resolution_order (debate : str) (w : world) :
  (forall (name : str) (cmap : list (str * role)) i full r,
      cmap !! i = Some (full, r) ->
      shares_token name full ->
      (forall j e, j < i -> cmap !! j = Some e -> ~ shares_token name (fst e)) ->
      match_role name cmap debate w = (Some r, w))
  /\ (forall (name : str) (cmap : list (str * role)),
        (forall e, In e cmap -> ~ shares_token name (fst e)) ->
        match_role name cmap debate w =
          if is_generic (clean_for_matching name) then (Some Moderator, w)
          else if contains "president" (clean_for_matching name) then
            match cache w !! debate with
            | Some r => (Some r, w)
            | None => ask debate (cache w) (stdin w) (trace w ++ [Announce debate name])
            end
          else (Some Moderator, w))
  /\ match_role "SMITH" [("John Smith" : str, Candidate_R); ("Jane Doe" : str, Candidate_D)]
       debate w = (Some Candidate_R, w)
  /\ match_role "Jane Doe Smith"
       [("John Smith" : str, Candidate_R); ("Jane Doe" : str, Candidate_D)]
       debate w = (Some Candidate_R, w).
Proof.
  split; [|split; [|split]].
  - intros name cmap i full r Hi Hhit Hbefore. unfold match_role.
    rewrite (roster_match_first name cmap i full r Hi Hhit Hbefore). reflexivity.
  - intros name cmap Hnone. unfold match_role.
    rewrite (roster_match_none name cmap Hnone). reflexivity.
  - unfold match_role.
    replace (roster_match _ _) with (Some Candidate_R) by (vm_compute; reflexivity).
    reflexivity.
  - unfold match_role.
    replace (roster_match _ _) with (Some Candidate_R) by (vm_compute; reflexivity).
    reflexivity.
Qed.

Lemma role_resolution_order_witness :
  match_role "SMITH" [("Jane Doe" : str, Candidate_D); ("John Smith" : str, Candidate_R)]
    "d" {| cache := ∅; stdin := []; trace := [] |}
  = (Some Candidate_R, {| cache := ∅; stdin := []; trace := [] |}).
Proof.
  apply (proj1 (role_resolution_order "d" {| cache := ∅; stdin := []; trace := [] |})
           "SMITH" [("Jane Doe" : str, Candidate_D); ("John Smith" : str, Candidate_R)]
           1 "John Smith" Candidate_R).
  - reflexivity.
  - exists ("smith" : str). split; vm_compute; auto.
  - intros j e Hj He. destruct j as [|j]; [|lia].
    injection He as <-. intros (t & H1 & H2). vm_compute in H1, H2.
    destruct H1 as [<-|[]]. destruct H2 as [H2|[H2|[]]]; discriminate H2.
Defined.

(** ** The per-debate cache of ambiguous labels *)

Lemma count_app {A} (p : A -> bool) (a b : list A) :
  count p (a ++ b) = count p a + count p b.
Proof. unfold count. rewrite List.filter_app, length_app. reflexivity. Qed.

Lemma count_reads (p : event -> bool) (reads : list str) :
  (forall l, p (ReadLine l) = false) ->
  count p (List.map ReadLine reads) = 0.
Proof.
  intros H. induction reads as [|l t IH]; [reflexivity|].
  unfold count in *. cbn [List.map List.filter]. rewrite H. exact IH.
Qed.

Lemma eqb_refl (a : str) : eqb a a = true.
Proof. unfold eqb. apply bool_decide_eq_true. reflexivity. Qed.

Lemma eqb_neq (a b : str) : a <> b -> eqb a b = false.
Proof. intros H. unfold eqb. apply bool_decide_eq_false. exact H. Qed.

(** What the prompt loop does: it reads lines until one is an answer, and
    writes the cache exactly when it returns. *)
Lemma ask_effect (d : str) (c : gmap str role) (lines : list str) (tr : list event) :
  exists reads,
    trace (snd (ask d c lines tr))
    = tr ++ List.map ReadLine reads
         ++ match fst (ask d c lines tr) with Some r => [CacheWrite d r] | None => [] end
    /\ cache (snd (ask d c lines tr))
       = match fst (ask d c lines tr) with Some r => <[d := r]> c | None => c end.
Proof.
  revert tr. induction lines as [|line more IH]; intros tr.
  - exists []. cbn. rewrite app_nil_r. split; reflexivity.
  - cbn [ask]. destruct (choice_role (upper (strip line))) as [r|].
    + exists [line]. cbn. split; reflexivity.
    + destruct (IH (tr ++ [ReadLine line])) as (reads & Ht & Hc).
      exists (line :: reads). rewrite Ht, Hc. split; [|reflexivity].
      rewrite <- app_assoc. reflexivity.
Qed.

(** One call either leaves the world as it is, or, when the cache has no
    entry for its debate, announces the label, reads, and writes the cache
    if it returns. *)
Lemma match_role_effect (name : str) (cmap : list (str * role)) (d : str) (w : world) :
  snd (match_role name cmap d w) = w
  \/ (cache w !! d = None
      /\ exists reads,
           trace (snd (match_role name cmap d w))
           = trace w ++ Announce d name :: List.map ReadLine reads
               ++ match fst (match_role name cmap d w) with
                  | Some r => [CacheWrite d r]
                  | None => []
                  end
           /\ cache (snd (match_role name cmap d w))
              = match fst (match_role name cmap d w) with
                | Some r => <[d := r]> (cache w)
                | None => cache w
                end).
Proof.
  unfold match_role.
  destruct (roster_match _ cmap); [left; reflexivity|].
  destruct (is_generic _); [left; reflexivity|].
  destruct (contains _ _); [|left; reflexivity].
  destruct (cache w !! d) eqn:E; [left; reflexivity|].
  right. split; [reflexivity|].
  destruct (ask_effect d (cache w) (stdin w) (trace w ++ [Announce d name]))
    as (reads & Ht & Hc).
  exists reads. rewrite Ht, Hc. split; [|reflexivity].
  rewrite <- app_assoc. reflexivity.
Qed.

(** The effect of one call on the events and the cache entry of a debate [d]. *)
Lemma match_role_counts (name : str) (cmap : list (str * role)) (d0 : str) (w : world)
    (d : str) :
  exists new,
    trace (snd (match_role name cmap d0 w)) = trace w ++ new
    /\ (cache w !! d <> None ->
        count (writes d) new = 0 /\ count (announces d) new = 0
        /\ cache (snd (match_role name cmap d0 w)) !! d = cache w !! d)
    /\ (cache w !! d = None ->
        (count (writes d) new = 0 /\ count (announces d) new = 0
         /\ cache (snd (match_role name cmap d0 w)) !! d = None)
        \/ (count (writes d) new = 1 /\ count (announces d) new = 1
            /\ cache (snd (match_role name cmap d0 w)) !! d <> None)
        \/ (count (writes d) new = 0 /\ fst (match_role name cmap d0 w) = None
            /\ cache (snd (match_role name cmap d0 w)) !! d = None)).
Proof.
  destruct (match_role_effect name cmap d0 w) as [Hsame | (Hnone & reads & Ht & Hc)].
  - exists []. rewrite Hsame, app_nil_r. split; [reflexivity|]. split.
    + intros _. split; [reflexivity|]. split; reflexivity.
    + intros Hn. left. split; [reflexivity|]. split; [reflexivity|exact Hn].
  - eexists. split; [exact Ht|].
    assert (Hr : forall p, (forall l, p (ReadLine l) = false) ->
                 count p (List.map ReadLine reads) = 0) by (intros p Hp; apply count_reads; exact Hp).
    destruct (decide (d0 = d)) as [->|Hne].
    + split; [intros Hsome; contradiction|]. intros _.
      change (Announce d name :: ?l) with ([Announce d name] ++ l).
      rewrite !count_app, !Hr by reflexivity.
      destruct (fst (match_role name cmap d w)) as [r|] eqn:Er.
      * right; left. rewrite Hc, lookup_insert_eq. unfold count.
        cbn [List.filter writes announces]. rewrite !eqb_refl.
        split; [reflexivity|]. split; [reflexivity|discriminate].
      * right; right. rewrite Hc. unfold count. cbn [List.filter writes announces].
        split; [reflexivity|]. split; [reflexivity|exact Hnone].
    + assert (Hlk : cache (snd (match_role name cmap d0 w)) !! d = cache w !! d).
      { rewrite Hc. destruct (fst (match_role name cmap d0 w)); [|reflexivity].
        apply lookup_insert_ne. exact Hne. }
      assert (Hw : count (writes d)
                     (Announce d0 name :: List.map ReadLine reads
                        ++ match fst (match_role name cmap d0 w) with
                           | Some r => [CacheWrite d0 r] | None => [] end) = 0).
      { change (Announce d0 name :: ?l) with ([Announce d0 name] ++ l).
        rewrite !count_app, Hr by reflexivity.
        destruct (fst (match_role name cmap d0 w)); unfold count;
          cbn [List.filter writes]; rewrite ?(eqb_neq d0 d Hne); reflexivity. }
      assert (Ha : count (announces d)
                     (Announce d0 name :: List.map ReadLine reads
                        ++ match fst (match_role name cmap d0 w) with
                           | Some r => [CacheWrite d0 r] | None => [] end) = 0).
      { change (Announce d0 name :: ?l) with ([Announce d0 name] ++ l).
        rewrite !count_app, Hr by reflexivity.
        destruct (fst (match_role name cmap d0 w)); unfold count;
          cbn [List.filter announces]; rewrite ?(eqb_neq d0 d Hne); reflexivity. }
      split.
      * intros _. split; [exact Hw|]. split; [exact Ha|exact Hlk].
      * intros Hn. left. rewrite Hlk. split; [exact Hw|]. split; [exact Ha|exact Hn].
Qed.

Lemma run_calls_counts (d : str) (calls : list call) :
  forall w, exists new,
    trace (snd (run_calls calls w)) = trace w ++ new
    /\ (cache w !! d <> None ->
        count (writes d) new = 0 /\ count (announces d) new = 0
        /\ cache (snd (run_calls calls w)) !! d = cache w !! d)
    /\ count (writes d) new <= 1
    /\ (Forall returned (fst (run_calls calls w)) -> count (announces d) new <= 1).
Proof.
  induction calls as [|[[name cmap] d0] more IH]; intros w.
  - exists []. cbn. rewrite app_nil_r. repeat split; try reflexivity; lia.
  - cbn [run_calls fst snd].
    destruct (match_role_counts name cmap d0 w d) as (n1 & Ht1 & Hsome1 & Hnone1).
    destruct (IH (snd (match_role name cmap d0 w))) as (n2 & Ht2 & Hsome2 & Hw2 & Ha2).
    exists (n1 ++ n2). rewrite Ht2, Ht1, <- app_assoc. split; [reflexivity|].
    rewrite !count_app.
    destruct (cache w !! d) as [r|] eqn:E.
    + destruct Hsome1 as (W1 & A1 & C1); [discriminate|].
      destruct Hsome2 as (W2 & A2 & C2); [rewrite C1; discriminate|].
      rewrite W1, A1, W2, A2, C2, C1. repeat split; try reflexivity; lia.
    + split; [intros H; contradiction|].
      destruct Hnone1 as [(W1 & A1 & C1) | [(W1 & A1 & C1) | (W1 & R1 & C1)]]; [reflexivity| | |].
      * rewrite W1, A1. split; [lia|]. intros HF. apply Forall_inv_tail in HF.
        specialize (Ha2 HF). lia.
      * destruct Hsome2 as (W2 & A2 & C2); [exact C1|].
        rewrite W1, A1, W2, A2. split; [lia|]. intros _. lia.
      * rewrite W1. split; [lia|]. intros HF. apply Forall_inv in HF.
        exfalso. apply HF. exact R1.
Qed.

(** C5. In any sequence of calls the cache entry of a debate is written at
    most once; if no call fails for want of input the label is announced
    (the decision is asked for) at most once; and once the cache holds the
    debate an ambiguous label returns the cached role and touches nothing,
    and no later call asks or writes for that debate again. *)
Theorem ambiguity_decided_once (calls : list call) (w : world) (d : str) :
  (exists new,
      trace (snd (run_calls calls w)) = trace w ++ new
      /\ count (writes d) new <= 1
      /\ (Forall returned (fst (run_calls calls w)) -> count (announces d) new <= 1)
      /\ (forall r, cache w !! d = Some r ->
            count (writes d) new = 0 /\ count (announces d) new = 0
            /\ cache (snd (run_calls calls w)) !! d = Some r))
  /\ (forall (name : str) (cmap : list (str * role)) r,
        cache w !! d = Some r ->
        roster_match (tokens (clean_for_matching name)) cmap = None ->
        is_generic (clean_for_matching name) = false ->
        contains "president" (clean_for_matching name) = true ->
        match_role name cmap d w = (Some r, w)).
Proof.
  split.
  - destruct (run_calls_counts d calls w) as (new & Ht & Hsome & Hw & Ha).
    exists new. repeat split; try assumption.
    + apply Hsome. rewrite H. discriminate.
    + apply Hsome. rewrite H. discriminate.
    + rewrite <- H. apply Hsome. rewrite H. discriminate.
  - intros name cmap r Hc Hr Hg Hp. unfold match_role.
    rewrite Hr, Hg, Hp, Hc. reflexivity.
Qed.



Lemma ambiguity_decided_once_witness :
  Forall returned (fst (run_calls two_presidents fresh_world))
  /\ count (announces "d1") (trace (snd (run_calls two_presidents fresh_world))) <= 1
  /\ fst (run_calls two_presidents fresh_world) = [Some Candidate_R; Some Candidate_R].
Proof.
  assert (HF : Forall returned (fst (run_calls two_presidents fresh_world))).
  { vm_compute. repeat constructor; discriminate. }
  split; [exact HF|]. split; [|vm_compute; reflexivity].
  destruct (proj1 (ambiguity_decided_once two_presidents fresh_world "d1"))
    as (new & Ht & _ & Ha & _).
  rewrite Ht. exact (Ha HF).
Defined.

(** ** Sequence identifiers *)

Lemma enumerate_ids {A B} (f : nat -> B) (xs : list A) :
  forall i,
    List.map (fun im : nat * A => f (fst im + 1)) (enumerate_from i xs)
    = List.map f (seq (i + 1) (length xs)).
Proof.
  induction xs as [|x t IH]; intros i; [reflexivity|].
  cbn [enumerate_from List.map length seq fst]. f_equal.
  rewrite IH. replace (S i + 1) with (S (i + 1)) by lia. reflexivity.
Qed.

Lemma enumerate_snd {A} (xs : list A) :
  forall i, List.map snd (enumerate_from i xs) = xs.
Proof.
  induction xs as [|x t IH]; intros i; [reflexivity|].
  cbn [enumerate_from List.map snd]. f_equal. apply IH.
Qed.

Lemma is_speaker_line_nonempty (l : str) :
  is_speaker_line l = true -> strip l <> [].
Proof.
  unfold is_speaker_line, is_speaker_line_len. intros H E.
  apply andb_prop in H as [H _]. apply andb_prop in H as [_ H].
  rewrite E in H. vm_compute in H. discriminate.
Qed.




Lemma title_speakers_from (debate : str) (lines : list str) :
  forall st,
    title_well_formed lines = true ->
    title_state_ok st lines ->
    List.map row_speaker (title_finish debate (fold_left (title_step debate) lines st))
    = List.map row_speaker (utterances st)
      ++ match current_speaker st with Some s => [rstrip_chars "." s] | None => [] end
      ++ List.map title_speaker (List.filter is_speaker_line lines).
Proof.
  induction lines as [|l rest IH]; intros st Hwf Hok.
  - cbn [fold_left List.filter List.map]. rewrite app_nil_r.
    unfold title_finish, has_pending, title_state_ok in *.
    destruct (current_speaker st) as [s|] eqn:Es.
    + destruct Hok as [Hs [Hu | (l & r & Hl & _)]]; [|discriminate].
      destruct s as [|c s']; [contradiction|].
      destruct (current_utterance st) as [|u us] eqn:Eu; [contradiction|].
      rewrite List.map_app. unfold pending_row. rewrite Es. reflexivity.
    + rewrite app_nil_r. reflexivity.
  - cbn [title_well_formed] in Hwf. apply andb_prop in Hwf as [Hl Hwf].
    cbn [fold_left List.filter]. unfold title_step at 2.
    destruct (is_speaker_line l) eqn:El.
    + assert (Hrest : exists l' rest', rest = l' :: rest' /\ is_speaker_line l' = false).
      { destruct rest as [|l' rest']; [discriminate|].
        exists l', rest'. split; [reflexivity|]. apply negb_true_iff. exact Hl. }
      pose proof (is_speaker_line_nonempty l El) as Hne.
      unfold title_state_ok in Hok. unfold has_pending.
      destruct (current_speaker st) as [s|] eqn:Es.
      * destruct Hok as [Hs [Hu | (l0 & r0 & Hl0 & Hn0)]];
          [|injection Hl0 as <- <-; rewrite El in Hn0; discriminate].
        destruct s as [|c s']; [contradiction|].
        destruct (current_utterance st) as [|u us] eqn:Eu; [contradiction|].
        rewrite IH; [| exact Hwf |].
        -- cbn [utterances current_speaker List.map]. rewrite List.map_app.
           unfold pending_row at 1. rewrite Es. cbn [List.map row_speaker fst snd].
           unfold title_speaker. rewrite <- !app_assoc. reflexivity.
        -- unfold title_state_ok. cbn [current_speaker current_utterance].
           split; [exact Hne|]. right. exact Hrest.
      * rewrite IH; [| exact Hwf |].
        -- cbn [utterances current_speaker List.map]. unfold title_speaker. reflexivity.
        -- unfold title_state_ok. cbn [current_speaker current_utterance].
           split; [exact Hne|]. right. exact Hrest.
    + rewrite IH; [| exact Hwf |].
      * cbn [utterances current_speaker]. reflexivity.
      * unfold title_state_ok in *. cbn [current_speaker current_utterance].
        destruct (current_speaker st) as [s|]; [|exact I].
        destruct Hok as [Hs _]. split; [exact Hs|]. left.
        destruct (current_utterance st); discriminate.
Qed.

Lemma title_rows_speakers (debate : str) (lines : list str) :
  title_well_formed lines = true ->
  List.map row_speaker (title_rows debate lines)
  = List.map title_speaker (List.filter is_speaker_line lines).
Proof.
  intros Hwf.
  pose proof (title_speakers_from debate lines
                {| utterances := []; current_speaker := None; current_utterance := [] |}
                Hwf I) as H.
  exact H.
Qed.

Lemma combine_seq_ids {A B} (f : nat -> B) (rows : list A) :
  forall i,
    List.map (fun ir : nat * A => f (fst ir)) (combine (seq i (length rows)) rows)
    = List.map f (seq i (length rows)).
Proof.
  induction rows as [|r t IH]; intros i; [reflexivity|].
  cbn [length seq combine List.map fst]. f_equal. apply IH.
Qed.

Lemma combine_seq_snd {A} (rows : list A) :
  forall i, List.map snd (combine (seq i (length rows)) rows) = rows.
Proof.
  induction rows as [|r t IH]; intros i; [reflexivity|].
  cbn [length seq combine List.map snd]. f_equal. apply IH.
Qed.

Lemma span_ends_length (len : nat) (ms : list pymatch) :
  length (span_ends len ms) = length ms.
Proof.
  induction ms as [|m t IH]; [reflexivity|].
  cbn [span_ends length]. f_equal. exact IH.
Qed.


(** C3. The honorific segmenter numbers an utterance by the index of its
    match, and leaves out the matches whose span is blank: its ids have
    gaps. In the transcript below, with two speaker lines each followed by
    text, the line ["Yes."] is matched as a speaker with an empty span; the
    title segmenter gives the ids 1 and 2, the honorific segmenter the ids
    [d_1] and [d_3]. *)
Theorem honorific_ids_have_gaps :
  title_well_formed
    (splitlines ("Mr. Smith." ++ [nl] ++ "Is that so?" ++ [nl] ++ "Yes." ++ [nl]
                 ++ "Mr. Jones." ++ [nl] ++ "I disagree." ++ [nl])) = true
  /\ List.filter is_speaker_line
       (splitlines ("Mr. Smith." ++ [nl] ++ "Is that so?" ++ [nl] ++ "Yes." ++ [nl]
                    ++ "Mr. Jones." ++ [nl] ++ "I disagree." ++ [nl]))
     = ["Mr. Smith." : str; "Mr. Jones." : str]
  /\ parse_title_newline_format
       ("Mr. Smith." ++ [nl] ++ "Is that so?" ++ [nl] ++ "Yes." ++ [nl]
        ++ "Mr. Jones." ++ [nl] ++ "I disagree." ++ [nl]) "d"
     = [ {| utterance_id := UidInt 1; debate_id := "d"; speaker := "Mr. Smith";
            text := "Is that so? Yes." |};
         {| utterance_id := UidInt 2; debate_id := "d"; speaker := "Mr. Jones";
            text := "I disagree." |} ]
  /\ parse_honorific_format "d"
       ("Mr. Smith." ++ [nl] ++ "Is that so?" ++ [nl] ++ "Yes." ++ [nl]
        ++ "Mr. Jones." ++ [nl] ++ "I disagree." ++ [nl])
     = [ {| utterance_id := UidStr "d_1"; debate_id := "d"; speaker := "Mr. Smith";
            text := "Is that so?" |};
         {| utterance_id := UidStr "d_3"; debate_id := "d"; speaker := "Mr. Jones";
            text := "I disagree." |} ].
Proof. vm_compute. repeat split; reflexivity. Qed.

(** X5. The caps and the title segmenters number without gaps: with any
    pattern [parse_regex_format] gives one utterance for each match, numbered
    1..N in the order of the matches, because it appends every match; and
    [parse_title_newline_format] gives one utterance for each speaker line,
    numbered 1..N, when each speaker line is followed by a line that is not
    a speaker line. *)
Theorem caps_and_title_ids_contiguous (file_text debate : str) :
  (forall pattern : regex,
      List.map utterance_id (parse_regex_format file_text pattern debate)
      = List.map (caps_id debate) (seq 1 (length (finditer pattern file_text)))
      /\ List.map speaker (parse_regex_format file_text pattern debate)
         = List.map (fun m => strip (group_text 1 m)) (finditer pattern file_text))
  /\ (title_well_formed (splitlines file_text) = true ->
      List.map utterance_id (parse_title_newline_format file_text debate)
      = List.map UidInt
          (seq 1 (length (List.filter is_speaker_line (splitlines file_text))))
      /\ List.map speaker (parse_title_newline_format file_text debate)
         = List.map title_speaker (List.filter is_speaker_line (splitlines file_text))).
Proof.
  split.
  - intros pattern. unfold parse_regex_format. rewrite !List.map_map.
    cbn [utterance_id speaker]. split.
    + apply (enumerate_ids (caps_id debate)).
    + transitivity (List.map (fun m => strip (group_text 1 m))
                      (List.map snd (enumerate_from 0 (finditer pattern file_text))));
        [rewrite List.map_map; reflexivity|].
      rewrite enumerate_snd. reflexivity.
  - intros Hwf. unfold parse_title_newline_format.
    pose proof (title_rows_speakers debate (splitlines file_text) Hwf) as Hs.
    set (rows := title_rows debate (splitlines file_text)) in *.
    rewrite !List.map_map. cbn [utterance_id speaker].
    assert (Hlen : length rows
                   = length (List.filter is_speaker_line (splitlines file_text))).
    { rewrite <- (length_map row_speaker rows), Hs, length_map. reflexivity. }
    split.
    + rewrite <- Hlen. apply (combine_seq_ids UidInt).
    + rewrite <- Hs.
      transitivity (List.map row_speaker (List.map snd (combine (seq 1 (length rows)) rows)));
        [rewrite List.map_map; reflexivity|].
      rewrite combine_seq_snd. reflexivity.
Qed.

Lemma caps_and_title_ids_contiguous_witness :
  List.map utterance_id (parse_title_newline_format sample_title_text "d")
  = [UidInt 1; UidInt 2].
Proof.
  refine (eq_trans
            (proj1 (proj2 (caps_and_title_ids_contiguous sample_title_text "d") _)) _).
  - vm_compute. reflexivity.
  - vm_compute. reflexivity.
Defined.

(** ** The article normaliser: duplicates and repeated passes *)

Section Normaliser.

Variable md5_hexdigest : str -> str.

Lemma seen_spec (x : str) (seen : list str) :
  existsb (eqb x) seen = true <-> In x seen.
Proof.
  rewrite existsb_exists. split.
  - intros (y & Hy & E). unfold eqb in E. apply bool_decide_eq_true in E. subst. exact Hy.
  - intros H. exists x. split; [exact H|apply eqb_refl].
Qed.

Lemma drop_duplicates_sub (rows : list article) :
  forall seen r, In r (drop_duplicates md5_hexdigest seen rows) ->
                 In r rows /\ ~ In (body_fp md5_hexdigest r) seen.
Proof.
  induction rows as [|x t IH]; intros seen r H; [contradiction|].
  cbn [drop_duplicates] in H.
  destruct (existsb (eqb (hash_body md5_hexdigest (body x))) seen) eqn:E.
  - destruct (IH _ _ H) as [H1 H2]. split; [right; exact H1|exact H2].
  - destruct H as [<-|H].
    + split; [left; reflexivity|]. intros Hin. apply seen_spec in Hin. unfold body_fp in Hin. congruence.
    + destruct (IH _ _ H) as [H1 H2]. split; [right; exact H1|].
      intros Hin. apply H2. right. exact Hin.
Qed.

Lemma drop_duplicates_nodup (rows : list article) :
  forall seen, List.NoDup (List.map (body_fp md5_hexdigest) (drop_duplicates md5_hexdigest seen rows)).
Proof.
  induction rows as [|x t IH]; intros seen; [apply List.NoDup_nil|].
  cbn [drop_duplicates].
  destruct (existsb (eqb (hash_body md5_hexdigest (body x))) seen); [apply IH|].
  cbn [List.map]. apply List.NoDup_cons; [|apply IH].
  intros Hin. apply in_map_iff in Hin as (y & Ey & Hy).
  apply drop_duplicates_sub in Hy as [_ Hy]. apply Hy. left. symmetry. exact Ey.
Qed.

Lemma drop_duplicates_id (rows : list article) :
  forall seen,
    List.NoDup (List.map (body_fp md5_hexdigest) rows) ->
    (forall r, In r rows -> ~ In (body_fp md5_hexdigest r) seen) ->
    drop_duplicates md5_hexdigest seen rows = rows.
Proof.
  induction rows as [|x t IH]; intros seen Hnd Hfresh; [reflexivity|].
  cbn [drop_duplicates].
  destruct (existsb (eqb (hash_body md5_hexdigest (body x))) seen) eqn:E.
  - apply seen_spec in E. exfalso. apply (Hfresh x); [left; reflexivity|exact E].
  - f_equal. cbn [List.map] in Hnd. apply List.NoDup_cons_iff in Hnd as [Hx Hnd].
    apply IH; [exact Hnd|].
    intros r Hr [Hin|Hin].
    + apply Hx. apply in_map_iff. exists r. split; [symmetry; exact Hin|exact Hr].
    + apply (Hfresh r); [right; exact Hr|exact Hin].
Qed.

Lemma nodup_map_filter {A B} (f : A -> B) (p : A -> bool) (l : list A) :
  List.NoDup (List.map f l) -> List.NoDup (List.map f (List.filter p l)).
Proof.
  induction l as [|x t IH]; intros H; [apply List.NoDup_nil|].
  cbn [List.map] in H. apply List.NoDup_cons_iff in H as [Hx Hnd].
  cbn [List.filter]. destruct (p x); [|apply IH; exact Hnd].
  cbn [List.map]. apply List.NoDup_cons; [|apply IH; exact Hnd].
  intros Hin. apply Hx. apply in_map_iff in Hin as (y & Ey & Hy).
  apply in_map_iff. exists y. split; [exact Ey|].
  apply List.filter_In in Hy as [Hy _]. exact Hy.
Qed.

Lemma filter_all {A} (p : A -> bool) (l : list A) :
  (forall x, In x l -> p x = true) -> List.filter p l = l.
Proof.
  induction l as [|x t IH]; intros H; [reflexivity|].
  cbn [List.filter]. rewrite (H x) by (left; reflexivity).
  f_equal. apply IH. intros y Hy. apply H. right. exact Hy.
Qed.

Lemma map_fixed {A} (f : A -> A) (l : list A) :
  (forall x, In x l -> f x = x) -> List.map f l = l.
Proof.
  induction l as [|x t IH]; intros H; [reflexivity|].
  cbn [List.map]. rewrite (H x) by (left; reflexivity).
  f_equal. apply IH. intros y Hy. apply H. right. exact Hy.
Qed.

(** A row that [main] wrote carries the counts of its own body. *)
Lemma main_row_counts (rows : list article) (r : article) :
  In r (main md5_hexdigest rows) ->
  body_words r = word_count (body r) /\ body_len r = length (body r)
  /\ (MIN_WORDS <= body_words r).
Proof.
  unfold main. intros H. apply List.filter_In in H as [H Hlong].
  apply drop_duplicates_sub in H as [H _].
  apply in_map_iff in H as (r0 & <- & _).
  split; [reflexivity|]. split; [reflexivity|].
  apply Nat.leb_le. exact Hlong.
Qed.

(** C9, as the code has it. A second pass changes nothing when every body
    written by the first pass is left as it is by the cleaning step; the
    counts, the fingerprints, the removal of duplicates and of short rows
    then all repeat themselves. *)
Theorem second_pass_on_clean_rows (rows : list article) :
  Forall (fun r => clean_body r = body r) (main md5_hexdigest rows) ->
  main md5_hexdigest (main md5_hexdigest rows) = main md5_hexdigest rows.
Proof.
  intros Hclean. rewrite List.Forall_forall in Hclean.
  set (out := main md5_hexdigest rows) in *.
  assert (Hrec : List.map recompute out = out).
  { apply map_fixed. intros r Hr.
    destruct (main_row_counts rows r Hr) as (Hw & Hl & _).
    unfold recompute. rewrite (Hclean r Hr), <- Hw, <- Hl. destruct r. reflexivity. }
  assert (Hnd : List.NoDup (List.map (body_fp md5_hexdigest) out)).
  { unfold out, main. apply nodup_map_filter. apply drop_duplicates_nodup. }
  unfold main at 1. rewrite Hrec.
  rewrite drop_duplicates_id; [|exact Hnd|intros r _ []].
  apply filter_all. intros r Hr.
  destruct (main_row_counts rows r Hr) as (_ & _ & Hlong).
  apply Nat.leb_le. exact Hlong.
Qed.

End Normaliser.


Ltac compute_list :=
  match goal with
  | |- Forall _ ?l =>
      let v := eval vm_compute in l in
      replace l with v by (vm_compute; reflexivity)
  end.

Lemma second_pass_on_clean_rows_witness :
  main (fun s => s) (main (fun s => s) [row_with "wsj" plain_body])
  = main (fun s => s) [row_with "wsj" plain_body].
Proof.
  apply (second_pass_on_clean_rows (fun s => s) [row_with "wsj" plain_body]).
  compute_list. constructor; [vm_compute; reflexivity | constructor].
Defined.

(** C9, as stated, fails: the first pass trims the contact tail of
    [two_tails] and leaves a copyright tail, which the second pass trims. *)
Lemma second_pass_trims_again :
  ~ (forall (md5_hexdigest : str -> str) (rows : list article),
        main md5_hexdigest (main md5_hexdigest rows) = main md5_hexdigest rows).
Proof.
  intros H. specialize (H (fun s => s) [row_with "wsj" two_tails]).
  assert (E : List.map body_len (main (fun s => s) (main (fun s => s) [row_with "wsj" two_tails]))
              <> List.map body_len (main (fun s => s) [row_with "wsj" two_tails])).
  { vm_compute. discriminate. }
  apply E. rewrite H. reflexivity.
Qed.

(** ** The matcher: what repetitions and sequences produce *)

Lemma flat_map_singleton {A} (l : list A) : flat_map (fun x => [x]) l = l.
Proof. induction l as [|x t IH]; [reflexivity|]. cbn [flat_map]. rewrite IH. reflexivity. Qed.

Lemma hd_error_app {A} (a b : list A) :
  hd_error (a ++ b) = match hd_error a with Some x => Some x | None => hd_error b end.
Proof. destruct a; reflexivity. Qed.

Lemma hd_error_none {A} (l : list A) : hd_error l = None -> l = [].
Proof. destruct l; [reflexivity|discriminate]. Qed.

Lemma adv_zero (c : cursor) : adv 0 c = c.
Proof. destruct c as [p s]. destruct s; reflexivity. Qed.

Lemma adv_succ (n : nat) (p : option ascii) (a : ascii) (t : str) :
  adv (S n) {| prev := p; rest := a :: t |} = adv n {| prev := Some a; rest := t |}.
Proof. reflexivity. Qed.

Lemma adv_rest (n : nat) :
  forall c, rest (adv n c) = skipn n (rest c).
Proof.
  induction n as [|n IH]; intros [p s].
  - rewrite adv_zero. reflexivity.
  - destruct s as [|a t]; [reflexivity|]. rewrite adv_succ, IH. reflexivity.
Qed.

Lemma rep_zero_some_zero (body : mstate -> list mstate) (g : bool) (fuel lo : nat)
    (st : mstate) :
  rep_loop body g fuel lo (Some 0) st = match lo with O => [st] | S _ => [] end.
Proof.
  destruct fuel; cbn [rep_loop]; [reflexivity|].
  destruct g; [reflexivity|apply app_nil_r].
Qed.

(** [a?] tries [a] first and then nothing. *)
Lemma run_opt (a : regex) (st : mstate) : run (opt a) st = run a st ++ [st].
Proof.
  unfold opt. cbn [run rep_loop option_map Nat.pred].
  f_equal. erewrite flat_map_ext; [apply flat_map_singleton|].
  intros x. apply rep_zero_some_zero.
Qed.

Lemma countdown_in (n : nat) :
  forall lo i, In i (countdown lo n) <-> lo <= i <= n.
Proof.
  induction n as [|n IH]; intros lo i; cbn [countdown].
  - destruct lo; cbn; lia.
  - rewrite in_app_iff, in_map_iff. split.
    + intros [(j & <- & Hj) | H].
      * apply IH in Hj. lia.
      * destruct lo; cbn in H; [lia|contradiction].
    + intros H. destruct i as [|j].
      * right. destruct lo; [left; reflexivity|lia].
      * left. exists j. split; [reflexivity|]. apply IH. lia.
Qed.

Lemma countdown_hd (n : nat) :
  forall lo, hd_error (countdown lo n) = if (lo <=? n)%nat then Some n else None.
Proof.
  induction n as [|n IH]; intros lo; cbn [countdown].
  - destruct lo; reflexivity.
  - rewrite hd_error_app. specialize (IH (Nat.pred lo)).
    destruct (Nat.pred lo <=? n)%nat eqn:E.
    + destruct (countdown (Nat.pred lo) n) as [|x l]; [discriminate|].
      injection IH as ->. cbn [List.map hd_error].
      apply Nat.leb_le in E. replace (lo <=? S n)%nat with true; [reflexivity|].
      symmetry. apply Nat.leb_le. lia.
    + apply hd_error_none in IH. rewrite IH. cbn [List.map hd_error].
      apply Nat.leb_gt in E. destruct lo as [|lo]; [cbn in E; lia|].
      replace (S lo <=? S n)%nat with false; [reflexivity|].
      symmetry. apply Nat.leb_gt. cbn in E. lia.
Qed.

Lemma countup_in (n : nat) :
  forall lo i, In i (countup lo n) <-> lo <= i <= n.
Proof.
  induction n as [|n IH]; intros lo i; cbn [countup].
  - destruct lo; cbn; lia.
  - rewrite in_app_iff, in_map_iff. split.
    + intros [H | (j & <- & Hj)].
      * destruct lo; cbn in H; [lia|contradiction].
      * apply IH in Hj. lia.
    + intros H. destruct i as [|j].
      * left. destruct lo; [left; reflexivity|lia].
      * right. exists j. split; [reflexivity|]. apply IH. lia.
Qed.

(** A repetition of a one-character class, unbounded above: the matcher
    stops after each count between [lo] and the length of the run, longest
    first when greedy and shortest first when lazy. *)
Lemma rep_class (k : cclass) (g : bool) (cs : caps) (s : str) :
  forall p lo fuel,
    length s < fuel ->
    rep_loop (step k) g fuel lo None ({| prev := p; rest := s |}, cs)
    = List.map (fun n => (adv n {| prev := p; rest := s |}, cs))
        (if g then countdown lo (runlen k s) else countup lo (runlen k s)).
Proof.
  induction s as [|a t IH]; intros p lo fuel Hf;
    (destruct fuel as [|f]; [cbn in Hf; lia|]).
  - cbn [rep_loop step rest fst flat_map runlen countdown countup app].
    destruct g, lo; reflexivity.
  - cbn [rep_loop step rest fst snd runlen option_map].
    destruct (accepts k a) eqn:Ea.
    + cbn [flat_map]. rewrite app_nil_r.
      rewrite IH by (cbn in Hf; lia).
      destruct g; cbn [countdown countup]; rewrite List.map_app, List.map_map;
        destruct lo; reflexivity.
    + cbn [flat_map countdown countup app]. destruct g, lo; reflexivity.
Qed.

Lemma run_rep_class (k : cclass) (g : bool) (lo : nat) (c : cursor) (cs : caps) :
  run (Rep g lo None (One k)) (c, cs)
  = List.map (fun n => (adv n c, cs))
      (if g then countdown lo (runlen k (rest c)) else countup lo (runlen k (rest c))).
Proof.
  destruct c as [p s]. cbn [run fst rest].
  change (run (One k)) with (step k).
  apply rep_class. lia.
Qed.

(** ** Collapsing whitespace: [re.sub(r"\s+", " ", text)] *)

Lemma accepts_ws (c : ascii) : accepts ws_class c = isspace c.
Proof. unfold ws_class. cbn [accepts existsb in_item]. rewrite orb_false_r. reflexivity. Qed.

Lemma runlen_le (k : cclass) (s : str) : runlen k s <= length s.
Proof.
  induction s as [|a t IH]; [reflexivity|]. cbn [runlen length].
  destruct (accepts k a); lia.
Qed.

Lemma find_head {A} (p : A -> bool) (x : A) (l : list A) :
  p x = true -> List.find p (x :: l) = Some x.
Proof. intros H. cbn [List.find]. rewrite H. reflexivity. Qed.

Lemma search_eq (r : regex) (ma : bool) (p : option ascii) (sk s : str) :
  search r ma p sk s
  = match attempt r ma {| prev := p; rest := s |} with
    | Some e => Some (rev sk, {| prev := p; rest := s |}, e)
    | None =>
        match s with
        | [] => None
        | a :: t => search r false (Some a) (a :: sk) t
        end
    end.
Proof. destruct s; reflexivity. Qed.

(** One attempt of [k+]: the whole run, if there is one. *)
Lemma attempt_plus_class (k : cclass) (ma : bool) (c : cursor) :
  attempt (Rep true 1 None (One k)) ma c
  = if (1 <=? runlen k (rest c))%nat
    then Some (adv (runlen k (rest c)) c, [])
    else None.
Proof.
  unfold attempt. rewrite run_rep_class.
  pose proof (countdown_hd (runlen k (rest c)) 1) as Hhd.
  destruct (1 <=? runlen k (rest c))%nat eqn:E.
  - destruct (countdown 1 (runlen k (rest c))) as [|n l]; [discriminate|].
    injection Hhd as ->. cbn [List.map]. apply find_head.
    cbn [fst]. rewrite adv_rest, length_skipn.
    apply Nat.leb_le in E. pose proof (runlen_le k (rest c)).
    apply orb_true_iff. right. apply Nat.ltb_lt. lia.
  - apply hd_error_none in Hhd. rewrite Hhd. reflexivity.
Qed.

Lemma break_at_app (k : cclass) (s : str) :
  fst (break_at k s) ++ snd (break_at k s) = s.
Proof.
  induction s as [|a t IH]; [reflexivity|]. cbn [break_at].
  destruct (accepts k a); [reflexivity|]. cbn [fst snd app]. rewrite IH. reflexivity.
Qed.

Lemma break_at_runlen (k : cclass) (s : str) :
  snd (break_at k s) = [] \/ 1 <= runlen k (snd (break_at k s)).
Proof.
  induction s as [|a t IH]; [left; reflexivity|]. cbn [break_at].
  destruct (accepts k a) eqn:E; [|exact IH].
  right. cbn [snd runlen]. rewrite E. lia.
Qed.

(** The search for [k+] passes over the characters that [k] refuses. *)
Lemma search_plus_class (k : cclass) (s : str) :
  forall p sk,
    search (Rep true 1 None (One k)) false p sk s
    = match snd (break_at k s) with
      | [] => None
      | _ :: _ =>
          Some (rev sk ++ fst (break_at k s),
                adv (length (fst (break_at k s))) {| prev := p; rest := s |},
                (adv (length (fst (break_at k s)) + runlen k (snd (break_at k s)))
                     {| prev := p; rest := s |}, []))
      end.
Proof.
  induction s as [|a t IH]; intros p sk.
  - rewrite search_eq, attempt_plus_class. reflexivity.
  - rewrite search_eq, attempt_plus_class. cbn [rest runlen break_at].
    destruct (accepts k a) eqn:E.
    + cbn [Nat.leb fst snd length Nat.add]. rewrite app_nil_r, adv_zero.
      cbn [runlen]. rewrite E. reflexivity.
    + cbn [Nat.leb fst snd length Nat.add]. rewrite IH.
      destruct (snd (break_at k t)); [reflexivity|].
      cbn [rev]. rewrite <- app_assoc. reflexivity.
Qed.

Lemma consumed_adv (c : cursor) (i n : nat) :
  i + n <= length (rest c) ->
  consumed (adv i c) (adv (i + n) c) = firstn n (skipn i (rest c)).
Proof.
  intros H. unfold consumed. rewrite !adv_rest, !length_skipn.
  f_equal. lia.
Qed.

Lemma squeeze_nonspace_prefix (u v : str) :
  forallb (fun c => negb (isspace c)) u = true ->
  forall b, squeeze b (u ++ v) = u ++ squeeze (match u with [] => b | _ => false end) v.
Proof.
  induction u as [|a t IH]; intros Hu b; [reflexivity|].
  cbn [forallb] in Hu. apply andb_prop in Hu as [Ha Ht].
  apply negb_true_iff in Ha. cbn [app squeeze]. rewrite Ha.
  rewrite (IH Ht false). destruct t; reflexivity.
Qed.

Lemma squeeze_true_skip (s : str) :
  squeeze true s = squeeze false (skipn (runlen ws_class s) s).
Proof.
  induction s as [|a t IH]; [reflexivity|].
  cbn [squeeze runlen]. rewrite accepts_ws. destruct (isspace a) eqn:E.
  - cbn [skipn]. exact IH.
  - cbn [skipn squeeze]. rewrite E. reflexivity.
Qed.

Lemma break_at_prefix_refused (k : cclass) (s : str) :
  forallb (fun c => negb (accepts k c)) (fst (break_at k s)) = true.
Proof.
  induction s as [|a t IH]; [reflexivity|]. cbn [break_at].
  destruct (accepts k a) eqn:E; [reflexivity|].
  cbn [fst forallb]. rewrite E, IH. reflexivity.
Qed.

Lemma sub_spaces_from (fuel : nat) :
  forall s p off,
    length s < fuel ->
    sub_of " " (scan_from (Rep true 1 None (One ws_class)) fuel off false
                  {| prev := p; rest := s |})
    = squeeze false s.
Proof.
  induction fuel as [|f IH]; intros s p off Hf; [lia|].
  cbn [scan_from prev rest]. rewrite search_plus_class.
  pose proof (break_at_app ws_class s) as Happ.
  pose proof (break_at_prefix_refused ws_class s) as Hu.
  pose proof (break_at_runlen ws_class s) as Hrun.
  set (u := fst (break_at ws_class s)) in *.
  set (v := snd (break_at ws_class s)) in *.
  assert (Hu' : forallb (fun c => negb (isspace c)) u = true).
  { rewrite <- Hu. clear. induction u as [|c t IHu]; [reflexivity|].
    cbn [forallb]. rewrite accepts_ws, IHu. reflexivity. }
  destruct v as [|a v'] eqn:Ev.
  - unfold sub_of. cbn [fst snd List.map concat app].
    rewrite <- Happ, app_nil_r.
    pose proof (squeeze_nonspace_prefix u [] Hu' false) as Hsq.
    rewrite app_nil_r in Hsq. cbn [squeeze] in Hsq. rewrite app_nil_r in Hsq.
    symmetry. exact Hsq.
  - destruct Hrun as [Hrun|Hrun]; [discriminate|].
    set (n := runlen ws_class (a :: v')) in *.
    pose proof (runlen_le ws_class (a :: v')) as Hn. fold n in Hn.
    assert (Hlen : length s = length u + length (a :: v')).
    { rewrite <- Happ, length_app. reflexivity. }
    cbn [fst snd rev app]. rewrite consumed_adv by (cbn [rest]; lia).
    cbn [rest]. rewrite <- Happ at 1 2. rewrite skipn_app, skipn_all, Nat.sub_diag.
    cbn [app skipn].
    destruct (firstn n (a :: v')) as [|x xs] eqn:Ef.
    { exfalso. apply (f_equal (@length ascii)) in Ef.
      rewrite length_firstn in Ef. cbn [length] in Ef, Hn. lia. }
    destruct (scan_from _ f _ false _) as [more tail] eqn:Escan.
    unfold sub_of. cbn [fst snd List.map concat gap].
    pose proof (IH (rest (adv (length u + n) {| prev := p; rest := s |}))
                  (prev (adv (length u + n) {| prev := p; rest := s |}))
                  (off + length u + length (x :: xs))) as IH'.
    assert (Hc : {| prev := prev (adv (length u + n) {| prev := p; rest := s |});
                    rest := rest (adv (length u + n) {| prev := p; rest := s |}) |}
                 = adv (length u + n) {| prev := p; rest := s |}).
    { destruct (adv _ _). reflexivity. }
    rewrite Hc in IH'.
    rewrite Escan in IH'. unfold sub_of in IH'. cbn [fst snd] in IH'.
    rewrite <- !app_assoc. rewrite IH'.
    + rewrite adv_rest. cbn [rest]. rewrite <- Happ.
      rewrite (squeeze_nonspace_prefix u (a :: v') Hu' false).
      f_equal.
      assert (Ha : isspace a = true).
      { unfold n in Hrun. cbn [runlen] in Hrun. rewrite accepts_ws in Hrun.
        destruct (isspace a); [reflexivity|lia]. }
      replace (squeeze (match u with [] => false | _ => false end) (a :: v'))
        with (squeeze false (a :: v')) by (destruct u; reflexivity).
      cbn [squeeze]. rewrite Ha. cbn [app]. f_equal.
      rewrite squeeze_true_skip.
      rewrite skipn_app, (skipn_all2 u) by lia.
      cbn [app]. replace (length u + n - length u) with n by lia.
      unfold n. cbn [runlen]. rewrite accepts_ws, Ha. reflexivity.
    + rewrite adv_rest, length_skipn. cbn [rest]. lia.
Qed.

(** [re.sub(r"\s+", " ", text)] replaces each run of whitespace by one space. *)
Lemma sub_spaces (s : str) : sub (plus space) " " s = squeeze false s.
Proof.
  unfold sub, scan. apply (sub_spaces_from _ s None 0). lia.
Qed.

(** ** The fingerprint depends on the lowered words only *)

Lemma join_cons (sep w : str) (ws : list str) :
  join sep (w :: ws) = match ws with [] => w | _ :: _ => w ++ sep ++ join sep ws end.
Proof. destruct ws; reflexivity. Qed.

(** The squeezed text is the words joined by single spaces, between at most
    one leading and one trailing space. *)
Lemma squeeze_split (a : str) :
  (forall cur, exists lead trail,
      rev cur ++ squeeze false a = lead ++ join " " (split_from cur a) ++ trail
      /\ forallb isspace lead = true /\ forallb isspace trail = true
      /\ (cur <> [] -> lead = []))
  /\ (exists trail,
        squeeze true a = join " " (split_from [] a) ++ trail
        /\ forallb isspace trail = true).
Proof.
  induction a as [|c t [IHP IHQ]].
  - split.
    + intros cur. exists [], []. cbn [squeeze split_from app].
      destruct cur as [|x cur']; cbn [join]; rewrite !app_nil_r;
        (split; [reflexivity|]; split; [reflexivity|]; split; reflexivity).
    + exists []. split; reflexivity.
  - split.
    + intros cur. cbn [squeeze split_from]. destruct (isspace c) eqn:Ec.
      * destruct IHQ as (trail & Hq & Ht). rewrite Hq.
        destruct cur as [|x cur'].
        -- exists [" "%char], trail. cbn [rev app].
           split; [reflexivity|]. split; [reflexivity|]. split; [exact Ht|].
           intros H; contradiction.
        -- rewrite join_cons. destruct (split_from [] t) as [|w ws].
           ++ exists [], (" "%char :: trail). cbn [join app].
              split; [reflexivity|]. split; [reflexivity|].
              split; [cbn [forallb]; rewrite Ht; reflexivity|]. reflexivity.
           ++ exists [], trail. cbn [app]. rewrite <- !app_assoc. cbn [app].
              split; [reflexivity|]. split; [reflexivity|]. split; [exact Ht|]. reflexivity.
      * destruct (IHP (c :: cur)) as (lead & trail & Hp & Hl & Ht & Hlead).
        rewrite (Hlead ltac:(discriminate)) in Hp.
        exists [], trail. cbn [rev] in Hp. rewrite <- app_assoc in Hp. cbn [app] in Hp |- *.
        split; [exact Hp|]. split; [reflexivity|]. split; [exact Ht|]. reflexivity.
    + cbn [squeeze split_from]. destruct (isspace c) eqn:Ec.
      * exact IHQ.
      * destruct (IHP [c]) as (lead & trail & Hp & Hl & Ht & Hlead).
        rewrite (Hlead ltac:(discriminate)) in Hp. cbn [rev app] in Hp.
        exists trail. split; [exact Hp|exact Ht].
Qed.

Lemma forallb_rev {A} (f : A -> bool) (l : list A) :
  forallb f (rev l) = forallb f l.
Proof.
  induction l as [|x t IH]; [reflexivity|].
  cbn [rev forallb]. rewrite List.forallb_app, IH. cbn [forallb].
  rewrite andb_true_r. apply andb_comm.
Qed.

Lemma split_from_words (a : str) :
  forall cur,
    forallb (fun c => negb (isspace c)) cur = true ->
    Forall is_word (split_from cur a).
Proof.
  induction a as [|c t IH]; intros cur Hcur; cbn [split_from].
  - destruct cur as [|x cur']; [constructor|].
    constructor; [|constructor]. split.
    + intros E. apply (f_equal (@length ascii)) in E. rewrite length_rev in E. discriminate.
    + rewrite forallb_rev. exact Hcur.
  - destruct (isspace c) eqn:Ec.
    + destruct cur as [|x cur']; [apply IH; reflexivity|].
      constructor; [|apply IH; reflexivity]. split.
      * intros E. apply (f_equal (@length ascii)) in E. rewrite length_rev in E. discriminate.
      * rewrite forallb_rev. exact Hcur.
    + apply IH. cbn [forallb]. rewrite Ec. exact Hcur.
Qed.

Lemma lstrip_all_space (l x : str) :
  forallb isspace l = true -> lstrip_by isspace (l ++ x) = lstrip_by isspace x.
Proof.
  induction l as [|c t IH]; intros H; [reflexivity|].
  cbn [forallb] in H. apply andb_prop in H as [Hc Ht].
  cbn [app lstrip_by]. rewrite Hc. apply IH. exact Ht.
Qed.

Lemma lstrip_all_space_nil (l : str) :
  forallb isspace l = true -> lstrip_by isspace l = [].
Proof.
  intros H. rewrite <- (app_nil_r l). rewrite lstrip_all_space by exact H. reflexivity.
Qed.

Lemma lstrip_head (x y : str) :
  x <> [] -> lstrip_by isspace x = x -> lstrip_by isspace (x ++ y) = x ++ y.
Proof.
  destruct x as [|c t]; [intros H; contradiction|]. intros _ H.
  cbn [lstrip_by app] in *. destruct (isspace c); [|reflexivity].
  exfalso. apply (f_equal (@length ascii)) in H.
  assert (Hle : forall s, length (lstrip_by isspace s) <= length s).
  { clear. induction s as [|a s IH]; [reflexivity|]. cbn [lstrip_by].
    destruct (isspace a); cbn [length]; lia. }
  specialize (Hle t). cbn [length] in H. lia.
Qed.

Lemma word_tight (w : str) : is_word w -> tight w.
Proof.
  intros [Hne Hw]. split.
  - destruct w as [|c t]; [reflexivity|]. cbn [forallb] in Hw.
    apply andb_prop in Hw as [Hc _]. apply negb_true_iff in Hc.
    cbn [lstrip_by]. rewrite Hc. reflexivity.
  - rewrite <- forallb_rev in Hw. destruct (rev w) as [|c t]; [reflexivity|].
    cbn [forallb] in Hw. apply andb_prop in Hw as [Hc _]. apply negb_true_iff in Hc.
    cbn [lstrip_by]. rewrite Hc. reflexivity.
Qed.

Lemma join_words_tight (ws : list str) :
  Forall is_word ws -> tight (join " " ws) /\ (ws <> [] -> join " " ws <> []).
Proof.
  induction 1 as [|w ws Hw Hws [IHt IHn]].
  - split; [split; reflexivity|intros H; contradiction].
  - rewrite join_cons. destruct ws as [|w2 ws'].
    + split; [apply word_tight; exact Hw|]. intros _. apply Hw.
    + pose proof (word_tight w Hw) as [Hw1 Hw2]. destruct Hw as [Hne _].
      split.
      * split.
        -- apply lstrip_head; assumption.
        -- rewrite !rev_app_distr. rewrite <- app_assoc.
           destruct IHt as [_ IHr]. apply lstrip_head; [|exact IHr].
           intros E. apply (IHn ltac:(discriminate)).
           apply (f_equal (@rev ascii)) in E. rewrite rev_involutive in E. exact E.
      * intros _ E. apply app_eq_nil in E as [E _]. contradiction.
Qed.

Lemma strip_tight (lead x trail : str) :
  forallb isspace lead = true -> forallb isspace trail = true -> tight x ->
  strip (lead ++ x ++ trail) = x.
Proof.
  intros Hl Ht [Hx1 Hx2]. unfold strip, rstrip_by.
  rewrite lstrip_all_space by exact Hl.
  destruct x as [|c t].
  - cbn [app]. rewrite (lstrip_all_space_nil trail Ht). reflexivity.
  - rewrite lstrip_head by (try discriminate; exact Hx1).
    rewrite rev_app_distr.
    rewrite lstrip_all_space by (rewrite forallb_rev; exact Ht).
    rewrite Hx2. apply rev_involutive.
Qed.

Lemma strip_squeeze (a : str) : strip (squeeze false a) = join " " (Py.split a).
Proof.
  destruct (squeeze_split a) as [HP _].
  destruct (HP []) as (lead & trail & H & Hl & Ht & _).
  cbn [rev app] in H. rewrite H. unfold Py.split.
  apply strip_tight; [exact Hl|exact Ht|].
  apply join_words_tight. apply split_from_words. reflexivity.
Qed.

Lemma lower_join (ws : list str) :
  lower (join " " ws) = join " " (List.map lower ws).
Proof.
  induction ws as [|w ws IH]; [reflexivity|].
  cbn [List.map]. rewrite !join_cons. destruct ws as [|w2 ws']; [reflexivity|].
  cbn [List.map] in *. unfold lower in *. rewrite !List.map_app, IH. reflexivity.
Qed.

(** What [hash_body] hashes is the lowered words joined by single spaces. *)
Lemma hash_norm_words (a : str) :
  hash_norm a = join " " (List.map lower (Py.split a)).
Proof.
  unfold hash_norm. rewrite sub_spaces, strip_squeeze. apply lower_join.
Qed.

(** ** Duplicates: the first record with a fingerprint wins *)

Section Duplicates.

Variable md5_hexdigest : str -> str.

Lemma drop_duplicates_later (l1 : list article) :
  forall seen r l2,
    In (body_fp md5_hexdigest r) seen
    \/ (exists x, In x l1 /\ body_fp md5_hexdigest x = body_fp md5_hexdigest r) ->
    drop_duplicates md5_hexdigest seen (l1 ++ r :: l2)
    = drop_duplicates md5_hexdigest seen (l1 ++ l2).
Proof.
  induction l1 as [|x t IH]; intros seen r l2 H.
  - destruct H as [H | (x & [] & _)]. cbn [app drop_duplicates].
    apply seen_spec in H. unfold body_fp in H. rewrite H. reflexivity.
  - cbn [app drop_duplicates].
    destruct (existsb (eqb (hash_body md5_hexdigest (body x))) seen) eqn:E.
    + apply IH. destruct H as [H | (y & [<-|Hy] & Ey)].
      * left. exact H.
      * left. rewrite <- Ey. apply seen_spec. exact E.
      * right. exists y. split; assumption.
    + f_equal. apply IH. destruct H as [H | (y & [<-|Hy] & Ey)].
      * left. right. exact H.
      * left. left. exact Ey.
      * right. exists y. split; assumption.
Qed.

Lemma drop_duplicates_first (l1 : list article) :
  forall seen r l2,
    ~ In (body_fp md5_hexdigest r) seen ->
    (forall x, In x l1 -> body_fp md5_hexdigest x <> body_fp md5_hexdigest r) ->
    In r (drop_duplicates md5_hexdigest seen (l1 ++ r :: l2)).
Proof.
  induction l1 as [|x t IH]; intros seen r l2 Hs Hl.
  - cbn [app drop_duplicates].
    destruct (existsb (eqb (hash_body md5_hexdigest (body r))) seen) eqn:E.
    + exfalso. apply Hs. apply seen_spec. exact E.
    + left. reflexivity.
  - cbn [app drop_duplicates].
    assert (Ht : forall y, In y t -> body_fp md5_hexdigest y <> body_fp md5_hexdigest r).
    { intros y Hy. apply Hl. right. exact Hy. }
    destruct (existsb (eqb (hash_body md5_hexdigest (body x))) seen) eqn:E.
    + apply IH; assumption.
    + right. apply IH; [|exact Ht].
      intros [Hx|Hin]; [|exact (Hs Hin)].
      apply (Hl x); [left; reflexivity|exact Hx].
Qed.

(** C8, as the code has it. Two bodies equal up to case and whitespace have
    the same fingerprint; the later of two such records is dropped, the
    output being what it is without it; the earlier is kept when no record
    before it has its fingerprint and its cleaned body has [MIN_WORDS] words. *)
Theorem later_duplicate_dropped (pre mid post : list article) (ri rj : article) :
  same_modulo_case_and_space (clean_body ri) (clean_body rj) ->
  hash_body md5_hexdigest (clean_body ri) = hash_body md5_hexdigest (clean_body rj)
  /\ main md5_hexdigest (pre ++ ri :: mid ++ rj :: post)
     = main md5_hexdigest (pre ++ ri :: mid ++ post)
  /\ ((forall r0, In r0 pre ->
         hash_body md5_hexdigest (clean_body r0) <> hash_body md5_hexdigest (clean_body ri)) ->
      MIN_WORDS <= word_count (clean_body ri) ->
      In (recompute ri) (main md5_hexdigest (pre ++ ri :: mid ++ rj :: post))).
Proof.
  intros Hsame.
  assert (Hfp : hash_body md5_hexdigest (clean_body ri)
                = hash_body md5_hexdigest (clean_body rj)).
  { unfold hash_body. rewrite !hash_norm_words. unfold same_modulo_case_and_space in Hsame.
    rewrite Hsame. reflexivity. }
  split; [exact Hfp|]. split.
  - unfold main. f_equal.
    replace (pre ++ ri :: mid ++ rj :: post) with ((pre ++ ri :: mid) ++ rj :: post)
      by (rewrite <- app_assoc; reflexivity).
    replace (pre ++ ri :: mid ++ post) with ((pre ++ ri :: mid) ++ post)
      by (rewrite <- app_assoc; reflexivity).
    rewrite !(List.map_app recompute (pre ++ ri :: mid)). cbn [List.map].
    apply drop_duplicates_later. right. exists (recompute ri). split.
    + apply in_map. apply in_or_app. right. left. reflexivity.
    + exact Hfp.
  - intros Hpre Hlong. unfold main. apply List.filter_In. split.
    + rewrite List.map_app. cbn [List.map]. apply drop_duplicates_first.
      * intros [].
      * intros x Hx. apply in_map_iff in Hx as (r0 & <- & Hr0). apply Hpre. exact Hr0.
    + apply Nat.leb_le. exact Hlong.
Qed.

End Duplicates.

Lemma later_duplicate_dropped_witness :
  main (fun s => s) [row_with "wsj" plain_body; row_with "nyt" shouted_body]
  = main (fun s => s) [row_with "wsj" plain_body].
Proof.
  refine (proj1 (proj2 (later_duplicate_dropped (fun s => s) [] [] []
                          (row_with "wsj" plain_body) (row_with "nyt" shouted_body) _))).
  vm_compute. reflexivity.
Defined.

(** C8, as stated, fails: of two identical short records neither is kept. *)
Lemma short_duplicates_both_dropped :
  ~ (forall (md5_hexdigest : str -> str) (pre mid post : list article) (ri rj : article),
        same_modulo_case_and_space (clean_body ri) (clean_body rj) ->
        In (recompute ri) (main md5_hexdigest (pre ++ ri :: mid ++ rj :: post))).
Proof.
  intros H. specialize (H (fun s => s) [] [] [] short_row short_row eq_refl).
  assert (E : main (fun s => s) ([] ++ short_row :: [] ++ short_row :: []) = []).
  { vm_compute. reflexivity. }
  rewrite E in H. exact H.
Qed.

(** ** Searching for a tag line *)

Lemma attempt_first (r : regex) (c : cursor) :
  attempt r false c = hd_error (run r (c, [])).
Proof.
  unfold attempt. cbn [negb orb]. destruct (run r (c, [])) as [|x l]; reflexivity.
Qed.

Lemma prev_after_app (p : option ascii) (u v : str) :
  prev_after p (u ++ v) = prev_after (prev_after p u) v.
Proof. unfold prev_after. apply fold_left_app. Qed.

(** A search succeeds exactly when an attempt succeeds at some position. *)
Lemma search_some (r : regex) (s : str) :
  forall p sk,
    search r false p sk s <> None <->
    exists u v, s = u ++ v
                /\ attempt r false {| prev := prev_after p u; rest := v |} <> None.
Proof.
  induction s as [|a t IH]; intros p sk; rewrite search_eq.
  - destruct (attempt r false {| prev := p; rest := [] |}) eqn:E.
    + split; [|discriminate]. intros _. exists [], []. split; [reflexivity|].
      cbn [prev_after fold_left]. rewrite E. discriminate.
    + split; [intros H; contradiction|]. intros (u & v & Huv & H).
      symmetry in Huv. apply app_eq_nil in Huv as [-> ->].
      exfalso. apply H. exact E.
  - destruct (attempt r false {| prev := p; rest := a :: t |}) eqn:E.
    + split; [|discriminate]. intros _. exists [], (a :: t). split; [reflexivity|].
      cbn [prev_after fold_left]. rewrite E. discriminate.
    + rewrite IH. split.
      * intros (u & v & -> & H). exists (a :: u), v. split; [reflexivity|exact H].
      * intros (u & v & Huv & H). destruct u as [|b u'].
        -- cbn [app] in Huv. subst v. exfalso. apply H. exact E.
        -- cbn [app] in Huv. injection Huv as <- ->. exists u', v.
           split; [reflexivity|exact H].
Qed.

Lemma startswith_app (t s : str) :
  startswith t s = true <-> exists s', s = t ++ s'.
Proof.
  revert s. induction t as [|a t IH]; intros s.
  - split; [intros _; exists s; reflexivity|reflexivity].
  - destruct s as [|b s]; cbn [startswith].
    + split; [discriminate|intros (s' & H); discriminate].
    + rewrite andb_true_iff, Ascii.eqb_eq, IH. split.
      * intros [-> (s' & ->)]. exists s'. reflexivity.
      * intros (s' & H). injection H as -> ->. split; [reflexivity|exists s'; reflexivity].
Qed.

Lemma adv_add (i j : nat) : forall c, adv (i + j) c = adv j (adv i c).
Proof.
  induction i as [|i IH]; intros [p s].
  - rewrite adv_zero. reflexivity.
  - destruct s as [|a t].
    + cbn [Nat.add adv rest]. destruct j; reflexivity.
    + cbn [Nat.add]. rewrite !adv_succ. apply IH.
Qed.

(** A literal text matches when the subject starts with it. *)
Lemma run_lit (t : str) :
  forall c cs,
    run (lit t) (c, cs) = if startswith t (rest c) then [(adv (length t) c, cs)] else [].
Proof.
  induction t as [|a t IH]; intros [p s] cs.
  - cbn [lit fold_right run startswith length]. rewrite adv_zero. reflexivity.
  - change (lit (a :: t)) with (Seq (One (Lit a)) (lit t)).
    cbn [run]. unfold step. cbn [rest fst snd accepts startswith length].
    destruct s as [|b s]; [reflexivity|].
    rewrite (Ascii.eqb_sym a b). destruct (Ascii.eqb b a) eqn:E; [|reflexivity].
    cbn [flat_map andb]. rewrite app_nil_r, IH. cbn [rest]. rewrite adv_succ. reflexivity.
Qed.

Lemma in_run_star_class (k : cclass) (c : cursor) (cs : caps) (e : mstate) :
  In e (run (star (One k)) (c, cs)) <->
  exists i, i <= runlen k (rest c) /\ e = (adv i c, cs).
Proof.
  unfold star. rewrite run_rep_class, in_map_iff. split.
  - intros (i & <- & Hi). apply countdown_in in Hi. exists i. split; [lia|reflexivity].
  - intros (i & Hi & ->). exists i. split; [reflexivity|]. apply countdown_in. lia.
Qed.

Lemma run_seq (a b : regex) (st : mstate) :
  run (Seq a b) st = flat_map (run b) (run a st).
Proof. reflexivity. Qed.

Lemma in_run_seq (a b : regex) (st e : mstate) :
  In e (run (Seq a b) st) <-> exists m, In m (run a st) /\ In e (run b m).
Proof. rewrite run_seq. apply in_flat_map. Qed.

Lemma in_run_test (t : bool) (st e : mstate) :
  In e (if t then [st] else []) <-> t = true /\ e = st.
Proof.
  destruct t; cbn [In].
  - split; [intros [<-|[]]; split; reflexivity|intros [_ ->]; left; reflexivity].
  - split; [intros []|intros [H _]; discriminate].
Qed.

(** The pattern [(?m)^\s*TAG\s*$] has a match at a cursor exactly when the
    tag stands there alone on its line. *)
Lemma run_tag_line (tag : str) (c : cursor) :
  (exists e, In e (run (tag_line tag) (c, []))) <-> tag_at tag c.
Proof.
  unfold tag_line, seqs, tag_at. cbn [fold_right]. split.
  - intros (e & He).
    apply in_run_seq in He as (m0 & H0 & He).
    apply (in_run_test (at_bol true c)) in H0 as [Hb ->].
    split; [exact Hb|].
    apply in_run_seq in He as (m1 & H1 & He).
    apply (in_run_star_class ws_class) in H1 as (i & Hi & ->).
    apply in_run_seq in He as (m2 & H2 & He).
    rewrite run_lit in H2. rewrite adv_rest in H2.
    apply in_run_test in H2 as [Hs ->].
    apply in_run_seq in He as (m3 & H3 & He).
    apply (in_run_star_class ws_class) in H3 as (j & Hj & ->).
    apply in_run_seq in He as (m4 & H4 & _).
    apply (in_run_test (at_eol true (adv j (adv (length tag) (adv i c))))) in H4 as [Ee _].
    exists i, j. split; [exact Hi|]. split; [exact Hs|].
    rewrite !adv_rest in Hj. rewrite skipn_skipn in Hj.
    split; [rewrite (Nat.add_comm i); exact Hj|].
    rewrite !adv_add. exact Ee.
  - intros (Hb & i & j & Hi & Hs & Hj & He).
    exists (adv (i + length tag + j) c, []).
    apply in_run_seq. exists (c, []). split.
    { apply (in_run_test (at_bol true c)). split; [exact Hb|reflexivity]. }
    apply in_run_seq. exists (adv i c, []). split.
    { apply (in_run_star_class ws_class). exists i. split; [exact Hi|reflexivity]. }
    apply in_run_seq. exists (adv (length tag) (adv i c), []). split.
    { rewrite run_lit, adv_rest. apply in_run_test. split; [exact Hs|reflexivity]. }
    apply in_run_seq. exists (adv j (adv (length tag) (adv i c)), []). split.
    { apply (in_run_star_class ws_class). exists j. split; [|reflexivity].
      rewrite !adv_rest, skipn_skipn, (Nat.add_comm (length tag)). exact Hj. }
    apply in_run_seq. exists (adv j (adv (length tag) (adv i c)), []). split.
    { apply (in_run_test (at_eol true (adv j (adv (length tag) (adv i c))))).
      split; [rewrite <- !adv_add, Nat.add_assoc; exact He|reflexivity]. }
    left. rewrite !adv_add. reflexivity.
Qed.

Lemma search_ok_tag (tag text : str) :
  search_ok (tag_line tag) text = true <->
  exists u v, text = u ++ v /\ tag_at tag {| prev := prev_after None u; rest := v |}.
Proof.
  unfold search_ok.
  assert (H : search (tag_line tag) false None [] text <> None <->
              exists u v, text = u ++ v
                          /\ tag_at tag {| prev := prev_after None u; rest := v |}).
  { rewrite search_some. split; intros (u & v & Huv & H); exists u, v; (split; [exact Huv|]).
    - apply run_tag_line. rewrite attempt_first in H.
      destruct (run (tag_line tag) _) as [|e l]; [contradiction|]. exists e. left. reflexivity.
    - apply run_tag_line in H as (e & He). rewrite attempt_first.
      destruct (run (tag_line tag) _) as [|e' l]; [contradiction|]. discriminate. }
  rewrite <- H. destruct (search (tag_line tag) false None [] text).
  - split; [discriminate|reflexivity].
  - split; [discriminate|intros E; contradiction].
Qed.

(** ** Lines of a block and the three required tags *)

Lemma split_on_from_in (s : str) :
  forall cur l,
    In l (split_on_from nl cur s) <->
    (exists l1 post, s = l1 ++ post /\ ~ In nl l1 /\ ends_line post /\ l = rev cur ++ l1)
    \/ (exists pre post, s = pre ++ nl :: l ++ post /\ ~ In nl l /\ ends_line post).
Proof.
  induction s as [|c t IH]; intros cur l.
  - cbn [split_on_from In]. split.
    + intros [<-|[]]. left. exists [], [].
      split; [reflexivity|]. split; [intros []|].
      split; [left; reflexivity|rewrite app_nil_r; reflexivity].
    + intros [(l1 & post & E & _ & _ & ->) | (pre & post & E & _)].
      * symmetry in E. apply app_eq_nil in E as [-> _]. left. rewrite app_nil_r. reflexivity.
      * destruct pre; discriminate.
  - cbn [split_on_from]. destruct (Ascii.eqb c nl) eqn:Ec.
    + apply Ascii.eqb_eq in Ec. subst c. cbn [In]. rewrite IH. split.
      * intros [<- | [(l1 & post & -> & Hn & Hp & ->) | (pre & post & -> & Hn & Hp)]].
        -- left. exists [], (nl :: t).
           split; [reflexivity|]. split; [intros []|].
           split; [right; exists t; reflexivity|rewrite app_nil_r; reflexivity].
        -- right. exists [], post. cbn [rev app]. split; [reflexivity|]. split; assumption.
        -- right. exists (nl :: pre), post. split; [reflexivity|]. split; assumption.
      * intros [(l1 & post & E & Hn & Hp & ->) | (pre & post & E & Hn & Hp)].
        -- destruct l1 as [|a l1'].
           ++ left. rewrite app_nil_r. reflexivity.
           ++ cbn [app] in E. injection E as <- _. exfalso. apply Hn. left. reflexivity.
        -- destruct pre as [|a pre'].
           ++ cbn [app] in E. injection E as ->. right. left.
              exists l, post. cbn [rev app]. split; [reflexivity|]. split; [exact Hn|].
              split; [exact Hp|reflexivity].
           ++ cbn [app] in E. injection E as <- ->. right. right.
              exists pre', post. split; [reflexivity|]. split; assumption.
    + apply Ascii.eqb_neq in Ec. rewrite IH. split.
      * intros [(l1 & post & -> & Hn & Hp & ->) | (pre & post & -> & Hn & Hp)].
        -- left. exists (c :: l1), post. split; [reflexivity|]. split.
           ++ intros [E|Hin]; [exact (Ec E)|exact (Hn Hin)].
           ++ split; [exact Hp|]. cbn [rev]. rewrite <- app_assoc. reflexivity.
        -- right. exists (c :: pre), post. split; [reflexivity|]. split; assumption.
      * intros [(l1 & post & E & Hn & Hp & ->) | (pre & post & E & Hn & Hp)].
        -- destruct l1 as [|a l1'].
           ++ cbn [app] in E. subst post. destruct Hp as [Hp|(post' & Hp)]; [discriminate|].
              injection Hp as Hp _. contradiction.
           ++ cbn [app] in E. injection E as <- ->. left. exists l1', post.
              split; [reflexivity|]. split; [intros Hin; apply Hn; right; exact Hin|].
              split; [exact Hp|]. cbn [rev]. rewrite <- app_assoc. reflexivity.
        -- destruct pre as [|a pre'].
           ++ cbn [app] in E. injection E as E _. contradiction.
           ++ cbn [app] in E. injection E as <- ->. right. exists pre', post.
              split; [reflexivity|]. split; assumption.
Qed.

(** The lines of a text, between line feeds. *)
Lemma split_on_in (s l : str) :
  In l (split_on nl s) <->
  exists pre post, s = pre ++ l ++ post /\ starts_line pre /\ ends_line post /\ ~ In nl l.
Proof.
  unfold split_on. rewrite split_on_from_in. cbn [rev app]. split.
  - intros [(l1 & post & -> & Hn & Hp & ->) | (pre & post & -> & Hn & Hp)].
    + exists [], post. split; [reflexivity|]. split; [left; reflexivity|]. split; assumption.
    + exists (pre ++ [nl]), post. rewrite <- app_assoc. split; [reflexivity|].
      split; [right; exists pre; reflexivity|]. split; assumption.
  - intros (pre & post & -> & [->|(pre' & ->)] & Hp & Hn).
    + left. exists l, post. split; [reflexivity|]. split; [exact Hn|]. split; [exact Hp|reflexivity].
    + right. exists pre', post. rewrite <- app_assoc. split; [reflexivity|]. split; assumption.
Qed.

Lemma lstrip_decompose (p : ascii -> bool) (l : str) :
  exists w, l = w ++ lstrip_by p l /\ forallb p w = true.
Proof.
  induction l as [|c t (w & E & Hw)].
  - exists []. split; reflexivity.
  - cbn [lstrip_by]. destruct (p c) eqn:Ec.
    + exists (c :: w). cbn [app forallb]. rewrite Ec, Hw, <- E. split; reflexivity.
    + exists []. split; reflexivity.
Qed.

Lemma strip_decompose (l : str) :
  exists w1 w2, l = w1 ++ strip l ++ w2
                /\ forallb isspace w1 = true /\ forallb isspace w2 = true.
Proof.
  destruct (lstrip_decompose isspace l) as (w1 & E1 & H1).
  destruct (lstrip_decompose isspace (rev (lstrip_by isspace l))) as (w2 & E2 & H2).
  exists w1, (rev w2). unfold strip, rstrip_by. split.
  - rewrite <- rev_app_distr, <- E2, rev_involutive. exact E1.
  - split; [exact H1|]. rewrite forallb_rev. exact H2.
Qed.

Lemma cut_at_first_nl (x : str) :
  exists a b, x = a ++ b /\ ~ In nl a /\ ends_line b.
Proof.
  induction x as [|c t (a & b & E & Ha & Hb)].
  - exists [], []. split; [reflexivity|]. split; [intros []|left; reflexivity].
  - destruct (Ascii.eqb c nl) eqn:Ec.
    + apply Ascii.eqb_eq in Ec. subst c. exists [], (nl :: t).
      split; [reflexivity|]. split; [intros []|right; exists t; reflexivity].
    + apply Ascii.eqb_neq in Ec. exists (c :: a), b. rewrite E.
      split; [reflexivity|]. split; [|exact Hb].
      intros [H|H]; [exact (Ec H)|exact (Ha H)].
Qed.

Lemma cut_at_last_nl (x : str) :
  exists a b, x = a ++ b /\ starts_line a /\ ~ In nl b.
Proof.
  destruct (cut_at_first_nl (rev x)) as (a & b & E & Ha & Hb).
  exists (rev b), (rev a). split.
  - rewrite <- rev_app_distr, <- E, rev_involutive. reflexivity.
  - split.
    + destruct Hb as [->|(b' & ->)]; [left; reflexivity|].
      right. exists (rev b'). reflexivity.
    + intros H. apply Ha. apply in_rev. exact H.
Qed.

Lemma runlen_firstn (k : cclass) (s : str) :
  forall i, i <= runlen k s ->
            forallb (accepts k) (firstn i s) = true /\ length (firstn i s) = i.
Proof.
  induction s as [|a t IH]; intros i Hi.
  - cbn [runlen] in Hi. replace i with 0 by lia. split; reflexivity.
  - destruct i as [|i]; [split; reflexivity|].
    cbn [runlen] in Hi. destruct (accepts k a) eqn:Ea; [|lia].
    destruct (IH i ltac:(lia)) as [H1 H2].
    cbn [firstn forallb length]. rewrite Ea, H1, H2. split; reflexivity.
Qed.

Lemma runlen_prefix (k : cclass) (w x : str) :
  forallb (accepts k) w = true -> length w <= runlen k (w ++ x).
Proof.
  induction w as [|a t IH]; intros H; [cbn; lia|].
  cbn [forallb] in H. apply andb_prop in H as [Ha Ht].
  cbn [app runlen length]. rewrite Ha. specialize (IH Ht). lia.
Qed.

Lemma forallb_ws (w : str) : forallb (accepts ws_class) w = forallb isspace w.
Proof.
  induction w as [|a t IH]; [reflexivity|]. cbn [forallb]. rewrite accepts_ws, IH. reflexivity.
Qed.

Lemma prev_after_snoc (p : option ascii) (u : str) (a : ascii) :
  prev_after p (u ++ [a]) = Some a.
Proof. rewrite prev_after_app. reflexivity. Qed.

Lemma at_bol_starts_line (u v : str) :
  at_bol true {| prev := prev_after None u; rest := v |} = true <-> starts_line u.
Proof.
  unfold at_bol, starts_line. cbn [prev].
  destruct (rev u) as [|a r] eqn:Er.
  - apply (f_equal (@rev ascii)) in Er. rewrite rev_involutive in Er. cbn in Er. subst u.
    cbn. split; [left; reflexivity|reflexivity].
  - apply (f_equal (@rev ascii)) in Er. rewrite rev_involutive in Er. cbn [rev] in Er. subst u.
    rewrite prev_after_snoc. cbn [andb]. rewrite Ascii.eqb_eq. split.
    + intros ->. right. exists (rev r). reflexivity.
    + intros [E|(pre' & E)].
      * destruct (rev r); discriminate.
      * apply app_inj_tail in E as [_ E]. exact E.
Qed.

Lemma at_eol_ends_line (p : option ascii) (s : str) :
  at_eol true {| prev := p; rest := s |} = true <-> ends_line s.
Proof.
  unfold at_eol, ends_line. cbn [rest]. destruct s as [|a t].
  - split; [left; reflexivity|reflexivity].
  - cbn [orb]. rewrite andb_true_r, Ascii.eqb_eq. split.
    + intros ->. right. exists t. reflexivity.
    + intros [E|(t' & E)]; [discriminate|]. injection E as -> _. reflexivity.
Qed.

Lemma word_no_nl (w : str) : is_word w -> ~ In nl w.
Proof.
  intros [_ Hw] Hin. rewrite forallb_forall in Hw. specialize (Hw nl Hin).
  vm_compute in Hw. discriminate.
Qed.

Lemma skipn_length_app {A} (a b : list A) (n : nat) :
  skipn (length a + n) (a ++ b) = skipn n b.
Proof.
  rewrite skipn_app. rewrite skipn_all2 by lia.
  replace (length a + n - length a) with n by lia. reflexivity.
Qed.

Lemma firstn_length_app {A} (a b : list A) : firstn (length a) (a ++ b) = a.
Proof.
  rewrite firstn_app, firstn_all, Nat.sub_diag. cbn [firstn]. apply app_nil_r.
Qed.

Lemma at_eol_adv (n : nat) (c : cursor) :
  at_eol true (adv n c) = true <-> ends_line (skipn n (rest c)).
Proof.
  pose proof (adv_rest n c) as Hr. destruct (adv n c) as [p' s'].
  cbn [rest] in Hr. subst s'. apply at_eol_ends_line.
Qed.

Lemma tag_at_decomposed (tag : str) (p : option ascii) (v : str) :
  tag_at tag {| prev := p; rest := v |} <->
  at_bol true {| prev := p; rest := v |} = true
  /\ exists w1 w2 s3,
       v = w1 ++ tag ++ w2 ++ s3
       /\ forallb isspace w1 = true /\ forallb isspace w2 = true /\ ends_line s3.
Proof.
  unfold tag_at. cbn [rest]. split.
  - intros (Hb & i & j & Hi & Hs & Hj & He). split; [exact Hb|].
    destruct (runlen_firstn ws_class v i Hi) as [Hw1 Hl1].
    apply startswith_app in Hs as (r1 & Hr1).
    assert (Hv : v = firstn i v ++ tag ++ r1).
    { rewrite <- Hr1. symmetry. apply firstn_skipn. }
    assert (Hsk : skipn (i + length tag) v = r1).
    { rewrite Nat.add_comm, <- skipn_skipn, Hr1.
      rewrite <- (Nat.add_0_r (length tag)). apply skipn_length_app. }
    rewrite Hsk in Hj.
    destruct (runlen_firstn ws_class r1 j Hj) as [Hw2 Hl2].
    exists (firstn i v), (firstn j r1), (skipn j r1).
    split; [rewrite firstn_skipn; exact Hv|].
    rewrite <- !forallb_ws. split; [exact Hw1|]. split; [exact Hw2|].
    apply at_eol_adv in He. cbn [rest] in He.
    rewrite Nat.add_comm, <- skipn_skipn, Hsk in He. exact He.
  - intros (Hb & w1 & w2 & s3 & -> & Hw1 & Hw2 & Hs3). split; [exact Hb|].
    exists (length w1), (length w2).
    rewrite <- forallb_ws in Hw1, Hw2.
    assert (S1 : skipn (length w1) (w1 ++ tag ++ w2 ++ s3) = tag ++ w2 ++ s3).
    { rewrite <- (Nat.add_0_r (length w1)). apply skipn_length_app. }
    assert (S2 : skipn (length w1 + length tag) (w1 ++ tag ++ w2 ++ s3) = w2 ++ s3).
    { rewrite skipn_length_app. rewrite <- (Nat.add_0_r (length tag)). apply skipn_length_app. }
    assert (S3 : skipn (length w1 + length tag + length w2) (w1 ++ tag ++ w2 ++ s3) = s3).
    { rewrite <- Nat.add_assoc, skipn_length_app, skipn_length_app.
      rewrite <- (Nat.add_0_r (length w2)). apply skipn_length_app. }
    split; [apply runlen_prefix; exact Hw1|]. rewrite S1, S2.
    split; [apply startswith_app; exists (w2 ++ s3); reflexivity|].
    split; [apply runlen_prefix; exact Hw2|].
    apply at_eol_adv. cbn [rest]. rewrite S3. exact Hs3.
Qed.

(** A tag line is found by the search exactly when some line of the block,
    stripped, is the tag. *)
Lemma search_ok_tag_line (tag block : str) :
  is_word tag ->
  search_ok (tag_line tag) block = true <-> has_tag_line tag block = true.
Proof.
  intros Htag. rewrite search_ok_tag. unfold has_tag_line. rewrite existsb_exists.
  split.
  - intros (u & v & -> & H). apply tag_at_decomposed in H as (Hb & w1 & w2 & s3 & -> & H1 & H2 & H3).
    apply at_bol_starts_line in Hb.
    destruct (cut_at_last_nl w1) as (w1a & w1b & -> & Ha & Hnb).
    destruct (cut_at_first_nl w2) as (w2a & w2b & -> & Hna & Hb2).
    rewrite forallb_app in H1, H2.
    apply andb_prop in H1 as [_ H1b]. apply andb_prop in H2 as [H2a _].
    exists (w1b ++ tag ++ w2a). split.
    + apply split_on_in. exists (u ++ w1a), (w2b ++ s3).
      split; [rewrite <- !app_assoc; reflexivity|]. split; [|split].
      * destruct Ha as [->|(a' & ->)]; [rewrite app_nil_r; exact Hb|].
        right. exists (u ++ a'). rewrite app_assoc. reflexivity.
      * destruct Hb2 as [->|(b' & ->)]; [exact H3|]. right. exists (b' ++ s3). reflexivity.
      * intros Hin. apply in_app_or in Hin as [Hin|Hin]; [exact (Hnb Hin)|].
        apply in_app_or in Hin as [Hin|Hin]; [exact (word_no_nl tag Htag Hin)|exact (Hna Hin)].
    + unfold eqb. apply bool_decide_eq_true.
      apply strip_tight; [exact H1b|exact H2a|apply word_tight; exact Htag].
  - intros (l & Hin & Hl). unfold eqb in Hl. apply bool_decide_eq_true in Hl.
    apply split_on_in in Hin as (pre & post & -> & Hpre & Hpost & _).
    destruct (strip_decompose l) as (w1 & w2 & El & H1 & H2). rewrite Hl in El.
    exists pre, (l ++ post). split; [reflexivity|].
    apply tag_at_decomposed. split; [apply at_bol_starts_line; exact Hpre|].
    exists w1, w2, post. split; [rewrite El, <- !app_assoc; reflexivity|].
    split; [exact H1|]. split; [exact H2|exact Hpost].
Qed.

Lemma bool_eq_iff (a b : bool) : (a = true <-> b = true) -> a = b.
Proof.
  destruct a, b; intros [H1 H2]; try reflexivity.
  - symmetry. apply H1. reflexivity.
  - apply H2. reflexivity.
Qed.

Lemma tag_is_word (a b : ascii) :
  isspace a = false -> isspace b = false -> is_word [a; b].
Proof.
  intros Ha Hb. split; [discriminate|]. cbn [forallb]. rewrite Ha, Hb. reflexivity.
Qed.

Lemma is_real_article_tags (block : str) :
  is_real_article block
  = has_tag_line "PD" block && has_tag_line "SN" block && has_tag_line "LP" block.
Proof.
  unfold is_real_article.
  rewrite (bool_eq_iff _ _ (search_ok_tag_line "PD" block (tag_is_word "P" "D" eq_refl eq_refl))).
  rewrite (bool_eq_iff _ _ (search_ok_tag_line "SN" block (tag_is_word "S" "N" eq_refl eq_refl))).
  rewrite (bool_eq_iff _ _ (search_ok_tag_line "LP" block (tag_is_word "L" "P" eq_refl eq_refl))).
  reflexivity.
Qed.

Lemma split_on_from_app (x : str) :
  forall cur y,
    split_on_from nl cur (x ++ nl :: y) = split_on_from nl cur x ++ split_on_from nl [] y.
Proof.
  induction x as [|c t IH]; intros cur y.
  - cbn [app split_on_from]. rewrite Ascii.eqb_refl. reflexivity.
  - cbn [app split_on_from]. destruct (Ascii.eqb c nl).
    + cbn [app]. f_equal. apply IH.
    + apply IH.
Qed.

Lemma split_on_join (ls : list str) :
  ls <> [] -> split_on nl (join [nl] ls) = flat_map (split_on nl) ls.
Proof.
  induction ls as [|l ls IH]; intros H; [contradiction|].
  rewrite join_cons. destruct ls as [|l2 ls'].
  - cbn [flat_map]. rewrite app_nil_r. reflexivity.
  - change (flat_map (split_on nl) (l :: l2 :: ls'))
      with (split_on nl l ++ flat_map (split_on nl) (l2 :: ls')).
    rewrite <- IH by discriminate.
    unfold split_on. cbn [app]. apply split_on_from_app.
Qed.

Lemma existsb_flat_map {A B} (f : B -> bool) (g : A -> list B) (l : list A) :
  existsb f (flat_map g l) = existsb (fun x => existsb f (g x)) l.
Proof.
  induction l as [|x t IH]; [reflexivity|].
  cbn [flat_map existsb]. rewrite existsb_app, IH. reflexivity.
Qed.

Lemma existsb_permutation {A} (f : A -> bool) (l l' : list A) :
  Permutation l l' -> existsb f l = existsb f l'.
Proof.
  induction 1 as [|x l l' _ IH|x y l|l l' l'' _ IH1 _ IH2].
  - reflexivity.
  - cbn [existsb]. rewrite IH. reflexivity.
  - cbn [existsb]. destruct (f x), (f y); reflexivity.
  - rewrite IH1. exact IH2.
Qed.

Lemma has_tag_line_permutation (tag : str) (ls ls' : list str) :
  Permutation ls ls' ->
  has_tag_line tag (join [nl] ls) = has_tag_line tag (join [nl] ls').
Proof.
  intros H. destruct ls as [|l ls0].
  - apply Permutation_nil in H. subst ls'. reflexivity.
  - destruct ls' as [|l' ls0'].
    + apply Permutation_sym, Permutation_nil in H. discriminate.
    + unfold has_tag_line. rewrite !split_on_join by discriminate.
      rewrite !existsb_flat_map. apply existsb_permutation. exact H.
Qed.

(** C7. A chunk is accepted exactly when each of PD, SN and LP stands alone
    on a line of it; the order of the lines does not matter; and the chunks
    returned are the cleaned chunks that pass, the others being left out. *)
Theorem real_article_iff_three_tags :
  (forall block : str,
      is_real_article block = true <->
      has_tag_line "PD" block = true /\ has_tag_line "SN" block = true
      /\ has_tag_line "LP" block = true)
  /\ (forall ls ls' : list str,
        Permutation ls ls' ->
        is_real_article (join [nl] ls) = is_real_article (join [nl] ls'))
  /\ (forall raw b : str,
        In b (split_factiva_file raw) <->
        In b (blocks_of raw)
        /\ has_tag_line "PD" b = true /\ has_tag_line "SN" b = true
        /\ has_tag_line "LP" b = true).
Proof.
  assert (H1 : forall block : str,
             is_real_article block = true <->
             has_tag_line "PD" block = true /\ has_tag_line "SN" block = true
             /\ has_tag_line "LP" block = true).
  { intros block. rewrite is_real_article_tags, !andb_true_iff. tauto. }
  split; [exact H1|]. split.
  - intros ls ls' Hp. rewrite !is_real_article_tags.
    rewrite (has_tag_line_permutation "PD" ls ls' Hp).
    rewrite (has_tag_line_permutation "SN" ls ls' Hp).
    rewrite (has_tag_line_permutation "LP" ls ls' Hp). reflexivity.
  - intros raw b. unfold split_factiva_file. rewrite List.filter_In, H1. reflexivity.
Qed.

Lemma real_article_iff_three_tags_witness :
  is_real_article (join [nl] ["SN" : str; "PD" : str; "LP" : str])
  = is_real_article (join [nl] ["PD" : str; "SN" : str; "LP" : str]).
Proof.
  apply (proj1 (proj2 real_article_iff_three_tags)). apply perm_swap.
Defined.

(** ** The caps patterns: what one attempt matches *)

Lemma caps_pattern_inline : all_caps_inline = caps_pattern true.
Proof. reflexivity. Qed.

Lemma caps_pattern_newline : all_caps_newline = caps_pattern false.
Proof. reflexivity. Qed.

Lemma caps_refuses_colon : accepts caps_class ":" = false.
Proof. vm_compute. reflexivity. Qed.

Lemma caps_refuses_nl : accepts caps_class nl = false.
Proof. vm_compute. reflexivity. Qed.

Lemma flat_map_map {A B C} (f : B -> list C) (g : A -> B) (l : list A) :
  flat_map f (List.map g l) = flat_map (fun x => f (g x)) l.
Proof.
  induction l as [|x t IH]; [reflexivity|]. cbn [List.map flat_map]. rewrite IH. reflexivity.
Qed.

Lemma flat_map_nil {A B} (f : A -> list B) (l : list A) :
  (forall x, In x l -> f x = []) -> flat_map f l = [].
Proof.
  induction l as [|x t IH]; intros H; [reflexivity|].
  cbn [flat_map]. rewrite (H x) by (left; reflexivity). apply IH.
  intros y Hy. apply H. right. exact Hy.
Qed.

Lemma countdown_head (n : nat) :
  forall lo, lo <= n ->
             exists l, countdown lo n = n :: l /\ forall x, In x l -> lo <= x < n.
Proof.
  induction n as [|n IH]; intros lo Hlo.
  - replace lo with 0 by lia. exists []. split; [reflexivity|intros x []].
  - destruct (IH (Nat.pred lo) ltac:(lia)) as (l & El & Hl).
    cbn [countdown]. rewrite El. cbn [List.map app].
    eexists. split; [reflexivity|]. intros x Hx.
    apply in_app_or in Hx as [Hx|Hx].
    + apply in_map_iff in Hx as (y & <- & Hy). specialize (Hl y Hy). lia.
    + destruct lo; [|contradiction]. destruct Hx as [<-|[]]. lia.
Qed.

Lemma countdown_empty (n lo : nat) : n < lo -> countdown lo n = [].
Proof.
  intros H. destruct (countdown lo n) as [|x l] eqn:E; [reflexivity|].
  assert (Hin : In x (countdown lo n)) by (rewrite E; left; reflexivity).
  apply countdown_in in Hin. lia.
Qed.

(** Of the counts a greedy repetition tries, only the longest can go on
    when the shorter ones are followed by what the rest refuses. *)
Lemma flat_map_countdown {B} (F : nat -> list B) (lo n : nat) :
  (forall x, lo <= x < n -> F x = []) ->
  flat_map F (countdown lo n) = if (lo <=? n)%nat then F n else [].
Proof.
  intros H. destruct (lo <=? n)%nat eqn:E.
  - apply Nat.leb_le in E. destruct (countdown_head n lo E) as (l & -> & Hl).
    cbn [flat_map]. rewrite (flat_map_nil F l); [apply app_nil_r|].
    intros x Hx. apply H. apply Hl. exact Hx.
  - apply Nat.leb_gt in E. rewrite countdown_empty by exact E. reflexivity.
Qed.

Lemma run_chr (a : ascii) (R : regex) (c : cursor) (cs : caps) :
  run (Seq (chr a) R) (c, cs)
  = match rest c with
    | b :: _ => if Ascii.eqb b a then run R (adv 1 c, cs) else []
    | [] => []
    end.
Proof.
  rewrite run_seq. unfold chr. cbn [run]. unfold step. cbn [fst snd accepts].
  destruct c as [p s]. cbn [rest]. destruct s as [|b t]; [reflexivity|].
  destruct (Ascii.eqb b a); [|reflexivity].
  cbn [flat_map]. rewrite app_nil_r. reflexivity.
Qed.

Lemma runlen_skipn (k : cclass) (s : str) :
  forall n, n < runlen k s ->
            exists b t, skipn n s = b :: t /\ accepts k b = true.
Proof.
  induction s as [|a t IH]; intros n Hn; [cbn in Hn; lia|].
  cbn [runlen] in Hn. destruct (accepts k a) eqn:Ea; [|lia].
  destruct n as [|n]; [exists a, t; split; [reflexivity|exact Ea]|].
  cbn [skipn]. apply IH. lia.
Qed.

Lemma consumed_adv0 (c : cursor) (n : nat) :
  consumed c (adv n c) = firstn n (rest c).
Proof.
  unfold consumed. rewrite adv_rest, length_skipn.
  destruct (Nat.le_gt_cases n (length (rest c))) as [H|H].
  - f_equal. lia.
  - rewrite !firstn_all2 by lia. reflexivity.
Qed.

(** A label, captured or not, and its colon: the label is the whole run of
    capitals and spaces, which must have two characters at least. *)
Lemma run_label_colon (grouped : bool) (R : regex) (c : cursor) (cs : caps) :
  run (Seq (if grouped then Grp 1 caps_label else caps_label) (Seq (chr ":") R)) (c, cs)
  = if label_colon (rest c)
    then run R (adv (runlen caps_class (rest c) + 1) c,
                if grouped then (1, firstn (runlen caps_class (rest c)) (rest c)) :: cs
                else cs)
    else [].
Proof.
  set (n := runlen caps_class (rest c)).
  set (g := fun i : nat =>
              (adv i c, if grouped then (1, firstn i (rest c)) :: cs else cs) : mstate).
  assert (Hrun : run (if grouped then Grp 1 caps_label else caps_label) (c, cs)
                 = List.map g (countdown 2 n)).
  { unfold caps_label, at_least. destruct grouped.
    - cbn [run]. change (rep_loop _ _ _ _ _ _)
        with (run (Rep true 2 None (One caps_class)) (c, cs)).
      rewrite run_rep_class, List.map_map. apply map_ext. intros i.
      cbn [fst snd]. unfold g. rewrite consumed_adv0. reflexivity.
    - apply run_rep_class. }
  rewrite run_seq, Hrun, flat_map_map.
  rewrite flat_map_countdown.
  - unfold label_colon. fold n. destruct (2 <=? n)%nat; [|reflexivity].
    cbn [andb]. unfold g. rewrite run_chr, adv_rest.
    destruct (skipn n (rest c)) as [|b t]; [reflexivity|].
    cbn [startswith list_ascii_of_string]. rewrite andb_true_r, (Ascii.eqb_sym ":" b).
    destruct (Ascii.eqb b ":"); [|reflexivity].
    rewrite <- adv_add. reflexivity.
  - intros x Hx. unfold g. rewrite run_chr, adv_rest.
    destruct (runlen_skipn caps_class (rest c) x ltac:(unfold n in Hx; lia)) as (b & t & -> & Hb).
    destruct (Ascii.eqb b ":") eqn:E; [|reflexivity].
    apply Ascii.eqb_eq in E. subst b. rewrite caps_refuses_colon in Hb. discriminate.
Qed.

(** The lookahead at the end of both patterns. *)
Lemma run_next_label (c : cursor) (cs : caps) :
  run (Seq next_label Eps) (c, cs) = if label_ahead (rest c) then [(c, cs)] else [].
Proof.
  rewrite run_seq. unfold next_label. cbn [run fst].
  change (run (seqs [chr nl; caps_label; chr ":"]) (c, cs))
    with (run (Seq (chr nl) (Seq caps_label (Seq (chr ":") Eps))) (c, cs)).
  rewrite run_chr. unfold label_ahead, at_end.
  destruct (rest c) as [|b t] eqn:Er.
  - reflexivity.
  - rewrite app_nil_r. destruct (Ascii.eqb b nl); [|reflexivity].
    rewrite (run_label_colon false Eps). rewrite adv_rest, Er.
    change (skipn 1 (b :: t)) with t. cbn [andb].
    destruct (label_colon t); reflexivity.
Qed.

Lemma runlen_dotall (s : str) : runlen (Dot true) s = length s.
Proof. induction s as [|a t IH]; [reflexivity|]. cbn [runlen accepts orb length]. rewrite IH. reflexivity. Qed.

Lemma first_countup {B} (s : str) :
  forall H : nat -> B,
    hd_error (flat_map (fun n => if label_ahead (skipn n s) then [H n] else [])
                (countup 0 (length s)))
    = Some (H (content_len s)).
Proof.
  induction s as [|a t IH]; intros H.
  - reflexivity.
  - cbn [length countup]. rewrite flat_map_app, hd_error_app.
    cbn [flat_map]. rewrite app_nil_r. rewrite skipn_O.
    unfold content_len; fold content_len.
    destruct (label_ahead (a :: t)); [reflexivity|].
    cbn [hd_error]. rewrite flat_map_map. cbn [Nat.pred].
    apply (IH (fun n => H (S n))).
Qed.

(** The body: the shortest text after which the lookahead holds. *)
Lemma run_body_first (c : cursor) (cs : caps) :
  hd_error (run (Seq (Grp 2 (star_lazy any_dotall)) (Seq next_label Eps)) (c, cs))
  = Some (adv (content_len (rest c)) c,
          (2, firstn (content_len (rest c)) (rest c)) :: cs).
Proof.
  rewrite run_seq. cbn [run]. unfold star_lazy, any_dotall.
  change (rep_loop _ _ _ _ _ _) with (run (Rep false 0 None (One (Dot true))) (c, cs)).
  rewrite run_rep_class, List.map_map, flat_map_map, runlen_dotall. cbn [fst snd].
  erewrite flat_map_ext.
  - apply (first_countup (rest c)
             (fun n => (adv n c, (2, firstn n (rest c)) :: cs))).
  - intros n. cbn beta.
    change (flat_map _ (run next_label ?st)) with (run (Seq next_label Eps) st).
    rewrite run_next_label, adv_rest, consumed_adv0. reflexivity.
Qed.

Lemma run_space (c : cursor) (cs : caps) :
  run space (c, cs)
  = match rest c with
    | a :: _ => if isspace a then [(adv 1 c, cs)] else []
    | [] => []
    end.
Proof.
  unfold space. cbn [run]. unfold step. cbn [fst snd].
  destruct c as [p s]. cbn [rest]. destruct s as [|a t]; [reflexivity|].
  change (accepts (Set_ false [CSpace]) a) with (accepts ws_class a).
  rewrite accepts_ws. reflexivity.
Qed.

(** The separator and the body. *)
Lemma run_sep_body_first (inline : bool) (c : cursor) (cs : caps) :
  hd_error (run (Seq (if inline then opt space else chr nl)
                     (Seq (Grp 2 (star_lazy any_dotall)) (Seq next_label Eps))) (c, cs))
  = match sep_len inline (rest c) with
    | Some sp =>
        Some (adv (sp + content_len (skipn sp (rest c))) c,
              (2, firstn (content_len (skipn sp (rest c))) (skipn sp (rest c))) :: cs)
    | None => None
    end.
Proof.
  destruct inline.
  - rewrite run_seq, run_opt, flat_map_app, hd_error_app, run_space.
    unfold sep_len. destruct (rest c) as [|a t] eqn:Er.
    + cbn [flat_map hd_error app]. rewrite app_nil_r, run_body_first, Er.
      rewrite skipn_O. reflexivity.
    + destruct (isspace a).
      * cbn [flat_map]. rewrite app_nil_r, run_body_first, adv_rest, Er, adv_add.
        reflexivity.
      * cbn [flat_map hd_error app]. rewrite app_nil_r, run_body_first, Er, skipn_O.
        reflexivity.
  - rewrite run_chr. unfold sep_len. destruct (rest c) as [|a t] eqn:Er; [reflexivity|].
    destruct (Ascii.eqb a nl); [|reflexivity].
    rewrite run_body_first, adv_rest, Er, adv_add. reflexivity.
Qed.

(** One attempt of a caps pattern. *)
Lemma run_caps_first (inline : bool) (c : cursor) :
  hd_error (run (caps_pattern inline) (c, []))
  = option_map (caps_state c) (caps_match inline (rest c)).
Proof.
  unfold caps_pattern, seqs. cbn [fold_right].
  set (Rsep := Seq (if inline then opt space else chr nl)
                   (Seq (Grp 2 (star_lazy any_dotall)) (Seq next_label Eps))).
  assert (Hlabel : forall o,
             hd_error (run (Seq (Grp 1 caps_label) (Seq (chr ":") Rsep)) (adv o c, []))
             = if label_colon (skipn o (rest c)) then
                 match sep_len inline (skipn (o + runlen caps_class (skipn o (rest c)) + 1)
                                         (rest c)) with
                 | Some sp =>
                     Some (caps_state c
                             (o, runlen caps_class (skipn o (rest c)), sp,
                              content_len
                                (skipn (o + runlen caps_class (skipn o (rest c)) + 1 + sp)
                                   (rest c))))
                 | None => None
                 end
               else None).
  { intros o. rewrite (run_label_colon true Rsep), adv_rest.
    destruct (label_colon (skipn o (rest c))); [|reflexivity].
    unfold Rsep. rewrite run_sep_body_first, !adv_rest, !skipn_skipn.
    set (n := runlen caps_class (skipn o (rest c))).
    replace (n + 1 + o) with (o + n + 1) by lia.
    destruct (sep_len inline (skipn (o + n + 1) (rest c))) as [sp|]; [|reflexivity].
    unfold caps_state. rewrite !skipn_skipn.
    replace (sp + (o + n + 1)) with (o + n + 1 + sp) by lia.
    rewrite <- !adv_add.
    rewrite !Nat.add_assoc. reflexivity. }
  rewrite run_seq, run_opt, flat_map_app, <- run_seq, run_chr, hd_error_app.
  unfold caps_match.
  pose proof (Hlabel 0) as H0. rewrite adv_zero, skipn_O in H0.
  pose proof (Hlabel 1) as H1.
  cbn [flat_map]. rewrite app_nil_r, H0.
  destruct (rest c) as [|a t] eqn:Er.
  - cbn [hd_error]. cbv zeta.
    destruct (label_colon _); [destruct (sep_len _ _)|]; reflexivity.
  - destruct (Ascii.eqb a nl) eqn:Ea.
    + cbv iota. change (@pair cursor (list (nat * str))) with (@pair cursor caps) in H1.
      rewrite H1. cbv zeta.
      assert (Hnl : label_colon (a :: t) = false).
      { apply Ascii.eqb_eq in Ea. subst a.
        unfold label_colon. cbn [runlen]. rewrite caps_refuses_nl. reflexivity. }
      rewrite Hnl.
      destruct (label_colon (skipn 1 (a :: t))); [|reflexivity].
      match goal with |- context [sep_len inline ?x] => destruct (sep_len inline x) end;
        reflexivity.
    + cbn [hd_error]. cbv zeta.
      destruct (label_colon _); [destruct (sep_len _ _)|]; reflexivity.
Qed.

Lemma caps_state_groups (c : cursor) (m : nat * nat * nat * nat) :
  caps_state c m = (adv (caps_total m) c, caps_groups (rest c) m).
Proof. destruct m as [[[o n] sp] k]. reflexivity. Qed.

Lemma content_len_le (s : str) : content_len s <= length s.
Proof.
  induction s as [|a t IH]; [reflexivity|].
  unfold content_len; fold content_len.
  destruct (label_ahead (a :: t)); cbn [length]; lia.
Qed.

Lemma content_len_ahead (s : str) : label_ahead (skipn (content_len s) s) = true.
Proof.
  induction s as [|a t IH]; [reflexivity|].
  unfold content_len; fold content_len.
  destruct (label_ahead (a :: t)) eqn:E; [exact E|exact IH].
Qed.

(** What a match of a caps pattern at the start of [s] is made of. *)
Lemma caps_match_spec (inline : bool) (s : str) (o n sp k : nat) :
  caps_match inline s = Some (o, n, sp, k) ->
  (o = 0 \/ o = 1 /\ exists t, s = nl :: t)
  /\ n = runlen caps_class (skipn o s) /\ 2 <= n
  /\ (exists v, skipn (o + n) s = ":"%char :: v)
  /\ sep_len inline (skipn (o + n + 1) s) = Some sp
  /\ k = content_len (skipn (o + n + 1 + sp) s)
  /\ o + n + 1 + sp + k <= length s.
Proof.
  unfold caps_match.
  set (o' := match s with a :: _ => if Ascii.eqb a nl then 1 else 0 | [] => 0 end).
  assert (Ho : o' = 0 \/ o' = 1 /\ exists t, s = nl :: t).
  { unfold o'. destruct s as [|a t]; [left; reflexivity|].
    destruct (Ascii.eqb a nl) eqn:Ea; [|left; reflexivity].
    apply Ascii.eqb_eq in Ea. subst a. right. split; [reflexivity|]. exists t. reflexivity. }
  clearbody o'.
  destruct (label_colon (skipn o' s)) eqn:Hl; [|discriminate].
  destruct (sep_len inline (skipn (o' + runlen caps_class (skipn o' s) + 1) s)) as [sp'|] eqn:Hs;
    [|discriminate].
  intros H. injection H as <- <- <- <-.
  unfold label_colon in Hl. apply andb_prop in Hl as [Hn Hc].
  apply Nat.leb_le in Hn. apply startswith_app in Hc as [v Hv].
  rewrite skipn_skipn in Hv. rewrite (Nat.add_comm _ o') in Hv.
  split; [exact Ho|]. split; [reflexivity|]. split; [exact Hn|].
  split; [exists v; exact Hv|]. split; [exact Hs|]. split; [reflexivity|].
  set (n := runlen caps_class (skipn o' s)) in *.
  pose proof (content_len_le (skipn (o' + n + 1 + sp') s)) as Hk.
  rewrite length_skipn in Hk.
  assert (H1 : o' + n + 1 <= length s).
  { pose proof (f_equal (@length ascii) Hv) as HL. rewrite length_skipn in HL.
    cbn [length app list_ascii_of_string] in HL. lia. }
  assert (H2 : o' + n + 1 + sp' <= length s).
  { unfold sep_len in Hs.
    destruct (skipn (o' + n + 1) s) as [|a t] eqn:E.
    - destruct inline; [|discriminate]. injection Hs as <-. lia.
    - pose proof (f_equal (@length ascii) E) as HL. rewrite length_skipn in HL.
      cbn [length] in HL.
      destruct inline.
      + injection Hs as <-. destruct (isspace a); lia.
      + destruct (Ascii.eqb a nl); [|discriminate]. injection Hs as <-. lia. }
  lia.
Qed.

(** An attempt of a caps pattern: the match read off the text, whether or
    not an empty match would be refused. *)
Lemma attempt_caps (inline : bool) (ma : bool) (c : cursor) :
  attempt (caps_pattern inline) ma c
  = option_map (caps_state c) (caps_match inline (rest c)).
Proof.
  unfold attempt. pose proof (run_caps_first inline c) as H.
  destruct (run (caps_pattern inline) (c, [])) as [|x l].
  - cbn [hd_error] in H. rewrite <- H. reflexivity.
  - cbn [hd_error] in H. rewrite <- H. cbn [find].
    destruct (caps_match inline (rest c)) as [[[[o n] sp] k]|] eqn:E; [|discriminate].
    cbn [option_map] in H. injection H as ->.
    apply caps_match_spec in E as (_ & _ & Hn & _ & _ & _ & Hlen).
    unfold caps_state. cbn [fst]. rewrite adv_rest, length_skipn.
    replace (length (rest c) - (o + n + 1 + sp + k) <? length (rest c))%nat with true.
    + rewrite orb_true_r. reflexivity.
    + symmetry. apply Nat.ltb_lt. lia.
Qed.

Lemma search_caps (inline : bool) (s : str) :
  forall (ma : bool) (p : option ascii) (sk : str),
    search (caps_pattern inline) ma p sk s
    = match caps_find inline s with
      | None => None
      | Some (i, m) =>
          Some (rev sk ++ firstn i s,
                {| prev := prev_after p (firstn i s); rest := skipn i s |},
                caps_state {| prev := prev_after p (firstn i s); rest := skipn i s |} m)
      end.
Proof.
  induction s as [|a t IH]; intros ma p sk; rewrite search_eq, attempt_caps; cbn [rest].
  - cbn [caps_find]. destruct (caps_match inline []) as [m|]; [|reflexivity].
    cbn [option_map firstn skipn]. rewrite app_nil_r. reflexivity.
  - cbn [caps_find]. destruct (caps_match inline (a :: t)) as [m|].
    + cbn [option_map firstn skipn]. rewrite app_nil_r. reflexivity.
    + cbn [option_map]. rewrite IH.
      destruct (caps_find inline t) as [[i m]|]; [|reflexivity].
      cbn [firstn skipn rev]. rewrite <- app_assoc. reflexivity.
Qed.

Lemma caps_find_some (inline : bool) (s : str) :
  forall i m, caps_find inline s = Some (i, m) ->
              caps_match inline (skipn i s) = Some m /\ i <= length s.
Proof.
  induction s as [|a t IH]; intros i m H; cbn [caps_find] in H.
  - destruct (caps_match inline []) as [m'|] eqn:E; [|discriminate].
    injection H as <- <-. split; [exact E|cbn; lia].
  - destruct (caps_match inline (a :: t)) as [m'|] eqn:E.
    + injection H as <- <-. split; [exact E|cbn; lia].
    + destruct (caps_find inline t) as [[i' m']|] eqn:F; [|discriminate].
      injection H as <- <-. destruct (IH _ _ eq_refl) as [H1 H2].
      split; [exact H1|cbn [length]; lia].
Qed.

Lemma caps_match_total (inline : bool) (s : str) (m : nat * nat * nat * nat) :
  caps_match inline s = Some m -> 3 <= caps_total m <= length s.
Proof.
  destruct m as [[[o n] sp] k]. intros H.
  apply caps_match_spec in H as (_ & _ & Hn & _ & _ & _ & Hlen).
  unfold caps_total. lia.
Qed.

(** The matches the scanner finds with a caps pattern. *)
Lemma scan_caps (inline : bool) (fuel : nat) :
  forall (off : nat) (ma : bool) (c : cursor),
    List.map mt (fst (scan_from (caps_pattern inline) fuel off ma c))
    = caps_scan inline fuel off (rest c).
Proof.
  induction fuel as [|f IH]; intros off ma c; [reflexivity|].
  cbn [scan_from caps_scan]. rewrite search_caps.
  destruct (caps_find inline (rest c)) as [[i m]|] eqn:F; [|reflexivity].
  destruct (caps_find_some _ _ _ _ F) as [Hm Hi].
  destruct (caps_match_total _ _ _ Hm) as [_ Ht].
  rewrite caps_state_groups. cbn [fst snd rest].
  rewrite app_nil_l.
  set (b := {| prev := prev_after (prev c) (firstn i (rest c)); rest := skipn i (rest c) |}).
  rewrite (consumed_adv0 b). cbn [rest b].
  assert (L1 : length (firstn i (rest c)) = i) by (rewrite length_firstn; lia).
  assert (L2 : length (firstn (caps_total m) (skipn i (rest c))) = caps_total m)
    by (rewrite length_firstn; lia).
  rewrite L1, L2.
  match goal with
  | |- context [scan_from ?r f ?o ?a ?x] =>
      pose proof (IH o a x) as IH'; destruct (scan_from r f o a x) as [more tail]
  end.
  cbn [fst] in IH'. cbn [fst List.map mt]. rewrite IH', adv_rest. cbn [rest b].
  rewrite skipn_skipn, (Nat.add_comm (caps_total m) i). reflexivity.
Qed.

Lemma finditer_caps (inline : bool) (text : str) :
  finditer (caps_pattern inline) text = caps_scan inline (2 * length text + 2) 0 text.
Proof. unfold finditer, scan. apply scan_caps. Qed.

(** Every match found is a match of the pattern where it starts. *)
Lemma caps_scan_sound (inline : bool) (fuel : nat) :
  forall (off : nat) (s : str) (m : pymatch),
    In m (caps_scan inline fuel off s) ->
    exists i m4,
      caps_match inline (skipn i s) = Some m4
      /\ m_start m = off + i
      /\ m_end m = off + i + caps_total m4
      /\ m_caps m = caps_groups (skipn i s) m4
      /\ i + caps_total m4 <= length s.
Proof.
  induction fuel as [|f IH]; intros off s m H; [contradiction|].
  cbn [caps_scan] in H.
  destruct (caps_find inline s) as [[i m4]|] eqn:F; [|contradiction].
  destruct (caps_find_some _ _ _ _ F) as [Hm Hi].
  pose proof (caps_match_total _ _ _ Hm) as [_ Ht]. rewrite length_skipn in Ht.
  destruct H as [<-|H].
  - exists i, m4. cbn [m_start m_end m_caps]. repeat split; try reflexivity; [exact Hm|lia].
  - apply IH in H as (i' & m4' & H1 & H2 & H3 & H4 & H5).
    rewrite skipn_skipn in H1, H4. rewrite length_skipn in H5.
    exists (i' + (i + caps_total m4)), m4'.
    split; [exact H1|]. split; [lia|]. split; [lia|]. split; [exact H4|lia].
Qed.

Lemma runlen_app_refused (k : cclass) (a : ascii) (v z : str) :
  accepts k a = false -> runlen k (v ++ a :: z) = runlen k v.
Proof.
  intros Ha. induction v as [|b v IH]; cbn [app runlen].
  - rewrite Ha. reflexivity.
  - destruct (accepts k b); [rewrite IH|]; reflexivity.
Qed.

Lemma runlen_all (k : cclass) (l : str) :
  forallb (accepts k) l = true -> runlen k l = length l.
Proof.
  induction l as [|b l IH]; intros H; [reflexivity|].
  cbn [forallb] in H. apply andb_prop in H as [Hb Hl].
  cbn [runlen length]. rewrite Hb, (IH Hl). reflexivity.
Qed.

Lemma label_colon_entry (l z : str) :
  forallb (accepts caps_class) l = true -> 2 <= length l ->
  label_colon (l ++ ":"%char :: z) = true
  /\ runlen caps_class (l ++ ":"%char :: z) = length l.
Proof.
  intros Hl Hn.
  assert (E : runlen caps_class (l ++ ":"%char :: z) = length l).
  { rewrite (runlen_app_refused _ _ _ _ caps_refuses_colon). apply runlen_all. exact Hl. }
  split; [|exact E]. unfold label_colon. rewrite E.
  replace (length l) with (length l + 0) at 2 by lia.
  rewrite skipn_length_app. cbn [skipn]. apply andb_true_intro. split.
  - apply Nat.leb_le. exact Hn.
  - reflexivity.
Qed.

Lemma startswith_colon_app (v z : str) :
  forall n, n <= length v ->
            startswith ":" (skipn n (v ++ nl :: z)) = startswith ":" (skipn n v).
Proof.
  induction v as [|a v IH]; intros n Hn.
  - cbn [length] in Hn. replace n with 0 by lia. reflexivity.
  - destruct n as [|n]; [reflexivity|].
    cbn [app skipn]. apply IH. cbn [length] in Hn. lia.
Qed.

(** A line feed after [v] does not change whether [v] starts with a label. *)
Lemma label_colon_app_nl (v z : str) : label_colon (v ++ nl :: z) = label_colon v.
Proof.
  unfold label_colon. rewrite (runlen_app_refused _ _ _ _ caps_refuses_nl).
  rewrite startswith_colon_app by apply runlen_le. reflexivity.
Qed.

Lemma content_len_zero (s : str) : label_ahead s = true -> content_len s = 0.
Proof.
  intros H. destruct s as [|a t]; [reflexivity|].
  unfold content_len; fold content_len. rewrite H. reflexivity.
Qed.

Lemma label_ahead_inv (s : str) :
  label_ahead s = true -> s = [] \/ exists z, s = nl :: z /\ label_colon z = true.
Proof.
  destruct s as [|a t]; [left; reflexivity|].
  cbn [label_ahead]. intros H. apply andb_prop in H as [Ha Ht].
  apply Ascii.eqb_eq in Ha. subst a. right. exists t. split; [reflexivity|exact Ht].
Qed.

(** A body without label lines is taken whole. *)
Lemma content_len_body (x R : str) :
  body_ok x = true -> label_ahead R = true -> content_len (x ++ R) = length x.
Proof.
  intros Hx HR. induction x as [|a x IH].
  - apply content_len_zero. exact HR.
  - cbn [body_ok] in Hx. apply andb_prop in Hx as [Ha Hx].
    cbn [app length]. unfold content_len; fold content_len.
    assert (E : label_ahead (a :: x ++ R) = false).
    { cbn [label_ahead].
      assert (El : label_colon (x ++ R) = label_colon x).
      { destruct (label_ahead_inv _ HR) as [->|(z & -> & _)].
        - rewrite app_nil_r. reflexivity.
        - apply label_colon_app_nl. }
      rewrite El. apply negb_true_iff in Ha. exact Ha. }
    rewrite E, (IH Hx). reflexivity.
Qed.

Lemma caps_not_nl (a : ascii) : accepts caps_class a = true -> Ascii.eqb a nl = false.
Proof.
  intros H. destruct (Ascii.eqb a nl) eqn:E; [|reflexivity].
  apply Ascii.eqb_eq in E. subst a. rewrite caps_refuses_nl in H. discriminate.
Qed.

(** The match at the start of an entry in either layout. *)
Lemma caps_match_entry (inline : bool) (pre l x R : str) :
  forallb (accepts caps_class) l = true -> 2 <= length l ->
  body_ok x = true -> label_ahead R = true ->
  pre = [] \/ pre = [nl] ->
  caps_match inline (pre ++ layout_entry inline (l, x) ++ R)
  = Some (length pre, length l, 1, length x)
  /\ caps_groups (pre ++ layout_entry inline (l, x) ++ R)
       (length pre, length l, 1, length x) = [(2, x); (1, l)].
Proof.
  intros Hl Hn Hx HR Hpre.
  unfold layout_entry. cbn [fst snd].
  set (sepc := if inline then " "%char else nl).
  set (s' := (l ++ ":"%char :: sepc :: x) ++ R).
  assert (Es : s' = l ++ ":"%char :: sepc :: x ++ R).
  { unfold s'. rewrite <- app_assoc. reflexivity. }
  clearbody s'.
  destruct (label_colon_entry l (sepc :: x ++ R) Hl Hn) as [Hlc Hrl].
  rewrite <- Es in Hlc, Hrl.
  assert (S1 : skipn (length l + 1) s' = sepc :: x ++ R).
  { rewrite Es, skipn_length_app. reflexivity. }
  assert (S2 : skipn (length l + 1 + 1) s' = x ++ R).
  { rewrite Es. replace (length l + 1 + 1) with (length l + 2) by lia.
    rewrite skipn_length_app. reflexivity. }
  assert (Hsep : sep_len inline (sepc :: x ++ R) = Some 1).
  { unfold sepc. destruct inline; reflexivity. }
  assert (F1 : firstn (length l) s' = l) by (rewrite Es; apply firstn_length_app).
  assert (F2 : firstn (length x) (x ++ R) = x) by apply firstn_length_app.
  destruct Hpre as [-> | ->].
  - cbn [app length]. unfold caps_match.
    assert (Eo : match s' with a :: _ => if Ascii.eqb a nl then 1 else 0 | [] => 0 end = 0).
    { rewrite Es. destruct l as [|a l']; [cbn in Hn; lia|].
      cbn [forallb] in Hl. apply andb_prop in Hl as [Ha _].
      cbn [app]. rewrite (caps_not_nl a Ha). reflexivity. }
    rewrite Eo. cbv zeta. cbn [Nat.add]. rewrite !skipn_O, Hlc, Hrl, S1, Hsep, S2.
    rewrite (content_len_body x R Hx HR). split; [reflexivity|].
    unfold caps_groups. cbn [Nat.add]. rewrite skipn_O, S2, F1, F2. reflexivity.
  - cbn [app length]. unfold caps_match. cbv zeta.
    change (Ascii.eqb nl nl) with true. cbv iota. cbn [skipn Nat.add].
    rewrite !skipn_O, Hlc, Hrl, S1, Hsep, S2.
    rewrite (content_len_body x R Hx HR). split; [reflexivity|].
    unfold caps_groups. cbn [skipn Nat.add]. rewrite skipn_O, S2, F1, F2. reflexivity.
Qed.

Lemma caps_find_hit (inline : bool) (s : str) (m : nat * nat * nat * nat) :
  caps_match inline s = Some m -> caps_find inline s = Some (0, m).
Proof. intros H. destruct s; cbn [caps_find]; rewrite H; reflexivity. Qed.

Lemma caps_scan_nil (inline : bool) (fuel off : nat) : caps_scan inline fuel off [] = [].
Proof. destruct fuel, inline; reflexivity. Qed.

Lemma label_ahead_layout (inline : bool) (t : list (str * str)) :
  Forall entry_ok t ->
  label_ahead (match t with [] => [] | _ :: _ => nl :: layout inline t end) = true.
Proof.
  intros H. destruct t as [|[l x] t']; [reflexivity|].
  apply Forall_inv in H. destruct H as (Hl & Hn & _). cbn [fst snd] in Hl, Hn.
  cbn [label_ahead layout]. change (Ascii.eqb nl nl) with true. cbn [andb].
  unfold layout_entry. cbn [fst snd]. rewrite <- app_assoc. cbn [app].
  apply (label_colon_entry l _ Hl Hn).
Qed.

(** The groups of the matches found in a laid-out transcript: one match for
    each entry, holding its label and its body. *)
Lemma caps_scan_layout (inline : bool) (t : list (str * str)) :
  forall (fuel off : nat) (pre : str),
    Forall entry_ok t -> t <> [] -> length t < fuel ->
    pre = [] \/ pre = [nl] ->
    List.map m_caps (caps_scan inline fuel off (pre ++ layout inline t))
    = List.map (fun e => [(2, snd e); (1, fst e)]) t.
Proof.
  induction t as [|[l x] t' IH]; intros fuel off pre Hok Hne Hfuel Hpre;
    [contradiction|].
  destruct fuel as [|f]; [lia|].
  pose proof (label_ahead_layout inline t' (Forall_inv_tail Hok)) as HR.
  apply Forall_inv in Hok as Hhd. destruct Hhd as (Hl & Hn & Hx).
  cbn [fst snd] in Hl, Hn, Hx.
  cbn [layout].
  set (R := match t' with [] => [] | _ :: _ => nl :: layout inline t' end) in *.
  destruct (caps_match_entry inline pre l x R Hl Hn Hx HR Hpre) as [Hm Hg].
  cbn [caps_scan]. rewrite (caps_find_hit _ _ _ Hm).
  cbn [List.map m_caps fst snd]. rewrite skipn_O, Hg. f_equal.
  assert (Etot : caps_total (length pre, length l, 1, length x)
                 = length (pre ++ layout_entry inline (l, x))).
  { unfold caps_total, layout_entry. cbn [fst snd].
    rewrite !length_app. cbn [length]. lia. }
  rewrite Nat.add_0_l, Etot, app_assoc.
  replace (length (pre ++ layout_entry inline (l, x)))
    with (length (pre ++ layout_entry inline (l, x)) + 0) at 2 by lia.
  rewrite skipn_length_app. cbn [skipn].
  unfold R. destruct t' as [|e t''].
  - rewrite caps_scan_nil. reflexivity.
  - change (nl :: layout inline (e :: t'')) with ([nl] ++ layout inline (e :: t'')).
    apply IH.
    + apply (Forall_inv_tail Hok).
    + discriminate.
    + cbn [length] in Hfuel |- *. lia.
    + right. reflexivity.
Qed.

Lemma layout_length (inline : bool) (t : list (str * str)) :
  length t <= length (layout inline t).
Proof.
  induction t as [|e t IH]; [reflexivity|].
  cbn [layout length]. rewrite length_app. unfold layout_entry.
  rewrite length_app. cbn [length]. destruct t; cbn [length] in *; lia.
Qed.

Lemma finditer_layout (inline : bool) (t : list (str * str)) :
  Forall entry_ok t ->
  List.map m_caps (finditer (caps_pattern inline) (layout inline t))
  = List.map (fun e => [(2, snd e); (1, fst e)]) t.
Proof.
  intros Hok. rewrite finditer_caps. destruct t as [|e t'].
  - cbn [layout List.map]. rewrite caps_scan_nil. reflexivity.
  - apply (caps_scan_layout inline (e :: t') _ 0 [] Hok); [discriminate| |left; reflexivity].
    pose proof (layout_length inline (e :: t')). lia.
Qed.

(** The records depend on the groups of the matches only. *)
Lemma rows_of_groups (d : str) (l1 : list pymatch) :
  forall (l2 : list pymatch) (i : nat),
    List.map m_caps l1 = List.map m_caps l2 ->
    List.map (fun im : nat * pymatch =>
           {| utterance_id := UidStr (d ++ "_" ++ str_of_nat (fst im + 1));
              debate_id := d;
              speaker := strip (group_text 1 (snd im));
              text := replace [nl] " " (strip (group_text 2 (snd im))) |})
        (enumerate_from i l1)
    = List.map (fun im : nat * pymatch =>
           {| utterance_id := UidStr (d ++ "_" ++ str_of_nat (fst im + 1));
              debate_id := d;
              speaker := strip (group_text 1 (snd im));
              text := replace [nl] " " (strip (group_text 2 (snd im))) |})
        (enumerate_from i l2).
Proof.
  induction l1 as [|m1 l1 IH]; intros l2 i H; destruct l2 as [|m2 l2];
    try discriminate; [reflexivity|].
  cbn [List.map] in H. injection H as Hm Ht.
  cbn [enumerate_from List.map fst snd]. unfold group_text. rewrite Hm.
  f_equal. apply IH. exact Ht.
Qed.

Lemma parse_regex_format_rows (file_text : str) (pattern : regex) (d : str) :
  List.map (fun u => (speaker u, text u)) (parse_regex_format file_text pattern d)
  = List.map caps_row (finditer pattern file_text).
Proof.
  unfold parse_regex_format. rewrite List.map_map. cbn [speaker text].
  transitivity (List.map caps_row
                  (List.map snd (enumerate_from 0 (finditer pattern file_text)))).
  - rewrite List.map_map. reflexivity.
  - rewrite enumerate_snd. reflexivity.
Qed.

Lemma caps_rows_of_groups (ms : list pymatch) :
  forall t : list (str * str),
    List.map m_caps ms = List.map (fun e => [(2, snd e); (1, fst e)]) t ->
    List.map caps_row ms
    = List.map (fun e => (strip (fst e), replace [nl] " " (strip (snd e)))) t.
Proof.
  induction ms as [|m ms IH]; intros t H; destruct t as [|e t]; try discriminate;
    [reflexivity|].
  cbn [List.map] in H. injection H as Hm Ht.
  cbn [List.map]. f_equal; [|apply IH; exact Ht].
  unfold caps_row, group_text. rewrite Hm. reflexivity.
Qed.

(** C6. A transcript of (label, body) entries, laid out with each body on
    the line of its label and segmented as inline caps, and laid out with
    each body from the line after its label on and segmented as newline caps,
    gives the same records; their (speaker, text) pairs are the stripped
    label and the stripped body, line feeds replaced by spaces, of each entry
    in order. The labels are made of at least two capitals or spaces and no
    body holds a line, after its first, that starts with a label and a
    colon. *)
Theorem caps_layouts_agree (t : list (str * str)) (d : str) :
  Forall entry_ok t ->
  parse_regex_format (layout true t) all_caps_inline d
  = parse_regex_format (layout false t) all_caps_newline d
  /\ List.map (fun u => (speaker u, text u))
       (parse_regex_format (layout true t) all_caps_inline d)
     = List.map (fun e => (strip (fst e), replace [nl] " " (strip (snd e)))) t.
Proof.
  intros Hok. rewrite caps_pattern_inline, caps_pattern_newline. split.
  - unfold parse_regex_format. apply rows_of_groups.
    rewrite !finditer_layout by exact Hok. reflexivity.
  - rewrite parse_regex_format_rows. apply caps_rows_of_groups.
    apply finditer_layout. exact Hok.
Qed.

Lemma caps_layouts_agree_witness :
  parse_regex_format (layout true sample_entries) all_caps_inline "d"
  = parse_regex_format (layout false sample_entries) all_caps_newline "d"
  /\ List.map (fun u => (speaker u, text u))
       (parse_regex_format (layout true sample_entries) all_caps_inline "d")
     = List.map (fun e => (strip (fst e), replace [nl] " " (strip (snd e)))) sample_entries.
Proof.
  apply (caps_layouts_agree sample_entries "d").
  unfold sample_entries.
  repeat (apply List.Forall_cons;
          [unfold entry_ok; cbn [fst snd];
           split; [vm_compute; reflexivity|
                   split; [vm_compute; lia|vm_compute; reflexivity]]|]).
  apply List.Forall_nil.
Defined.

Lemma group_caps_groups (s : str) (o n sp k : nat) :
  group 1 (caps_groups s (o, n, sp, k)) = Some (firstn n (skipn o s))
  /\ group 2 (caps_groups s (o, n, sp, k)) = Some (firstn k (skipn (o + n + 1 + sp) s)).
Proof. split; reflexivity. Qed.

(** The label of a match: at least two capitals or spaces, before a colon. *)
Lemma caps_label_shape (inline : bool) (file_text : str) (m : pymatch) :
  In m (finditer (caps_pattern inline) file_text) ->
  exists l u v,
    group 1 (m_caps m) = Some l
    /\ 2 <= length l
    /\ forallb (accepts caps_class) l = true
    /\ file_text = u ++ l ++ ":"%char :: v
    /\ m_start m <= length u <= m_start m + 1.
Proof.
  rewrite finditer_caps. intros H.
  apply caps_scan_sound in H as (i & [[[o n] sp] k] & Hm & Hs & _ & Hc & Hlen).
  cbn [Nat.add] in Hs.
  apply caps_match_spec in Hm as (Ho & Hn & Hn2 & (v & Hv) & _ & _ & _).
  unfold caps_total in Hlen.
  destruct (runlen_firstn caps_class (skipn o (skipn i file_text)) n ltac:(lia)) as [Hf Hl].
  exists (firstn n (skipn o (skipn i file_text))), (firstn (i + o) file_text), v.
  rewrite Hc. split; [apply group_caps_groups|]. split; [lia|]. split; [exact Hf|].
  split.
  - rewrite <- (firstn_skipn (i + o) file_text) at 1. f_equal.
    rewrite skipn_skipn, (Nat.add_comm o i).
    rewrite <- (firstn_skipn n (skipn (i + o) file_text)) at 1. f_equal.
    rewrite !skipn_skipn in Hv |- *. rewrite <- Hv. f_equal. lia.
  - rewrite length_firstn. destruct Ho as [->|[-> _]]; lia.
Qed.

Lemma runlen_short (q : ascii) (z : str) : runlen caps_class (q :: ":"%char :: z) <= 1.
Proof.
  cbn [runlen]. rewrite caps_refuses_colon. destruct (accepts caps_class q); lia.
Qed.

(** No match starts at a one-character label, nor at the line feed before. *)
Lemma short_label_no_match (inline : bool) (q : ascii) (z : str) :
  caps_match inline (q :: ":"%char :: z) = None
  /\ caps_match inline (nl :: q :: ":"%char :: z) = None.
Proof.
  split.
  - destruct (caps_match inline _) as [[[[o n] sp] k]|] eqn:E; [|reflexivity].
    exfalso. apply caps_match_spec in E as (Ho & Hn & Hn2 & _).
    destruct Ho as [->|[-> (t & Ht)]].
    + rewrite skipn_O in Hn. pose proof (runlen_short q z). lia.
    + injection Ht as -> _. cbn [skipn runlen] in Hn.
      rewrite caps_refuses_colon in Hn. lia.
  - destruct (caps_match inline _) as [[[[o n] sp] k]|] eqn:E; [|reflexivity].
    exfalso. apply caps_match_spec in E as (Ho & Hn & Hn2 & _).
    destruct Ho as [->|[-> _]].
    + rewrite skipn_O in Hn. cbn [runlen] in Hn. rewrite caps_refuses_nl in Hn. lia.
    + change (skipn 1 (nl :: q :: ":"%char :: z)) with (q :: ":"%char :: z) in Hn.
      pose proof (runlen_short q z). lia.
Qed.

Lemma skipn_exact {A} (a b : list A) : skipn (length a) (a ++ b) = b.
Proof.
  replace (length a) with (length a + 0) by lia. rewrite skipn_length_app. reflexivity.
Qed.

Lemma short_label_never_starts (inline : bool) (file_text pre post r : str) (q : ascii)
    (m : pymatch) :
  line_in file_text pre (q :: ":"%char :: r) post ->
  In m (finditer (caps_pattern inline) file_text) ->
  m_start m <> length pre /\ S (m_start m) <> length pre.
Proof.
  intros (Ht & Hpre & _ & _). rewrite finditer_caps. intros H.
  apply caps_scan_sound in H as (i & m4 & Hm & Hs & _).
  cbn [Nat.add] in Hs. rewrite Hs. clear Hs. split; intros E.
  - rewrite E, Ht, skipn_exact in Hm. cbn [app] in Hm.
    rewrite (proj1 (short_label_no_match inline q (r ++ post))) in Hm. discriminate.
  - destruct Hpre as [->|(u & ->)]; [cbn in E; lia|].
    rewrite length_app in E. cbn [length] in E.
    assert (Ei : i = length u) by lia.
    rewrite Ei, Ht, <- app_assoc, skipn_exact in Hm. cbn [app] in Hm.
    rewrite (proj2 (short_label_no_match inline q (r ++ post))) in Hm. discriminate.
Qed.

(** A line without line feed is passed whole by the lazy body once the
    body has entered it. *)
Lemma content_len_line (L P : str) :
  ~ In nl L -> content_len (L ++ P) = 0 \/ length L <= content_len (L ++ P).
Proof.
  induction L as [|a L IH]; intros Hnl; [right; cbn; lia|].
  cbn [app]. unfold content_len; fold content_len.
  destruct (label_ahead (a :: L ++ P)); [left; reflexivity|]. right.
  assert (HL : ~ In nl L) by (intros H; apply Hnl; right; exact H).
  destruct (IH HL) as [E|E]; [|cbn [length]; lia].
  destruct L as [|b L']; [cbn [length]; lia|].
  exfalso. cbn [app] in E. unfold content_len in E; fold content_len in E.
  assert (Hb : label_ahead (b :: L' ++ P) = false).
  { cbn [label_ahead]. destruct (Ascii.eqb b nl) eqn:Eb; [|reflexivity].
    apply Ascii.eqb_eq in Eb. subst b. exfalso. apply HL. left. reflexivity. }
  rewrite Hb in E. discriminate.
Qed.

Lemma content_len_skip (U L P : str) :
  ~ In nl L ->
  length U < content_len (U ++ L ++ P) ->
  length U + length L <= content_len (U ++ L ++ P).
Proof.
  intros Hnl. induction U as [|a U IH]; intros H.
  - cbn [app length] in *. destruct (content_len_line L P Hnl); lia.
  - cbn [app length] in *. unfold content_len in *; fold content_len in *.
    destruct (label_ahead (a :: U ++ L ++ P)); [lia|].
    specialize (IH ltac:(lia)). lia.
Qed.

Lemma sep_len_le (inline : bool) (s : str) (sp : nat) :
  sep_len inline s = Some sp -> sp <= 1.
Proof.
  unfold sep_len. destruct s as [|a t], inline; intros H; try discriminate.
  - injection H as <-. lia.
  - injection H as <-. destruct (isspace a); lia.
  - destruct (Ascii.eqb a nl); [injection H as <-; lia|discriminate].
Qed.

(** A match that starts before a line and ends after the start of the line
    holds the whole line in its body. *)
Lemma line_inside_body (inline : bool) (file_text pre line post : str) (m : pymatch) :
  line_in file_text pre line post ->
  In m (finditer (caps_pattern inline) file_text) ->
  S (m_start m) <> length pre \/ caps_match inline (nl :: line ++ post) = None ->
  m_start m < length pre < m_end m ->
  exists u w, group 2 (m_caps m) = Some (u ++ line ++ w)
              /\ m_end m = length pre + length line + length w.
Proof.
  intros (Ht & Hpre & Hnl & _). rewrite finditer_caps. intros H Hstart [Hlo Hhi].
  apply caps_scan_sound in H as (i & [[[o n] sp] k] & Hm & Hs & He & Hc & Hlen).
  cbn [Nat.add] in Hs, He. rewrite Hs in *. rewrite He in *. clear Hs He.
  destruct Hpre as [->|(u0 & ->)]; [cbn in Hlo; lia|].
  rewrite length_app in *. cbn [length] in *.
  assert (Hat : skipn (length u0) file_text = nl :: line ++ post).
  { rewrite Ht, <- app_assoc, skipn_exact. reflexivity. }
  assert (Hstart' : i = length u0 -> False).
  { intros ->. destruct Hstart as [Hs|Hs]; [lia|].
    rewrite Hat, Hs in Hm. discriminate. }
  pose proof Hm as Hspec.
  apply caps_match_spec in Hspec as (Ho & Hn & Hn2 & (v & Hv) & Hsp & Hk & Htot).
  unfold caps_total in *.
  pose proof (sep_len_le _ _ _ Hsp) as Hsp1.
  (* the header ends before the line *)
  assert (HA : i + (o + n + 1 + sp) <= length u0 + 1).
  { destruct (Nat.le_gt_cases (i + (o + n + 1 + sp)) (length u0 + 1)) as [Hle|Hgt];
      [exact Hle|exfalso].
    assert (Hj : exists j, length u0 = j + i /\ j < o + n + 1) by (exists (length u0 - i); lia).
    destruct Hj as (j & Ej & Hj).
    assert (Hsk : skipn j (skipn i file_text) = nl :: line ++ post).
    { rewrite skipn_skipn, <- Ej. exact Hat. }
    destruct (Nat.lt_ge_cases j o) as [Hjo|Hjo].
    - assert (j = 0) by (destruct Ho as [->|[-> _]]; lia). subst j.
      apply Hstart'. lia.
    - destruct (Nat.lt_ge_cases j (o + n)) as [Hjn|Hjn].
      + destruct (runlen_skipn caps_class (skipn o (skipn i file_text)) (j - o)
                    ltac:(lia)) as (b & t & Eb & Hb).
        rewrite skipn_skipn in Eb. replace (j - o + o) with j in Eb by lia.
        rewrite Hsk in Eb. injection Eb as <- _.
        rewrite caps_refuses_nl in Hb. discriminate.
      + assert (j = o + n) by lia. subst j. rewrite Hv in Hsk. discriminate. }
  (* the body reaches the end of the line *)
  set (h := o + n + 1 + sp) in *.
  set (U := skipn (i + h) (u0 ++ [nl])).
  assert (HU : length U = length u0 + 1 - (i + h)).
  { unfold U. rewrite length_skipn, length_app. cbn [length]. lia. }
  assert (Hz : skipn h (skipn i file_text) = U ++ line ++ post).
  { rewrite skipn_skipn, (Nat.add_comm h i), Ht, skipn_app.
    rewrite length_app. cbn [length].
    replace (i + h - (length u0 + 1)) with 0 by lia. reflexivity. }
  rewrite Hz in Hk.
  assert (Hin : length U < k) by lia.
  rewrite Hk in Hin. pose proof (content_len_skip U line post Hnl Hin) as Hline.
  rewrite <- Hk in Hline.
  assert (Hkl : k <= length (U ++ line ++ post)).
  { rewrite Hk. apply content_len_le. }
  rewrite !length_app in Hkl.
  exists U, (firstn (k - length U - length line) post).
  rewrite Hc. split.
  - rewrite (proj2 (group_caps_groups _ o n sp k)). fold h. rewrite Hz. f_equal.
    rewrite firstn_app, (firstn_all2 U) by lia. f_equal.
    rewrite firstn_app, (firstn_all2 line) by lia. reflexivity.
  - rewrite length_firstn. lia.
Qed.

Lemma caps_match_ahead_inline (s : str) :
  label_ahead s = true -> s <> [] -> exists m4, caps_match true s = Some m4.
Proof.
  intros H Hne. destruct (label_ahead_inv _ H) as [->|(z & -> & Hz)]; [contradiction|].
  unfold caps_match. change (Ascii.eqb nl nl) with true. cbv iota zeta.
  change (skipn 1 (nl :: z)) with z. rewrite Hz.
  destruct (sep_len true _) as [sp|] eqn:E; [eexists; reflexivity|].
  unfold sep_len in E. destruct (skipn _ _); discriminate.
Qed.

Lemma label_ahead_after (inline : bool) (s : str) (m4 : nat * nat * nat * nat) :
  caps_match inline s = Some m4 -> label_ahead (skipn (caps_total m4) s) = true.
Proof.
  destruct m4 as [[[o n] sp] k]. intros H.
  apply caps_match_spec in H as (_ & _ & _ & _ & _ & Hk & _).
  unfold caps_total. rewrite (Nat.add_comm _ k), <- skipn_skipn, Hk.
  apply content_len_ahead.
Qed.

(** In the inline format the matches tile the text from a label on. *)
Lemma inline_tiling (fuel : nat) :
  forall (off : nat) (s : str) (p : nat),
    label_ahead s = true -> length s < fuel -> off <= p < off + length s ->
    exists m, In m (caps_scan true fuel off s) /\ m_start m <= p < m_end m.
Proof.
  induction fuel as [|f IH]; intros off s p Ha Hf Hp; [lia|].
  assert (Hne : s <> []) by (intros ->; cbn in Hp; lia).
  destruct (caps_match_ahead_inline s Ha Hne) as (m4 & Hm).
  cbn [caps_scan]. rewrite (caps_find_hit _ _ _ Hm).
  pose proof (caps_match_total _ _ _ Hm) as [Hlo Hhi].
  destruct (Nat.lt_ge_cases p (off + caps_total m4)) as [Hin|Hout].
  - eexists. split; [left; reflexivity|]. cbn [m_start m_end]. lia.
  - destruct (IH (off + 0 + caps_total m4) (skipn (0 + caps_total m4) s) p) as (m & Hm1 & Hm2).
    + apply (label_ahead_after true). exact Hm.
    + rewrite length_skipn. lia.
    + rewrite length_skipn. lia.
    + exists m. split; [right; exact Hm1|exact Hm2].
Qed.

Lemma inline_reaches_line (file_text pre post r : str) (q : ascii) (m0 : pymatch) :
  line_in file_text pre (q :: ":"%char :: r) post ->
  In m0 (finditer (caps_pattern true) file_text) ->
  m_start m0 < length pre ->
  exists m, In m (finditer (caps_pattern true) file_text)
            /\ m_start m < length pre < m_end m.
Proof.
  intros Hline H0 Hlt.
  assert (Hcover : exists m, In m (finditer (caps_pattern true) file_text)
                             /\ m_start m <= length pre < m_end m).
  { revert H0. rewrite finditer_caps.
    change (2 * length file_text + 2) with (2 * length file_text + 2).
    replace (2 * length file_text + 2) with (S (2 * length file_text + 1)) by lia.
    cbn [caps_scan].
    destruct (caps_find true file_text) as [[i m4]|] eqn:F; [|contradiction].
    destruct (caps_find_some _ _ _ _ F) as [Hm Hi].
    pose proof (caps_match_total _ _ _ Hm) as [Hlo Hhi]. rewrite length_skipn in Hhi.
    intros H0.
    assert (Hi0 : i <= m_start m0).
    { destruct H0 as [<-|H0]; [cbn [m_start]; lia|].
      apply caps_scan_sound in H0 as (i' & _ & _ & Hs & _). lia. }
    assert (Hlen : length pre + 2 <= length file_text).
    { destruct Hline as (-> & _). rewrite !length_app. cbn [length]. lia. }
    destruct (Nat.lt_ge_cases (length pre) (i + caps_total m4)) as [Hin|Hout].
    - eexists. split; [left; reflexivity|]. cbn [m_start m_end]. lia.
    - destruct (inline_tiling (2 * length file_text + 1) (0 + i + caps_total m4)
                  (skipn (i + caps_total m4) file_text) (length pre))
        as (m & Hm1 & Hm2).
      + rewrite (Nat.add_comm i), <- skipn_skipn. apply (label_ahead_after true). exact Hm.
      + rewrite length_skipn. lia.
      + rewrite length_skipn. lia.
      + exists m. split; [right; exact Hm1|exact Hm2]. }
  destruct Hcover as (m & Hin & Hlo & Hhi).
  exists m. split; [exact Hin|].
  destruct (short_label_never_starts true _ _ _ _ _ m Hline Hin) as [Hne _]. lia.
Qed.

Lemma caps_format_pattern (inline : bool) : caps_format inline = caps_pattern inline.
Proof. destruct inline; reflexivity. Qed.

(** X6. In both caps formats each match makes one record, and the label of
    a match is made of at least two capitals or spaces that stand before a
    colon. So at a line that begins with one character and a colon no match
    starts, neither at its first character nor at the line feed before it; a
    match that starts before the line and ends after the start of the line
    holds the whole line in its body; and in the inline format, once a match
    starts before the line, some match does reach it. *)
Theorem short_label_line_absorbed (inline : bool) (file_text pre post r d : str)
    (q : ascii) :
  line_in file_text pre (q :: ":"%char :: r) post ->
  List.map (fun u => (speaker u, text u))
    (parse_regex_format file_text (caps_format inline) d)
  = List.map caps_row (finditer (caps_format inline) file_text)
  /\ (forall m, In m (finditer (caps_format inline) file_text) ->
        exists l u v,
          group 1 (m_caps m) = Some l /\ 2 <= length l
          /\ forallb (accepts caps_class) l = true
          /\ file_text = u ++ l ++ ":"%char :: v
          /\ m_start m <= length u <= m_start m + 1)
  /\ (forall m, In m (finditer (caps_format inline) file_text) ->
        m_start m <> length pre /\ S (m_start m) <> length pre)
  /\ (forall m, In m (finditer (caps_format inline) file_text) ->
        m_start m < length pre < m_end m ->
        exists u w,
          group 2 (m_caps m) = Some (u ++ (q :: ":"%char :: r) ++ w)
          /\ m_end m = length pre + length (q :: ":"%char :: r) + length w)
  /\ (inline = true ->
      forall m0, In m0 (finditer (caps_format inline) file_text) ->
                 m_start m0 < length pre ->
                 exists m, In m (finditer (caps_format inline) file_text)
                           /\ m_start m < length pre < m_end m).
Proof.
  intros Hline. rewrite caps_format_pattern.
  split; [apply parse_regex_format_rows|].
  split; [intros m; apply caps_label_shape|].
  split; [intros m; apply (short_label_never_starts inline _ _ _ _ _ m Hline)|].
  split.
  - intros m Hin. apply (line_inside_body inline _ _ _ _ m Hline Hin).
    right. apply (short_label_no_match inline q (r ++ post)).
  - intros ->. intros m0. apply (inline_reaches_line _ _ _ _ _ m0 Hline).
Qed.

Lemma short_label_line_absorbed_witness :
  line_in kept_line_text kept_line_pre ("Q"%char :: ":"%char :: " y") (nl :: "CD: z")
  /\ exists m, In m (finditer (caps_format true) kept_line_text)
               /\ m_start m < length kept_line_pre < m_end m.
Proof.
  assert (L : line_in kept_line_text kept_line_pre ("Q"%char :: ":"%char :: " y")
                (nl :: "CD: z")).
  { split; [reflexivity|]. split; [right; exists "AB: hello"; reflexivity|].
    split; [|right; exists ("CD: z" : str); reflexivity].
    cbn. intros H. decompose [or] H; first [discriminate|contradiction]. }
  split; [exact L|].
  apply (proj2 (proj2 (proj2 (proj2
           (short_label_line_absorbed true _ _ _ _ "d" _ L)))) eq_refl
           {| m_start := 0; m_end := 14;
              m_text := "AB: hello" ++ [nl] ++ "Q: y";
              m_caps := [(2, "hello" ++ [nl] ++ "Q: y"); (1, "AB" : str)] |}).
  - vm_compute. left. reflexivity.
  - vm_compute. lia.
Defined.

(** C10. In the newline format a line with a one-character label can be
    lost after an utterance has started: the lookahead ends the body of
    ["AB"] before the line ["CD: x"], where the pattern, which wants a line
    feed after the colon, starts no match, and the rest of the text,
    ["Q: y"] included, is in no record. The inline pattern on the same text
    takes ["CD: x"] as a label line and keeps ["Q: y"] in its body. And a
    label is not tied to the start of a line: in ["Q: AB: z"] the record of
    ["AB"] starts inside the line of ["Q:"]. *)
Theorem single_letter_line_lost :
  parse_regex_format
    ("AB:" ++ [nl] ++ "hello" ++ [nl] ++ "CD: x" ++ [nl] ++ "Q: y" ++ [nl])
    all_caps_newline "d"
  = [ {| utterance_id := UidStr "d_1"; debate_id := "d"; speaker := "AB";
         text := "hello" |} ]
  /\ parse_regex_format
       ("AB:" ++ [nl] ++ "hello" ++ [nl] ++ "CD: x" ++ [nl] ++ "Q: y" ++ [nl])
       all_caps_inline "d"
     = [ {| utterance_id := UidStr "d_1"; debate_id := "d"; speaker := "AB";
            text := "hello" |};
         {| utterance_id := UidStr "d_2"; debate_id := "d"; speaker := "CD";
            text := "x Q: y" |} ]
  /\ parse_regex_format "Q: AB: z" all_caps_inline "d"
     = [ {| utterance_id := UidStr "d_1"; debate_id := "d"; speaker := "AB";
            text := "z" |} ].
Proof. vm_compute. repeat split; reflexivity. Qed.

(** ** File names, parties and labels *)

Lemma replace_char (a : ascii) (new s : str) :
  replace [a] new s = flat_map (fun c => if Ascii.eqb a c then new else [c]) s.
Proof.
  unfold replace. induction s as [|c t IH]; [reflexivity|].
  cbn [replace_from startswith flat_map length Nat.sub].
  destruct (Ascii.eqb a c); cbn [andb]; rewrite IH; reflexivity.
Qed.

Lemma flat_map_flat_map {A B C} (f : B -> list C) (g : A -> list B) (l : list A) :
  flat_map f (flat_map g l) = flat_map (fun x => flat_map f (g x)) l.
Proof.
  induction l as [|x l IH]; [reflexivity|].
  cbn [flat_map]. rewrite flat_map_app, IH. reflexivity.
Qed.

Lemma sanitize_flat_map (text : str) :
  ExtractDebates.sanitize text = flat_map sanitize_char text.
Proof.
  unfold ExtractDebates.sanitize.
  change (list_ascii_of_string "/") with ["/"%char].
  change (list_ascii_of_string ",") with [","%char].
  change (list_ascii_of_string ".") with ["."%char].
  change (list_ascii_of_string " ") with [" "%char].
  rewrite !replace_char, !flat_map_flat_map.
  apply flat_map_ext. intros c. unfold sanitize_char.
  rewrite !(Ascii.eqb_sym c).
  destruct (Ascii.eqb_spec " " c) as [<-|H1]; [reflexivity|]. cbn [flat_map app orb].
  destruct (Ascii.eqb_spec "." c) as [<-|H2]; [reflexivity|]. cbn [flat_map app orb].
  destruct (Ascii.eqb_spec "," c) as [<-|H3]; [reflexivity|]. cbn [flat_map app orb].
  destruct (Ascii.eqb_spec "/" c) as [<-|H4]; reflexivity.
Qed.

Lemma sanitize_char_clean (c d : ascii) :
  In d (sanitize_char c) ->
  d <> " "%char /\ d <> "."%char /\ d <> ","%char /\ d <> "/"%char.
Proof.
  unfold sanitize_char.
  destruct (Ascii.eqb_spec c " ") as [->|H1]; [intros []|].
  destruct (Ascii.eqb_spec c ".") as [->|H2]; [intros []|].
  destruct (Ascii.eqb_spec c ",") as [->|H3]; [intros []|].
  cbn [orb].
  destruct (Ascii.eqb_spec c "/") as [->|H4].
  - intros [<-|[]]. repeat split; discriminate.
  - intros [<-|[]]. repeat split; assumption.
Qed.

Lemma sanitize_fixed (s : str) :
  (forall c, In c s -> c <> " "%char /\ c <> "."%char /\ c <> ","%char /\ c <> "/"%char) ->
  flat_map sanitize_char s = s.
Proof.
  induction s as [|d l IH]; intros H; [reflexivity|].
  cbn [flat_map]. rewrite IH by (intros e He; apply H; right; exact He).
  destruct (H d (or_introl eq_refl)) as (H1 & H2 & H3 & H4).
  unfold sanitize_char.
  rewrite (proj2 (Ascii.eqb_neq _ _) H1), (proj2 (Ascii.eqb_neq _ _) H2),
    (proj2 (Ascii.eqb_neq _ _) H3), (proj2 (Ascii.eqb_neq _ _) H4).
  reflexivity.
Qed.

(** X1. [sanitize] works character by character: spaces, periods and commas
    go, a slash becomes an underscore, everything else stays. So its result
    holds none of the four characters and a second pass changes nothing. *)
Theorem sanitize_removes_separators (text : str) :
  ExtractDebates.sanitize text = flat_map sanitize_char text
  /\ (forall c, In c (ExtractDebates.sanitize text) ->
                c <> " "%char /\ c <> "."%char /\ c <> ","%char /\ c <> "/"%char)
  /\ ExtractDebates.sanitize (ExtractDebates.sanitize text) = ExtractDebates.sanitize text.
Proof.
  split; [apply sanitize_flat_map|]. split.
  - intros c. rewrite sanitize_flat_map, in_flat_map.
    intros (x & _ & H). apply (sanitize_char_clean x c H).
  - rewrite (sanitize_flat_map (ExtractDebates.sanitize text)).
    apply sanitize_fixed. intros c. rewrite sanitize_flat_map, in_flat_map.
    intros (x & _ & H). apply (sanitize_char_clean x c H).
Qed.






(** ** Parties *)


Lemma contains_nil (s : str) : contains [] s = true.
Proof. destruct s; reflexivity. Qed.

Lemma lower_nil_iff (s : str) : lower s = [] <-> s = [].
Proof. destruct s; split; intros H; try reflexivity; discriminate. Qed.

Lemma eqb_nil_false (s : str) : s <> [] -> eqb s [] = false.
Proof. intros H. unfold eqb. apply bool_decide_eq_false. exact H. Qed.

(** X4. [get_winner_party] answers Republican as soon as the winner's name,
    stripped and lowered, occurs in the Republican candidate's, whatever the
    other columns hold; a blank winner occurs in every name, so a debate
    without a winner is Republican when the Republican column is not blank.
    The answer is always one of the three parties or the empty string. *)
Theorem winner_party_first_match (row : MergeCleanedUtterances.meta_row) :
  (strip (MergeCleanedUtterances.candidate_R row) <> [] ->
   contains (lower (strip (MergeCleanedUtterances.winner row)))
            (lower (strip (MergeCleanedUtterances.candidate_R row))) = true ->
   MergeCleanedUtterances.get_winner_party row = "Republican")
  /\ (strip (MergeCleanedUtterances.candidate_R row) <> [] ->
      strip (MergeCleanedUtterances.winner row) = [] ->
      MergeCleanedUtterances.get_winner_party row = "Republican")
  /\ In (MergeCleanedUtterances.get_winner_party row)
        ["Republican" : str; "Democrat" : str; "Independent" : str; [] : str].
Proof.
  assert (H1 : strip (MergeCleanedUtterances.candidate_R row) <> [] ->
               contains (lower (strip (MergeCleanedUtterances.winner row)))
                 (lower (strip (MergeCleanedUtterances.candidate_R row))) = true ->
               MergeCleanedUtterances.get_winner_party row = "Republican").
  { intros Hne Hc. unfold MergeCleanedUtterances.get_winner_party.
    cbn [MergeCleanedUtterances.winner_loop]. rewrite Hc, eqb_nil_false; [reflexivity|].
    intros E. apply Hne. apply (proj1 (lower_nil_iff _)). exact E. }
  split; [exact H1|]. split.
  - intros Hne Hw. apply H1; [exact Hne|]. rewrite Hw. apply contains_nil.
  - unfold MergeCleanedUtterances.get_winner_party.
    cbn [MergeCleanedUtterances.winner_loop].
    repeat match goal with
           | |- context [if ?b then _ else _] => destruct b
           end; cbn; tauto.
Qed.

Lemma winner_party_first_match_witness :
  MergeCleanedUtterances.get_winner_party
    {| MergeCleanedUtterances.candidate_R := "George W. Bush";
       MergeCleanedUtterances.candidate_D := "Al Gore";
       MergeCleanedUtterances.candidate_I := "nan";
       MergeCleanedUtterances.winner := "  " |}
  = "Republican".
Proof.
  apply (proj1 (proj2 (winner_party_first_match _))).
  - vm_compute. discriminate.
  - vm_compute. reflexivity.
Defined.

(** ** What the honorific segmenter does guarantee *)

Lemma replace_nl_free (s : str) : ~ In nl (replace [nl] " " s).
Proof.
  rewrite replace_char, in_flat_map. intros (c & _ & H).
  destruct (Ascii.eqb nl c) eqn:Ec.
  - destruct H as [H|[]]. discriminate.
  - destruct H as [H|[]]. apply Ascii.eqb_neq in Ec. apply Ec. symmetry. exact H.
Qed.

Lemma numbered_when_kept {X} (d : str) (F : nat * X -> list utterance) (xs : list X) :
  (forall j x u, In u (F (j, x)) -> F (j, x) = [u] /\ utterance_id u = caps_id d (j + 1)) ->
  forall i,
  exists l,
    List.map utterance_id (flat_map F (enumerate_from i xs)) = List.map (caps_id d) l
    /\ increasing_from i l
    /\ List.Forall (fun n => n <= i + length xs) l.
Proof.
  intros HF. induction xs as [|x t IH]; intros i.
  - exists []. split; [reflexivity|]. split; constructor.
  - destruct (IH (S i)) as (l & Hl & Hs & Hb).
    cbn [enumerate_from flat_map]. rewrite List.map_app, Hl.
    assert (Hb' : List.Forall (fun n => n <= i + length (x :: t)) l).
    { eapply List.Forall_impl; [|exact Hb]. cbn [length]. intros n Hn. cbn beta in Hn. lia. }
    destruct (F (i, x)) as [|u r] eqn:E.
    + exists l. split; [reflexivity|]. split; [|exact Hb'].
      destruct l as [|n l']; [exact I|]. cbn [increasing_from] in Hs |- *.
      split; [lia|apply Hs].
    + destruct (HF i x u) as [Eu Hid]; [rewrite E; left; reflexivity|].
      rewrite E in Eu. injection Eu as ->.
      exists ((i + 1) :: l). cbn [List.map app]. rewrite Hid.
      split; [reflexivity|]. split.
      * cbn [increasing_from]. split; [lia|].
        replace (i + 1) with (S i) by lia. exact Hs.
      * constructor; [cbn [length]; lia|exact Hb'].
Qed.

(** X7. Whatever the text, the utterances of [parse_honorific_format] have
    a body that is not empty and holds no line feed, and their ids are
    [debate_n] for numbers [n] that increase strictly and lie between 1 and
    the number of matches of [SPEAKER_PATTERN]; they need not be contiguous.
    The bodies of [parse_regex_format] hold no line feed either. *)
Theorem honorific_records_are_ordered (debate file_text : str) :
  List.Forall (fun u => text u <> [] /\ ~ In nl (text u))
    (parse_honorific_format debate file_text)
  /\ (exists l,
        List.map utterance_id (parse_honorific_format debate file_text)
        = List.map (caps_id debate) l
        /\ increasing_from 0 l
        /\ List.Forall
             (fun n => n <= length (finditer SPEAKER_PATTERN (normalize file_text))) l)
  /\ (forall pattern : regex,
        List.Forall (fun u => ~ In nl (text u))
          (parse_regex_format file_text pattern debate)).
Proof.
  split; [|split].
  - apply List.Forall_forall. intros u Hu. unfold parse_honorific_format in Hu.
    apply in_flat_map in Hu as ([i [m e]] & _ & Hu). cbn [fst snd] in Hu.
    destruct (replace [nl] " " (strip (slice (normalize file_text) (m_end m) e)))
      as [|c r] eqn:E; [contradiction|].
    destruct Hu as [<-|[]]. cbn [text]. split; [discriminate|].
    rewrite <- E. apply replace_nl_free.
  - unfold parse_honorific_format.
    set (t := normalize file_text).
    set (ms := finditer SPEAKER_PATTERN t).
    match goal with
    | |- context [flat_map ?F (enumerate_from 0 ?xs)] =>
        destruct (numbered_when_kept debate F xs) with (i := 0) as (l & Hl & Hs & Hb)
    end.
    + intros j [m e] u Hu. cbn [fst snd] in Hu |- *.
      destruct (replace [nl] " " (strip (slice t (m_end m) e))) as [|c r];
        [contradiction|].
      destruct Hu as [<-|[]]. split; reflexivity.
    + exists l. split; [exact Hl|]. split; [exact Hs|].
      eapply List.Forall_impl; [|exact Hb]. intros n Hn. cbn beta in Hn.
      rewrite length_combine, span_ends_length in Hn. lia.
  - intros pattern. apply List.Forall_forall. intros u Hu.
    unfold parse_regex_format in Hu. apply in_map_iff in Hu as (im & <- & _).
    cbn [text]. apply replace_nl_free.
Qed.

(** ** Labels and anchors *)

Lemma find_only (p : str -> bool) (x : str) (l : list str) :
  In x l -> p x = true -> (forall y, In y l -> y <> x -> p y = false) ->
  List.find p l = Some x.
Proof.
  induction l as [|y l IH]; intros Hin Hx Hothers; [contradiction|].
  cbn [List.find]. destruct (decide (y = x)) as [->|Hne].
  - rewrite Hx. reflexivity.
  - rewrite (Hothers y (or_introl eq_refl) Hne).
    destruct Hin as [->|Hin]; [contradiction|].
    apply IH; [exact Hin|exact Hx|].
    intros z Hz. apply Hothers. right. exact Hz.
Qed.

(** X8. [clean_label] meets the members of the set [valid_labels] in an
    order that the program does not fix. In every order its answer is one of
    the three labels or [unspecified]; when exactly one label occurs in the
    stripped, lowered reply, that label is the answer in every order; when
    two occur, the answer depends on the order. *)
Theorem clean_label_and_set_order :
  (forall (order : list str) (raw : str),
        Permutation order RhetoricApiAnnotation.valid_labels ->
        In (RhetoricApiAnnotation.clean_label order raw)
           (RhetoricApiAnnotation.valid_labels ++ ["unspecified" : str]))
  /\ (forall (order : list str) (raw lbl : str),
        Permutation order RhetoricApiAnnotation.valid_labels ->
        In lbl RhetoricApiAnnotation.valid_labels ->
        contains lbl (lower (strip raw)) = true ->
        (forall other, In other RhetoricApiAnnotation.valid_labels -> other <> lbl ->
                       contains other (lower (strip raw)) = false) ->
        RhetoricApiAnnotation.clean_label order raw = lbl)
  /\ RhetoricApiAnnotation.clean_label ["attack" : str; "acclaim" : str; "defense" : str]
       "Attack, then defense"
     = "attack"
  /\ RhetoricApiAnnotation.clean_label ["defense" : str; "acclaim" : str; "attack" : str]
       "Attack, then defense"
     = "defense".
Proof.
  split; [|split; [|split; reflexivity]].
  - intros order raw Hp. unfold RhetoricApiAnnotation.clean_label.
    destruct (List.find _ order) as [lbl|] eqn:E.
    + apply List.find_some in E as [Hin _]. apply in_or_app. left.
      apply (Permutation_in _ Hp Hin).
    + apply in_or_app. right. left. reflexivity.
  - intros order raw lbl Hp Hin Hc Hothers. unfold RhetoricApiAnnotation.clean_label.
    rewrite (find_only _ lbl order); [reflexivity| |exact Hc|].
    + apply (Permutation_in _ (Permutation_sym Hp) Hin).
    + intros y Hy Hne. apply Hothers; [|exact Hne]. apply (Permutation_in _ Hp Hy).
Qed.

Lemma clean_label_and_set_order_witness :
  RhetoricApiAnnotation.clean_label ["defense" : str; "attack" : str; "acclaim" : str]
    " Acclaim. "
  = "acclaim".
Proof.
  apply (proj1 (proj2 clean_label_and_set_order)).
  - apply (Permutation_cons_app ["attack" : str; "acclaim" : str] []).
    apply Permutation_refl.
  - vm_compute. tauto.
  - vm_compute. reflexivity.
  - intros other Hin Hne. vm_compute in Hin.
    destruct Hin as [<-|[<-|[<-|[]]]]; [reflexivity|contradiction|reflexivity].
Defined.

Lemma dict_get_in (d : list (str * str)) (key default : str) :
  WordDrift.dict_get d key default = default
  \/ In (WordDrift.dict_get d key default) (List.map snd d).
Proof.
  induction d as [|[k v] t IH]; [left; reflexivity|].
  cbn [WordDrift.dict_get List.map snd]. destruct (eqb k key).
  - right. left. reflexivity.
  - destruct IH as [IH|IH]; [left; exact IH|right; right; exact IH].
Qed.

(** X9. The table [ALIAS2ANCHOR] sends every alias to the anchor under
    which it is listed, no alias being listed twice, and every anchor to
    itself; so the canonical form of a list of tokens is not changed by
    canonicalising it again. *)
Theorem canonicalize_idempotent (tokens : list str) :
  List.Forall (fun item : str * list str =>
                 List.Forall (fun alias => WordDrift.dict_get WordDrift.ALIAS2ANCHOR alias alias
                                           = fst item) (snd item)
                 /\ WordDrift.dict_get WordDrift.ALIAS2ANCHOR (fst item) (fst item) = fst item)
              WordDrift.ANCHORS
  /\ WordDrift.canonicalize (WordDrift.canonicalize tokens) = WordDrift.canonicalize tokens.
Proof.
  split.
  - unfold WordDrift.ANCHORS.
    repeat (apply List.Forall_cons; [cbn [fst snd]; split;
                                     [repeat (apply List.Forall_cons; [vm_compute; reflexivity|]);
                                      apply List.Forall_nil
                                     |vm_compute; reflexivity]|]).
    apply List.Forall_nil.
  - unfold WordDrift.canonicalize. rewrite List.map_map. apply List.map_ext.
    intros tok.
    destruct (dict_get_in WordDrift.ALIAS2ANCHOR tok tok) as [E|Hin]; [rewrite !E; reflexivity|].
    revert Hin. generalize (WordDrift.dict_get WordDrift.ALIAS2ANCHOR tok tok). intros v Hin.
    assert (Hall : List.Forall (fun v => WordDrift.dict_get WordDrift.ALIAS2ANCHOR v v = v)
                     (List.map snd WordDrift.ALIAS2ANCHOR)).
    { let l := eval vm_compute in (List.map snd WordDrift.ALIAS2ANCHOR) in
      change (List.map snd WordDrift.ALIAS2ANCHOR) with l.
      repeat (apply List.Forall_cons; [vm_compute; reflexivity|]). apply List.Forall_nil. }
    rewrite List.Forall_forall in Hall. apply Hall. exact Hin.
Qed.

(** ** Fingerprints and retained rows *)

Lemma lower_char_space (c : ascii) : isspace (lower_char c) = isspace c.
Proof.
  destruct c as [[] [] [] [] [] [] [] []]; vm_compute; reflexivity.
Qed.

Lemma lower_char_idem (c : ascii) : lower_char (lower_char c) = lower_char c.
Proof.
  destruct c as [[] [] [] [] [] [] [] []]; vm_compute; reflexivity.
Qed.

Lemma lower_idem (s : str) : lower (lower s) = lower s.
Proof.
  unfold lower. rewrite List.map_map. apply List.map_ext. apply lower_char_idem.
Qed.

Lemma lower_word (w : str) : is_word w -> is_word (lower w).
Proof.
  intros [Hne Hw]. split.
  - destruct w; [contradiction|discriminate].
  - rewrite <- Hw. clear. unfold lower. induction w as [|c w IH]; [reflexivity|].
    cbn [List.map forallb]. rewrite lower_char_space, IH. reflexivity.
Qed.

Lemma split_from_word (w s cur : str) :
  forallb (fun c => negb (isspace c)) w = true ->
  split_from cur (w ++ s) = split_from (rev w ++ cur) s.
Proof.
  revert cur. induction w as [|c w IH]; intros cur H; [reflexivity|].
  cbn [forallb] in H. apply andb_prop in H as [Hc Hw]. apply negb_true_iff in Hc.
  cbn [app split_from rev]. rewrite Hc, (IH _ Hw), <- app_assoc. reflexivity.
Qed.

(** Splitting the words joined by single spaces gives the words back. *)
Lemma split_join_words (ws : list str) :
  List.Forall is_word ws -> Py.split (join " " ws) = ws.
Proof.
  unfold Py.split. induction 1 as [|w ws [Hne Hw] _ IH]; [reflexivity|].
  rewrite join_cons. destruct ws as [|w2 ws'].
  - replace (split_from [] w) with (split_from [] (w ++ []))
      by (rewrite app_nil_r; reflexivity).
    rewrite split_from_word by exact Hw.
    cbn [split_from]. rewrite app_nil_r.
    destruct (rev w) eqn:E.
    + exfalso. apply Hne. rewrite <- (rev_involutive w), E. reflexivity.
    + rewrite <- E, rev_involutive. reflexivity.
  - rewrite split_from_word by exact Hw. rewrite app_nil_r.
    change (list_ascii_of_string " " ++ join " " (w2 :: ws'))
      with (" "%char :: join " " (w2 :: ws')).
    cbn [split_from]. change (isspace " ") with true. cbv iota.
    destruct (rev w) eqn:E.
    + exfalso. apply Hne. rewrite <- (rev_involutive w), E. reflexivity.
    + rewrite <- E, rev_involutive, IH. reflexivity.
Qed.

(** X10. The text that [hash_body] hashes is a normal form: it is the
    lowered words of the body joined by single spaces, normalising it again
    changes nothing, and so a body and its normal form have the same
    fingerprint, whatever the hash function. *)
Theorem hash_norm_idempotent (text : str) :
  hash_norm text = join " " (List.map lower (Py.split text))
  /\ hash_norm (hash_norm text) = hash_norm text
  /\ (forall md5_hexdigest : str -> str,
        hash_body md5_hexdigest (hash_norm text) = hash_body md5_hexdigest text).
Proof.
  assert (H : hash_norm (hash_norm text) = hash_norm text).
  { rewrite (hash_norm_words (hash_norm text)), (hash_norm_words text).
    rewrite split_join_words.
    - rewrite List.map_map. f_equal. apply List.map_ext. apply lower_idem.
    - apply List.Forall_map.
      eapply List.Forall_impl; [intros w; apply lower_word|].
      apply split_from_words. reflexivity. }
  split; [apply hash_norm_words|]. split; [exact H|].
  intros md5. unfold hash_body. rewrite H. reflexivity.
Qed.

(** X11. The rows that [main] writes have pairwise different fingerprints,
    each is a row that was read with its body cleaned and its counts
    recomputed, its word count is that of its body and is at least
    [MIN_WORDS], and its length is that of its body. *)
Theorem main_rows_are_unique_and_long (md5_hexdigest : str -> str) (rows : list article) :
  List.NoDup (List.map (body_fp md5_hexdigest) (main md5_hexdigest rows))
  /\ List.Forall (fun r => (exists r0, In r0 rows /\ r = recompute r0)
                           /\ body_words r = word_count (body r)
                           /\ body_len r = length (body r)
                           /\ MIN_WORDS <= word_count (body r))
       (main md5_hexdigest rows).
Proof.
  split.
  - unfold main. apply nodup_map_filter. apply drop_duplicates_nodup.
  - apply List.Forall_forall. intros r Hr.
    destruct (main_row_counts md5_hexdigest rows r Hr) as (H1 & H2 & H3).
    split; [|split; [exact H1|split; [exact H2|rewrite <- H1; exact H3]]].
    unfold main in Hr. apply List.filter_In in Hr as [Hr _].
    apply drop_duplicates_sub in Hr as [Hr _].
    apply in_map_iff in Hr as (r0 & <- & Hr0). exists r0. split; [exact Hr0|reflexivity].
Qed.

(** ** Speaker roles *)

Lemma contains_char (a : ascii) (s : str) : In a s -> contains [a] s = true.
Proof.
  induction s as [|c t IH]; [intros []|].
  intros [->|H]; cbn [contains startswith].
  - rewrite Ascii.eqb_refl. reflexivity.
  - rewrite (IH H). apply orb_true_r.
Qed.

(** X12. The generic labels are looked for as substrings, and one of them
    is the letter [q]: a speaker whose cleaned name has a [q] anywhere and
    shares no token with the roster is the moderator, also when the name
    holds [president]; nothing is asked and the cache is left as it is. *)
Theorem letter_q_is_moderator (name debate : str) (canonical_map : list (str * role))
    (w : world) :
  roster_match (tokens (clean_for_matching name)) canonical_map = None ->
  In "q"%char (clean_for_matching name) ->
  match_role name canonical_map debate w = (Some Moderator, w).
Proof.
  intros Hr Hq. unfold match_role. rewrite Hr.
  assert (Hg : is_generic (clean_for_matching name) = true).
  { unfold is_generic, generic_labels. cbn [existsb].
    change (list_ascii_of_string "q") with ["q"%char].
    rewrite (contains_char _ _ Hq). rewrite !orb_true_r. reflexivity. }
  rewrite Hg. reflexivity.
Qed.

Lemma letter_q_is_moderator_witness :
  match_role "President Quayle"
    [("George Bush" : str, Candidate_R); ("Michael Dukakis" : str, Candidate_D)] "d1"
    fresh_world
  = (Some Moderator, fresh_world).
Proof.
  apply letter_q_is_moderator.
  - vm_compute. reflexivity.
  - vm_compute. tauto.
Defined.

(** ** Line ends *)

(** X13. [normalize] is the identity on a text without carriage return,
    which every text read in text mode is; on other texts one pass can
    leave a carriage return before a line feed, so that a second pass
    changes the text again. *)
Theorem normalize_on_text_mode (t : str) :
  (~ In cr t -> normalize t = t)
  /\ normalize [cr; cr; nl] = [cr; nl]
  /\ normalize (normalize [cr; cr; nl]) = [nl].
Proof.
  split; [|split; reflexivity].
  unfold normalize, replace. induction t as [|c t IH]; intros H; [reflexivity|].
  cbn [replace_from startswith].
  assert (Hc : Ascii.eqb cr c = false).
  { apply Ascii.eqb_neq. intros E. apply H. left. symmetry. exact E. }
  rewrite Hc. cbn [andb]. f_equal. apply IH. intros Hin. apply H. right. exact Hin.
Qed.

Lemma normalize_on_text_mode_witness : normalize sample_title_text = sample_title_text.
Proof.
  apply (proj1 (normalize_on_text_mode sample_title_text)).
  vm_compute. intros H. decompose [or] H; first [discriminate|contradiction].
Defined.

(** ** Substitution by a pattern whose attempts depend on the text ahead *)

Section SubByAttempt.

Variable r : regex.
Variable alen : str -> option nat.
Variable repl : str.

Hypothesis attempt_alen :
  forall ma c,
    option_map (fun e : mstate => rest (fst e)) (attempt r ma c)
    = option_map (fun n => skipn n (rest c)) (alen (rest c)).

Hypothesis alen_bounds : forall s n, alen s = Some n -> 1 <= n <= length s.

Lemma replace_matches_skip (s : str) :
  forall j, replace_matches alen repl j s = replace_matches alen repl 0 (skipn j s).
Proof.
  induction s as [|a t IH]; intros j; [destruct j; reflexivity|].
  destruct j as [|j]; [reflexivity|]. cbn [replace_matches skipn]. apply IH.
Qed.

Lemma search_by_attempt (s : str) :
  forall ma p sk,
    match search r ma p sk s with
    | Some (g, _, e) =>
        exists u v n,
          s = u ++ v /\ g = rev sk ++ u /\ alen v = Some n
          /\ rest (fst e) = skipn n v
          /\ replace_matches alen repl 0 s
             = u ++ repl ++ replace_matches alen repl 0 (skipn n v)
    | None => replace_matches alen repl 0 s = s
    end.
Proof.
  induction s as [|a t IH]; intros ma p sk; rewrite search_eq.
  - pose proof (attempt_alen ma {| prev := p; rest := [] |}) as H0. cbn [rest] in H0.
    destruct (alen []) as [n|] eqn:E.
    + apply alen_bounds in E. cbn [length] in E. lia.
    + destruct (attempt r ma _); [discriminate|reflexivity].
  - pose proof (attempt_alen ma {| prev := p; rest := a :: t |}) as H1. cbn [rest] in H1.
    destruct (alen (a :: t)) as [n|] eqn:E.
    + destruct (attempt r ma _) as [e|]; [|discriminate].
      cbn [option_map] in H1. injection H1 as H1.
      exists [], (a :: t), n. rewrite app_nil_r. cbn [app]. repeat split; try assumption.
      cbn [replace_matches]. rewrite E, replace_matches_skip. f_equal. f_equal.
      apply alen_bounds in E. destruct n as [|n]; [lia|].
      cbn [skipn]. f_equal. lia.
    + destruct (attempt r ma _) as [e|]; [discriminate|].
      specialize (IH false (Some a) (a :: sk)).
      destruct (search r false (Some a) (a :: sk) t) as [[[g b] e]|].
      * destruct IH as (u & v & n & -> & -> & Hn & He & Hr).
        exists (a :: u), v, n. cbn [rev app]. rewrite <- app_assoc.
        repeat split; try assumption.
        cbn [replace_matches]. rewrite E, Hr. reflexivity.
      * cbn [replace_matches]. rewrite E, IH. reflexivity.
Qed.

Lemma scan_by_attempt (fuel : nat) :
  forall s p off ma,
    length s < fuel ->
    sub_of repl (scan_from r fuel off ma {| prev := p; rest := s |})
    = replace_matches alen repl 0 s.
Proof.
  induction fuel as [|f IH]; intros s p off ma Hf; [lia|].
  cbn [scan_from prev rest].
  pose proof (search_by_attempt s ma p []) as Hs.
  destruct (search r ma p [] s) as [[[g b] e]|].
  - destruct Hs as (u & v & n & Hsplit & -> & Hn & He & Hr).
    apply alen_bounds in Hn.
    destruct (fst e) as [p' s'] eqn:Ee. cbn [rest] in He. subst s'.
    match goal with
    | |- context [scan_from r f ?o ?a _] =>
        pose proof (IH (skipn n v) p' o a) as IH'
    end.
    destruct (scan_from r f _ _ _) as [more tail].
    unfold sub_of in *. cbn [fst snd List.map concat gap rev app] in *.
    rewrite <- !app_assoc, IH', Hr; [reflexivity|].
    rewrite length_skipn. subst s. rewrite length_app in Hf. lia.
  - unfold sub_of. cbn [fst snd List.map concat app]. symmetry. exact Hs.
Qed.

Lemma sub_by_attempt (s : str) : sub r repl s = replace_matches alen repl 0 s.
Proof. unfold sub, scan. apply (scan_by_attempt _ s None 0 false). lia. Qed.

Lemma replace_matches_chars (s : str) :
  forall j c, In c (replace_matches alen repl j s) -> In c s \/ In c repl.
Proof.
  induction s as [|a t IH]; intros j c H; [contradiction|].
  cbn [replace_matches] in H. destruct j as [|j].
  - destruct (alen (a :: t)).
    + apply in_app_or in H as [H|H]; [right; exact H|].
      destruct (IH _ _ H) as [H'|H']; [left; right; exact H'|right; exact H'].
    + destruct H as [->|H]; [left; left; reflexivity|].
      destruct (IH _ _ H) as [H'|H']; [left; right; exact H'|right; exact H'].
  - destruct (IH _ _ H) as [H'|H']; [left; right; exact H'|right; exact H'].
Qed.

End SubByAttempt.

Lemma attempt_class (k : cclass) (ma : bool) (c : cursor) :
  option_map (fun e : mstate => rest (fst e)) (attempt (One k) ma c)
  = option_map (fun n => skipn n (rest c)) (class_len k (rest c)).
Proof.
  unfold attempt. cbn [run]. unfold step, class_len. cbn [fst snd].
  destruct (rest c) as [|a t]; [reflexivity|].
  destruct (accepts k a); [|reflexivity].
  cbn [List.find fst rest length].
  replace (length t <? S (length t))%nat with true by (symmetry; apply Nat.ltb_lt; lia).
  rewrite orb_true_r. reflexivity.
Qed.

Lemma class_len_bounds (k : cclass) (s : str) (n : nat) :
  class_len k s = Some n -> 1 <= n <= length s.
Proof.
  unfold class_len. destruct s as [|a t]; [discriminate|].
  destruct (accepts k a); [|discriminate]. intros H. injection H as <-. cbn [length]. lia.
Qed.

(** [re.sub] of a one-character class by the empty string removes the
    characters of the class. *)
Lemma sub_class_delete (k : cclass) (s : str) :
  sub (One k) [] s = List.filter (fun c => negb (accepts k c)) s.
Proof.
  rewrite (sub_by_attempt (One k) (class_len k) [] (attempt_class k) (class_len_bounds k)).
  induction s as [|a t IH]; [reflexivity|].
  cbn [replace_matches class_len List.filter].
  destruct (accepts k a); cbn [negb app Nat.sub]; rewrite IH; reflexivity.
Qed.

Lemma attempt_run (k : cclass) (lo : nat) (ma : bool) (c : cursor) :
  1 <= lo ->
  option_map (fun e : mstate => rest (fst e)) (attempt (Rep true lo None (One k)) ma c)
  = option_map (fun n => skipn n (rest c)) (run_len k lo (rest c)).
Proof.
  intros Hlo. unfold attempt, run_len. rewrite run_rep_class.
  pose proof (countdown_hd (runlen k (rest c)) lo) as Hhd.
  destruct (lo <=? runlen k (rest c))%nat eqn:E.
  - destruct (countdown lo (runlen k (rest c))) as [|n l]; [discriminate|].
    injection Hhd as ->. cbn [List.map]. rewrite find_head.
    + cbn [option_map fst]. rewrite adv_rest. reflexivity.
    + cbn [fst]. rewrite adv_rest, length_skipn.
      apply Nat.leb_le in E. pose proof (runlen_le k (rest c)).
      apply orb_true_iff. right. apply Nat.ltb_lt. lia.
  - apply hd_error_none in Hhd. rewrite Hhd. reflexivity.
Qed.

Lemma run_len_bounds (k : cclass) (lo : nat) (s : str) (n : nat) :
  1 <= lo -> run_len k lo s = Some n -> 1 <= n <= length s.
Proof.
  unfold run_len. intros Hlo. destruct (lo <=? runlen k s)%nat eqn:E; [|discriminate].
  intros H. injection H as <-. apply Nat.leb_le in E. pose proof (runlen_le k s). lia.
Qed.

Lemma in_squeeze (s : str) :
  forall b c, In c (squeeze b s) -> c = " "%char \/ (In c s /\ isspace c = false).
Proof.
  induction s as [|a t IH]; intros b c H; [contradiction|].
  cbn [squeeze] in H. destruct (isspace a) eqn:Ea.
  - destruct b.
    + destruct (IH _ _ H) as [H'|[H' Hc]]; [left; exact H'|right; split; [right; exact H'|exact Hc]].
    + destruct H as [<-|H]; [left; reflexivity|].
      destruct (IH _ _ H) as [H'|[H' Hc]]; [left; exact H'|right; split; [right; exact H'|exact Hc]].
  - destruct H as [<-|H]; [right; split; [left; reflexivity|exact Ea]|].
    destruct (IH _ _ H) as [H'|[H' Hc]]; [left; exact H'|right; split; [right; exact H'|exact Hc]].
Qed.

(** X14. Whatever the name, [clean_for_matching] returns a string made of
    the lower-case letters [a]..[z] and the space only; so are the tokens
    that [match_role] compares. *)
Theorem clean_for_matching_alphabet (name : str) (c : ascii) :
  In c (clean_for_matching name) -> c = " "%char \/ between 97 122 c = true.
Proof.
  unfold clean_for_matching. rewrite sub_spaces.
  change (list_ascii_of_string "") with (@nil ascii).
  rewrite sub_class_delete.
  intros H. apply in_squeeze in H as [H|[H Hs]]; [left; exact H|right].
  apply List.filter_In in H as [_ H]. apply negb_true_iff in H.
  cbn [accepts existsb in_item] in H. rewrite Hs in H.
  apply negb_false_iff in H. rewrite !orb_false_r in H. exact H.
Qed.

Lemma clean_for_matching_alphabet_witness :
  "q"%char = " "%char \/ between 97 122 "q" = true.
Proof.
  apply (clean_for_matching_alphabet "Vice-President QUAYLE (R)").
  vm_compute. tauto.
Defined.

(** ** Cleaning a block *)

Lemma replace_from_chars (old new s : str) :
  forall j c, In c (replace_from old new j s) -> In c s \/ In c new.
Proof.
  induction s as [|a t IH]; intros j c H; [contradiction|].
  cbn [replace_from] in H. destruct j as [|j].
  - destruct (startswith old (a :: t)).
    + apply in_app_or in H as [H|H]; [right; exact H|].
      destruct (IH _ _ H) as [H'|H']; [left; right; exact H'|right; exact H'].
    + destruct H as [->|H]; [left; left; reflexivity|].
      destruct (IH _ _ H) as [H'|H']; [left; right; exact H'|right; exact H'].
  - destruct (IH _ _ H) as [H'|H']; [left; right; exact H'|right; exact H'].
Qed.

Lemma replace_char_gone (a b : ascii) (s : str) (c : ascii) :
  a <> b -> In c (replace [a] [b] s) -> c <> a /\ (c = b \/ In c s).
Proof.
  intros Hab. rewrite replace_char, in_flat_map. intros (x & Hx & H).
  destruct (Ascii.eqb a x) eqn:E.
  - destruct H as [<-|[]]. split; [intros E'; apply Hab; symmetry; exact E'|left; reflexivity].
  - destruct H as [<-|[]]. apply Ascii.eqb_neq in E.
    split; [intros E'; apply E; symmetry; exact E'|right; exact Hx].
Qed.

Lemma replace_char_absent (a : ascii) (new s : str) : ~ In a s -> replace [a] new s = s.
Proof.
  rewrite replace_char. induction s as [|c t IH]; intros H; [reflexivity|].
  cbn [flat_map]. rewrite IH by (intros Hin; apply H; right; exact Hin).
  assert (E : Ascii.eqb a c = false).
  { apply Ascii.eqb_neq. intros ->. apply H. left. reflexivity. }
  rewrite E. reflexivity.
Qed.

Lemma replace_crlf_absent (t : str) : ~ In cr t -> replace [cr; nl] [nl] t = t.
Proof.
  unfold replace. induction t as [|c t IH]; intros H; [reflexivity|].
  cbn [replace_from startswith].
  assert (Hc : Ascii.eqb cr c = false).
  { apply Ascii.eqb_neq. intros E. apply H. left. symmetry. exact E. }
  rewrite Hc. cbn [andb]. f_equal. apply IH. intros Hin. apply H. right. exact Hin.
Qed.

Lemma in_strip (s : str) (c : ascii) : In c (strip s) -> In c s.
Proof.
  destruct (strip_decompose s) as (w1 & w2 & E & _). intros H.
  rewrite E. apply in_or_app. right. apply in_or_app. left. exact H.
Qed.

Lemma lstrip_length (p : ascii -> bool) (s : str) : length (lstrip_by p s) <= length s.
Proof.
  induction s as [|c t IH]; [reflexivity|]. cbn [lstrip_by].
  destruct (p c); cbn [length]; lia.
Qed.

Lemma lstrip_idem (p : ascii -> bool) (s : str) :
  lstrip_by p (lstrip_by p s) = lstrip_by p s.
Proof.
  induction s as [|c t IH]; [reflexivity|]. cbn [lstrip_by].
  destruct (p c) eqn:E; [exact IH|]. cbn [lstrip_by]. rewrite E. reflexivity.
Qed.

(** What [strip] returns has no blank at either end. *)
Lemma strip_is_tight (s : str) : tight (strip s).
Proof.
  unfold tight, strip, rstrip_by. rewrite rev_involutive. split; [|apply lstrip_idem].
  set (L := lstrip_by isspace s).
  assert (HL : lstrip_by isspace L = L) by apply lstrip_idem.
  destruct (lstrip_decompose isspace (rev L)) as (w & E & Hw).
  set (x := rev (lstrip_by isspace (rev L))) in *.
  assert (EL : L = x ++ rev w).
  { unfold x. rewrite <- rev_app_distr, <- E, rev_involutive. reflexivity. }
  destruct x as [|c x']; [reflexivity|].
  rewrite EL in HL. cbn [app lstrip_by] in HL |- *.
  destruct (isspace c); [|reflexivity].
  exfalso. apply (f_equal (@length ascii)) in HL.
  pose proof (lstrip_length isspace (x' ++ rev w)). cbn [length] in HL. lia.
Qed.

Lemma strip_of_tight (x : str) : tight x -> strip x = x.
Proof.
  intros H. pose proof (strip_tight [] x [] eq_refl eq_refl H) as E.
  rewrite app_nil_r in E. exact E.
Qed.

(** No three line feeds in a row from any position on. *)
Lemma runlen_app_le (k : cclass) (v w : str) : runlen k v <= runlen k (v ++ w).
Proof.
  induction v as [|a v IH]; [cbn; lia|]. cbn [app runlen].
  destruct (accepts k a); lia.
Qed.

Section Runs.

Variable k : cclass.
Variable lo : nat.
Variable repl : str.
Hypothesis lo_pos : 1 <= lo.
Hypothesis repl_len : length repl < lo.
Hypothesis repl_class : forallb (accepts k) repl = true.

Let R := replace_matches (run_len k lo) repl 0.

Lemma runs_unfold (s : str) :
  R s = match s with
        | [] => []
        | a :: t =>
            if (lo <=? runlen k s)%nat then repl ++ R (skipn (runlen k s) s)
            else a :: R t
        end.
Proof.
  unfold R. destruct s as [|a t]; [reflexivity|].
  cbn [replace_matches]. unfold run_len at 1.
  destruct (lo <=? runlen k (a :: t))%nat eqn:E; [|reflexivity].
  f_equal. rewrite (replace_matches_skip (run_len k lo) repl t).
  f_equal. apply Nat.leb_le in E.
  destruct (runlen k (a :: t)) as [|n]; [lia|]. cbn [skipn]. f_equal. lia.
Qed.

Lemma runlen_after (s : str) : runlen k (skipn (runlen k s) s) = 0.
Proof.
  induction s as [|a t IH]; [reflexivity|]. cbn [runlen].
  destruct (accepts k a) eqn:E; [exact IH|]. cbn [skipn runlen]. rewrite E. reflexivity.
Qed.

Lemma runlen_class_app (u v : str) :
  forallb (accepts k) u = true -> runlen k (u ++ v) = length u + runlen k v.
Proof.
  induction u as [|a u IH]; intros H; [reflexivity|].
  cbn [forallb] in H. apply andb_prop in H as [Ha Hu].
  cbn [app runlen length]. rewrite Ha, (IH Hu). reflexivity.
Qed.

(** The runs of the result: a run of at least [lo] has become [repl], a
    shorter one is as it was. *)
Lemma runs_head (n : nat) :
  forall s, length s <= n ->
            runlen k (R s) = if (lo <=? runlen k s)%nat then length repl else runlen k s.
Proof.
  induction n as [|n IH]; intros s Hn.
  - destruct s; [|cbn in Hn; lia]. rewrite runs_unfold. cbn [runlen].
    destruct lo; [lia|reflexivity].
  - rewrite runs_unfold. destruct s as [|a t].
    + cbn [runlen]. destruct lo; [lia|reflexivity].
    + destruct (lo <=? runlen k (a :: t))%nat eqn:E.
      * rewrite runlen_class_app by exact repl_class.
        rewrite IH.
        -- rewrite runlen_after.
           replace (lo <=? 0)%nat with false by (symmetry; apply Nat.leb_gt; lia). lia.
        -- rewrite length_skipn. apply Nat.leb_le in E. cbn [length] in Hn |- *. lia.
      * cbn [runlen]. destruct (accepts k a) eqn:Ea; [|reflexivity].
        rewrite IH by (cbn [length] in Hn; lia).
        apply Nat.leb_gt in E. cbn [runlen] in E. rewrite Ea in E.
        replace (lo <=? runlen k t)%nat with false by (symmetry; apply Nat.leb_gt; lia).
        reflexivity.
Qed.

Lemma runs_short (n : nat) :
  forall s, length s <= n ->
            forall u v, R s = u ++ v -> runlen k v < lo.
Proof.
  induction n as [|n IH]; intros s Hn u v E.
  - destruct s; [|cbn in Hn; lia]. rewrite runs_unfold in E.
    symmetry in E. apply app_eq_nil in E as [_ ->]. cbn [runlen]. lia.
  - destruct u as [|c u].
    + cbn [app] in E. subst v. rewrite (runs_head (S n) s Hn).
      destruct (lo <=? runlen k s)%nat eqn:El; [lia|apply Nat.leb_gt; exact El].
    + rewrite runs_unfold in E. destruct s as [|a t]; [discriminate|].
      destruct (lo <=? runlen k (a :: t))%nat eqn:El.
      * (* the suffix starts inside [repl] or after it *)
        assert (Hs : length (skipn (runlen k (a :: t)) (a :: t)) <= n).
        { rewrite length_skipn. apply Nat.leb_le in El. cbn [length] in Hn |- *. lia. }
        destruct (Nat.le_gt_cases (length repl) (length (c :: u))) as [Hlong|Hshort].
        -- assert (Ev : exists u', R (skipn (runlen k (a :: t)) (a :: t)) = u' ++ v).
           { exists (skipn (length repl) (c :: u)).
             apply (f_equal (skipn (length repl))) in E.
             rewrite skipn_exact in E. rewrite E, skipn_app.
             replace (length repl - length (c :: u)) with 0 by lia. reflexivity. }
           destruct Ev as (u' & Ev). apply (IH _ Hs u' v Ev).
        -- assert (Ev : exists w, v = w ++ R (skipn (runlen k (a :: t)) (a :: t))
                                  /\ forallb (accepts k) w = true
                                  /\ length w < length repl).
           { exists (skipn (length (c :: u)) repl).
             pose proof (f_equal (skipn (length (c :: u))) E) as E'.
             rewrite skipn_exact in E'. rewrite <- E', skipn_app.
             replace (length (c :: u) - length repl) with 0 by lia.
             split; [reflexivity|]. split.
             - rewrite <- (firstn_skipn (length (c :: u)) repl) in repl_class.
               rewrite List.forallb_app in repl_class.
               apply andb_prop in repl_class as [_ H]. exact H.
             - rewrite length_skipn. cbn [length] in *. lia. }
           destruct Ev as (w & -> & Hw & Hlen).
           rewrite runlen_class_app by exact Hw.
           rewrite (runs_head n _ Hs), runlen_after.
           replace (lo <=? 0)%nat with false by (symmetry; apply Nat.leb_gt; lia). lia.
      * injection E as _ E. apply (IH t ltac:(cbn [length] in Hn; lia) u v E).
Qed.

Lemma runs_fixed (y : str) :
  (forall u v, y = u ++ v -> runlen k v < lo) -> R y = y.
Proof.
  induction y as [|a t IH]; intros H; [reflexivity|].
  rewrite runs_unfold.
  pose proof (H [] (a :: t) eq_refl) as H0.
  replace (lo <=? runlen k (a :: t))%nat with false by (symmetry; apply Nat.leb_gt; lia).
  f_equal. apply IH. intros u v E. apply (H (a :: u) v). rewrite E. reflexivity.
Qed.

End Runs.

Lemma sub_newline_runs (s : str) :
  sub (at_least 3 (chr nl)) [nl; nl] s
  = replace_matches (run_len (Lit nl) 3) [nl; nl] 0 s.
Proof.
  apply (sub_by_attempt (Rep true 3 None (One (Lit nl))) (run_len (Lit nl) 3) [nl; nl]).
  - intros ma c. apply attempt_run. lia.
  - intros x n. apply run_len_bounds. lia.
Qed.

Lemma clean_block_chars (text : str) (c : ascii) :
  In c (clean_block text) -> c <> cr /\ c <> ff.
Proof.
  unfold clean_block. intros H. apply in_strip in H. rewrite sub_newline_runs in H.
  assert (Hnl : nl <> cr /\ nl <> ff) by (split; discriminate).
  apply replace_matches_chars in H as [H|H].
  - apply replace_char_gone in H; [|discriminate]. destruct H as [Hff [E|H]].
    + rewrite E. exact Hnl.
    + apply replace_char_gone in H; [|discriminate]. destruct H as [Hcr _].
      split; assumption.
  - destruct H as [<-|[<-|[]]]; exact Hnl.
Qed.

Lemma clean_block_runs (text u v : str) :
  clean_block text = u ++ v -> runlen (Lit nl) v < 3.
Proof.
  unfold clean_block. rewrite sub_newline_runs.
  set (z := replace_matches (run_len (Lit nl) 3) [nl; nl] 0 _).
  destruct (strip_decompose z) as (w1 & w2 & Ez & _). intros E.
  rewrite E in Ez.
  assert (Ez' : z = (w1 ++ u) ++ (v ++ w2)) by (rewrite Ez, <- !app_assoc; reflexivity).
  pose proof (runs_short (Lit nl) 3 [nl; nl] ltac:(lia) ltac:(cbn; lia) eq_refl
                (length _) _ (le_n _) _ _ Ez') as H.
  pose proof (runlen_app_le (Lit nl) v w2). lia.
Qed.

(** X15. Whatever the text, the block that [clean_block] returns holds no
    carriage return and no form feed, has no blank at either end and never
    three line feeds in a row; cleaning it again changes nothing. *)
Theorem clean_block_normal_form (text : str) :
  (forall c, In c (clean_block text) -> c <> cr /\ c <> ff)
  /\ tight (clean_block text)
  /\ (forall u v, clean_block text = u ++ v -> runlen (Lit nl) v < 3)
  /\ clean_block (clean_block text) = clean_block text.
Proof.
  split; [apply clean_block_chars|]. split; [apply strip_is_tight|].
  split; [apply clean_block_runs|].
  set (y := clean_block text).
  assert (Hcr : ~ In cr y)
    by (intros H; apply (proj1 (clean_block_chars text cr H)); reflexivity).
  assert (Hff : ~ In ff y)
    by (intros H; apply (proj2 (clean_block_chars text ff H)); reflexivity).
  unfold clean_block at 1.
  rewrite (replace_crlf_absent y Hcr), (replace_char_absent cr [nl] y Hcr),
    (replace_char_absent ff [nl] y Hff), sub_newline_runs.
  assert (E : replace_matches (run_len (Lit nl) 3) [nl; nl] 0 y = y).
  { apply runs_fixed; [lia|cbn [length]; lia|].
    intros u v. unfold y. apply clean_block_runs. }
  rewrite E. apply strip_of_tight. apply strip_is_tight.
Qed.

(** ** Words of a text *)

Lemma split_from_lead (w s : str) :
  forallb isspace w = true -> split_from [] (w ++ s) = split_from [] s.
Proof.
  induction w as [|c w IH]; intros H; [reflexivity|].
  cbn [forallb] in H. apply andb_prop in H as [Hc Hw].
  cbn [app split_from]. rewrite Hc. apply IH. exact Hw.
Qed.

Lemma split_from_blank (w : str) :
  forallb isspace w = true ->
  forall cur, split_from cur w = split_from cur [].
Proof.
  induction w as [|c w IH]; intros H cur; [reflexivity|].
  cbn [forallb] in H. apply andb_prop in H as [Hc Hw].
  cbn [split_from]. rewrite Hc, (IH Hw []). destruct cur; reflexivity.
Qed.

Lemma split_from_trail (x w : str) :
  forallb isspace w = true ->
  forall cur, split_from cur (x ++ w) = split_from cur x.
Proof.
  intros Hw. induction x as [|c x IH]; intros cur.
  - apply split_from_blank. exact Hw.
  - cbn [app split_from]. destruct (isspace c); [|apply IH].
    rewrite (IH []). reflexivity.
Qed.

Lemma split_strip (l : str) : Py.split (strip l) = Py.split l.
Proof.
  destruct (strip_decompose l) as (w1 & w2 & E & H1 & H2).
  rewrite E at 2. unfold Py.split.
  rewrite split_from_lead by exact H1. rewrite split_from_trail by exact H2. reflexivity.
Qed.

Lemma split_from_nonempty (s : str) :
  forall cur, cur <> [] -> split_from cur s <> [].
Proof.
  induction s as [|c s IH]; intros cur H; cbn [split_from].
  - destruct cur; [contradiction|discriminate].
  - destruct (isspace c).
    + destruct cur; [contradiction|discriminate].
    + apply IH. discriminate.
Qed.

Lemma split_blank (l : str) : strip l = [] <-> Py.split l = [].
Proof.
  rewrite <- (split_strip l). pose proof (strip_is_tight l) as [Ht _].
  destruct (strip l) as [|c x]; [split; reflexivity|].
  split; [discriminate|]. intros H. exfalso.
  cbn [lstrip_by] in Ht. destruct (isspace c) eqn:Ec.
  - apply (f_equal (@length ascii)) in Ht. pose proof (lstrip_length isspace x).
    cbn [length] in Ht. lia.
  - unfold Py.split in H. cbn [split_from] in H. rewrite Ec in H.
    apply (split_from_nonempty x [c]) in H; [exact H|discriminate].
Qed.

Lemma split_from_app_space (a b : str) (c : ascii) :
  isspace c = true ->
  forall cur, split_from cur (a ++ c :: b) = split_from cur a ++ split_from [] b.
Proof.
  intros Hc. induction a as [|x a IH]; intros cur.
  - cbn [app split_from]. rewrite Hc. destruct cur; reflexivity.
  - cbn [app split_from]. destruct (isspace x); [|apply IH].
    rewrite (IH []). destruct cur; reflexivity.
Qed.

(** The words of lines joined by single spaces are the words of the lines. *)
Lemma split_join_lines (ls : list str) :
  Py.split (join " " ls) = flat_map Py.split ls.
Proof.
  induction ls as [|l ls IH]; [reflexivity|].
  rewrite join_cons. cbn [flat_map]. destruct ls as [|l2 ls'].
  - cbn [flat_map]. rewrite app_nil_r. reflexivity.
  - change (list_ascii_of_string " " ++ join " " (l2 :: ls'))
      with (" "%char :: join " " (l2 :: ls')).
    unfold Py.split in *. rewrite split_from_app_space by reflexivity.
    rewrite IH. reflexivity.
Qed.

Lemma flat_map_split_nonblank (col : list str) :
  flat_map Py.split
    (List.map strip (List.filter (fun c => negb (eqb (strip c) [])) col))
  = flat_map Py.split col.
Proof.
  induction col as [|l col IH]; [reflexivity|].
  cbn [List.filter flat_map].
  destruct (eqb (strip l) []) eqn:E; cbn [negb].
  - rewrite IH. unfold eqb in E. apply bool_decide_eq_true in E.
    apply split_blank in E. rewrite E. reflexivity.
  - cbn [List.map flat_map]. rewrite IH, split_strip. reflexivity.
Qed.

(** X16. The headline that [extract_headline] returns is single-spaced: it
    is the words of the lines collected between the [HD] line and the next
    tag line, joined by single spaces, or the words of the fallback when
    those lines hold no word. *)
Theorem headline_is_single_spaced (chunk fallback : str) :
  MediaDatasetCleaning.extract_headline chunk fallback
  = join " "
      (match flat_map Py.split
               (MediaDatasetCleaning.headline_loop false (splitlines chunk)) with
       | [] => Py.split fallback
       | w :: ws => w :: ws
       end).
Proof.
  unfold MediaDatasetCleaning.extract_headline.
  set (col := MediaDatasetCleaning.headline_loop false (splitlines chunk)).
  rewrite <- (flat_map_split_nonblank col).
  assert (Hnb : List.Forall (fun l => strip l <> [])
                  (List.filter (fun c => negb (eqb (strip c) [])) col)).
  { apply List.Forall_forall. intros l Hl. apply List.filter_In in Hl as [_ Hl].
    apply negb_true_iff in Hl. unfold eqb in Hl. apply bool_decide_eq_false in Hl. exact Hl. }
  destruct (List.filter (fun c => negb (eqb (strip c) [])) col) as [|l ls].
  - cbn [List.map join flat_map]. rewrite sub_spaces, strip_squeeze. reflexivity.
  - apply List.Forall_inv in Hnb.
    assert (Hw : Py.split (strip l) <> []).
    { rewrite split_strip. intros E. apply split_blank in E. contradiction. }
    assert (Hj : join " " (List.map strip (l :: ls)) <> []).
    { cbn [List.map]. rewrite join_cons. destruct (strip l); [contradiction|].
      destruct (List.map strip ls); discriminate. }
    destruct (join " " (List.map strip (l :: ls))) as [|c x] eqn:Ej; [contradiction|].
    rewrite <- Ej, sub_spaces, strip_squeeze, split_join_lines.
    cbn [List.map flat_map]. destruct (Py.split (strip l)) as [|w ws]; [contradiction|].
    reflexivity.
Qed.

(** X17. [clean_text] returns the words of the text, once the bracketed
    parts are blanked, joined by single spaces; so [too_short] of a cleaned
    text counts those words. The dot of [BRACKETED] does not pass a line
    feed, which the second substitution turns into a space: a bracketed part
    that runs over two lines survives one cleaning and not the next. *)
Theorem clean_text_is_single_spaced (t : str) :
  IdeologyApiAnnotation.clean_text t
  = join " " (Py.split (sub IdeologyApiAnnotation.BRACKETED " " t))
  /\ IdeologyApiAnnotation.too_short (IdeologyApiAnnotation.clean_text t)
     = (length (Py.split (sub IdeologyApiAnnotation.BRACKETED " " t)) <? 10)%nat
  /\ IdeologyApiAnnotation.clean_text ("(a" ++ [nl] ++ "b) c") = "(a b) c"
  /\ IdeologyApiAnnotation.clean_text "(a b) c" = "c".
Proof.
  assert (H : IdeologyApiAnnotation.clean_text t
              = join " " (Py.split (sub IdeologyApiAnnotation.BRACKETED " " t))).
  { unfold IdeologyApiAnnotation.clean_text, IdeologyApiAnnotation.SPACES.
    rewrite sub_spaces, strip_squeeze. reflexivity. }
  split; [exact H|]. split; [|split; vm_compute; reflexivity].
  unfold IdeologyApiAnnotation.too_short. rewrite H, split_join_words; [reflexivity|].
  apply split_from_words. reflexivity.
Qed.

(** X18. [has_tag_line] of the body extractor is the test that
    [is_real_article] makes: for a tag without blanks it holds exactly when
    some line of the chunk, between line feeds, is the tag once stripped;
    a line that is cut by another line boundary of [splitlines], such as a
    carriage return, does not count. *)
Theorem dataset_tag_line (chunk tag : str) :
  is_word tag ->
  (MediaDatasetCleaning.has_tag_line chunk tag = true <-> has_tag_line tag chunk = true)
  /\ is_real_article chunk
     = MediaDatasetCleaning.has_tag_line chunk "PD"
       && MediaDatasetCleaning.has_tag_line chunk "SN"
       && MediaDatasetCleaning.has_tag_line chunk "LP"
  /\ MediaDatasetCleaning.has_tag_line ("x" ++ [cr] ++ "TD" ++ [cr] ++ "y") "TD" = false
  /\ List.map strip (splitlines ("x" ++ [cr] ++ "TD" ++ [cr] ++ "y"))
     = ["x" : str; "TD" : str; "y" : str].
Proof.
  intros Hw. split; [apply search_ok_tag_line; exact Hw|].
  split; [reflexivity|]. split; vm_compute; reflexivity.
Qed.

Lemma dataset_tag_line_witness :
  MediaDatasetCleaning.has_tag_line ("HD" ++ [nl] ++ "Title" ++ [nl] ++ " TD " ++ [nl]
                                     ++ "Body") "TD" = true.
Proof.
  apply (proj1 (dataset_tag_line _ "TD" (tag_is_word "T" "D" eq_refl eq_refl))).
  vm_compute. reflexivity.
Defined.
